(** * Avalon: game protocol, control layer, oracle wrapper and memory store

    A shallow embedding of the Python sources

      - [llm_client.py]            (module [LLMClient])
      - [agents/memory.py]         (module [Memory])
      - [server/async_game_runner.py], control part (module [Runner])
      - [models/*.py], [agents/agent.py], [engine/*.py] (module [Game])
      - [agents/agent.py], vote and mission parsers (module [Ballot])
      - [community/statistics.py]  (module [Statistics])

    Python [int] is [Z] (or [nat] for counters that only count up), Python
    [str] is the list of its code points, Python [list] is [list], a Python
    [dict] is an association list in insertion order. *)

From Stdlib Require Import String Ascii DecimalString.
From Stdlib Require DecimalPos DecimalZ.
From Stdlib Require Import List ZArith NArith Arith Bool Lia Permutation.
Import ListNotations.

Set Implicit Arguments.

(** ** Python strings and lists *)

Module Py.

(** A [str] is a sequence of Unicode code points. *)
Definition pystr := list N.

(** Literals are written as UTF-8 byte strings and decoded. *)
Fixpoint utf8_decode (bs : list N) : pystr :=
  match bs with
  | [] => []
  | b :: t =>
    if (b <? 128)%N then b :: utf8_decode t
    else if (b <? 224)%N then
      match t with
      | b2 :: t2 => ((b mod 32) * 64 + b2 mod 64)%N :: utf8_decode t2
      | _ => []
      end
    else if (b <? 240)%N then
      match t with
      | b2 :: b3 :: t3 =>
        ((b mod 16) * 4096 + (b2 mod 64) * 64 + b3 mod 64)%N :: utf8_decode t3
      | _ => []
      end
    else
      match t with
      | b2 :: b3 :: b4 :: t4 =>
        ((b mod 8) * 262144 + (b2 mod 64) * 4096 + (b3 mod 64) * 64 + b4 mod 64)%N
          :: utf8_decode t4
      | _ => []
      end
  end.

Definition u (s : string) : pystr :=
  utf8_decode (map N_of_ascii (list_ascii_of_string s)).

(** [a == b] on strings. *)
Fixpoint str_eqb (a b : pystr) : bool :=
  match a, b with
  | [], [] => true
  | x :: a', y :: b' => (x =? y)%N && str_eqb a' b'
  | _, _ => false
  end.

(** [s.startswith(p)]. *)
Fixpoint startswith (s p : pystr) : bool :=
  match p, s with
  | [], _ => true
  | x :: p', y :: s' => (x =? y)%N && startswith s' p'
  | _ :: _, [] => false
  end.

(** [p in s] for strings. *)
Fixpoint contains (p s : pystr) : bool :=
  startswith s p || match s with [] => false | _ :: t => contains p t end.

(** [str.isspace] on one code point (CPython's [_PyUnicode_IsWhitespace]). *)
Definition isspace (c : N) : bool :=
  ((9 <=? c) && (c <=? 13) || (28 <=? c) && (c <=? 32) || (c =? 133) || (c =? 160)
   || (c =? 5760) || (8192 <=? c) && (c <=? 8202) || (c =? 8232) || (c =? 8233)
   || (c =? 8239) || (c =? 8287) || (c =? 12288))%N.

Fixpoint lstrip (s : pystr) : pystr :=
  match s with
  | [] => []
  | c :: t => if isspace c then lstrip t else s
  end.

(** [s.strip()]. *)
Definition strip (s : pystr) : pystr := rev (lstrip (rev (lstrip s))).

(** Truth value of a string: non-empty. *)
Definition truthy (s : pystr) : bool :=
  match s with [] => false | _ => true end.

(** [s.split("\n")]. *)
Fixpoint split_nl (s : pystr) : list pystr :=
  match s with
  | [] => [[]]
  | c :: t =>
    if (c =? 10)%N then [] :: split_nl t
    else match split_nl t with
         | [] => [[c]]
         | h :: r => (c :: h) :: r
         end
  end.

(** [sep.join(l)]. *)
Fixpoint join (sep : pystr) (l : list pystr) : pystr :=
  match l with
  | [] => []
  | [x] => x
  | x :: r => x ++ sep ++ join sep r
  end.

(** [str(n)] for an integer. *)
Definition str_of_Z (z : Z) : pystr :=
  map N_of_ascii (list_ascii_of_string (NilZero.string_of_int (Z.to_int z))).

Definition str_of_nat (n : nat) : pystr := str_of_Z (Z.of_nat n).

(** [l[:-k]] and [l[-k:]] for a non-negative [k].  For [k = 0] Python reads
    [-0] as [0]: [l[:0]] is empty and [l[0:]] is the whole list. *)
Definition slice_to_neg {A} (k : nat) (l : list A) : list A :=
  if k =? 0 then [] else firstn (length l - k) l.

Definition slice_from_neg {A} (k : nat) (l : list A) : list A :=
  if k =? 0 then l else skipn (length l - k) l.

(** [l[i]] for an integer index; [None] is [IndexError]. *)
Definition index {A} (l : list A) (i : Z) : option A :=
  let n := Z.of_nat (length l) in
  if (i <? 0)%Z
  then if (0 <=? n + i)%Z then nth_error l (Z.to_nat (n + i)) else None
  else nth_error l (Z.to_nat i).

(** [range(n)] as integers. *)
Definition range (n : nat) : list Z := map Z.of_nat (seq 0 n).

(** [x in l] for a list of integers. *)
Definition mem (x : Z) (l : list Z) : bool := existsb (Z.eqb x) l.

(** [l.remove(x)]: drops the first occurrence. *)
Fixpoint remove_first (x : Z) (l : list Z) : list Z :=
  match l with
  | [] => []
  | y :: t => if (x =? y)%Z then t else y :: remove_first x t
  end.

(** [random.choice(l)] driven by one draw [r]; [None] is the [IndexError]
    raised on an empty sequence. *)
Definition choice (r : nat) (l : list Z) : option Z :=
  match l with
  | [] => None
  | _ => nth_error l (r mod length l)
  end.

(** Exceptions that matter in the modelled code. *)
Inductive exn :=
  TypeError | ValueError | OverflowError | IndexError | KeyError | ZeroDivisionError.

Inductive result (A : Type) :=
| Ok (a : A)
| Raise (e : exn).
Arguments Ok {A} a.
Arguments Raise {A} e.

Definition bind {A B} (m : result A) (f : A -> result B) : result B :=
  match m with
  | Ok a => f a
  | Raise e => Raise e
  end.

(** A [dict] keyed by integers, in insertion order. [d[k] = v] keeps the
    position of an existing key. *)
Definition dict (V : Type) := list (Z * V).

Fixpoint dict_set {V} (d : dict V) (k : Z) (v : V) : dict V :=
  match d with
  | [] => [(k, v)]
  | (k', v') :: t => if (k =? k')%Z then (k, v) :: t else (k', v') :: dict_set t k v
  end.

Definition keys {V} (d : dict V) : list Z := map fst d.
Definition values {V} (d : dict V) : list V := map snd d.

(** [sum(1 for v in vs if v)] and [sum(1 for v in vs if not v)]. *)
Definition count_true (vs : list bool) : nat := length (filter (fun v => v) vs).
Definition count_false (vs : list bool) : nat := length (filter negb vs).

End Py.
Import Py.

Notation "x <- m ;; k" := (bind m (fun x => k))
  (at level 61, m at next level, right associativity).


(** ** [llm_client.py]: the decision-oracle wrapper *)

Module LLMClient.

Definition MAX_RETRIES : nat := 3.
Definition RETRY_DELAY : nat := 2.

(** What one call of [_client.chat.completions.create] does: it raises an
    [Exception] (whose [str()] is [err]), or returns a response with no
    choices, with a [None] content, or with a text content. *)
Inductive ApiOutcome :=
| ApiRaises (err : pystr)
| ApiNoChoices
| ApiNoneContent
| ApiContent (content : pystr).

Definition THINK_OPEN : pystr := u "<think>".
Definition THINK_CLOSE : pystr := u "</think>".

(** Index of the first occurrence of [pat] in [s]. *)
Fixpoint find (pat s : pystr) : option nat :=
  if startswith s pat then Some 0
  else match s with
       | [] => None
       | _ :: t => option_map S (find pat t)
       end.

(** Length of the match of [<think>.*?</think>] (DOTALL) anchored at the
    start of [s], if there is one. *)
Definition think_match (s : pystr) : option nat :=
  if startswith s THINK_OPEN
  then option_map (fun i => length THINK_OPEN + i + length THINK_CLOSE)
                  (find THINK_CLOSE (skipn (length THINK_OPEN) s))
  else None.

(** [re.sub(r"<think>.*?</think>", "", s, flags=re.DOTALL)]: [skip] counts
    the characters of the current match still to drop. *)
Fixpoint sub_think (skip : nat) (s : pystr) : pystr :=
  match s with
  | [] => []
  | c :: t =>
    match skip with
    | S k => sub_think k t
    | 0 => match think_match s with
           | Some n => sub_think (n - 1) t
           | None => c :: sub_think 0 t
           end
    end
  end.

Definition _clean_response (content : pystr) : pystr :=
  strip (sub_think 0 content).

(** The body of the [try] block for one attempt: the text to return, or the
    [str()] of the exception caught by [except Exception]. *)
Definition attempt_once (o : ApiOutcome) : pystr + pystr :=
  match o with
  | ApiRaises err => inr err
  | ApiNoChoices => inr (u "API返回的choices为空")
  | ApiNoneContent => inr (u "API返回的content为None")
  | ApiContent content =>
    let content := strip content in
    if truthy content then inl (_clean_response content)
    else inr (u "API返回了空字符串")
  end.

(** [f"{last_error}"]. *)
Definition fmt_error (last_error : option pystr) : pystr :=
  match last_error with
  | None => u "None"
  | Some e => e
  end.

Definition failure_string (last_error : option pystr) : pystr :=
  u "[LLM调用失败(重试" ++ str_of_nat MAX_RETRIES ++ u "次): "
    ++ fmt_error last_error ++ u "]".

(** Outcome of [_call_with_retry]: the returned string, the number of calls
    made to the remote service and the [time.sleep] delays, in order. *)
Record RetryRun := {
  returned : pystr;
  attempts : nat;
  sleeps : list nat;
}.

(** The [for attempt in range(MAX_RETRIES)] loop; [n] iterations remain and
    [api attempt] is what the remote service does at that attempt. *)
Fixpoint retry_loop (api : nat -> ApiOutcome) (n attempt : nat)
         (last_error : option pystr) (slept : list nat) : RetryRun :=
  match n with
  | 0 => {| returned := failure_string last_error;
            attempts := attempt; sleeps := slept |}
  | S n' =>
    match attempt_once (api attempt) with
    | inl text => {| returned := text; attempts := S attempt; sleeps := slept |}
    | inr e =>
      let slept' :=
        if attempt <? MAX_RETRIES - 1
        then slept ++ [RETRY_DELAY * (attempt + 1)]
        else slept in
      retry_loop api n' (S attempt) (Some e) slept'
    end
  end.

Definition _call_with_retry (api : nat -> ApiOutcome) : RetryRun :=
  retry_loop api MAX_RETRIES 0 None [].

(** [chat] and [chat_with_history] build the message list and return what
    [_call_with_retry] returns. *)
Definition chat (api : nat -> ApiOutcome) : pystr :=
  returned (_call_with_retry api).

End LLMClient.

(** ** [agents/memory.py]: the hierarchical memory store *)

Module Memory.

Record Message := {
  role : pystr;
  content : pystr;
}.

Record MemoryManager := {
  player_name : pystr;
  summary : pystr;
  recent : list Message;
  compress_count : nat;
}.

(** [MemoryManager.__init__]. *)
Definition init (name : pystr) : MemoryManager :=
  {| player_name := name; summary := []; recent := []; compress_count := 0 |}.

Definition FAILURE_PREFIX : pystr := u "[LLM调用失败".

(** [_simplify_prompt]: the loop over the lines, with the [skip] flag. *)
Fixpoint simplify_lines (lines : list pystr) (skip : bool) : list pystr :=
  match lines with
  | [] => []
  | line :: rest =>
    if contains (u "请严格按照以下JSON格式") line then simplify_lines rest true
    else if contains (u "请直接说出你的发言内容") line then simplify_lines rest skip
    else if contains (u "注意不要暴露自己的真实身份") line then simplify_lines rest skip
    else if skip && (startswith (strip line) (u "{")
                     || startswith (strip line) (u "例如"))
    then simplify_lines rest skip
    else
      let stripped := strip line in
      if truthy stripped then stripped :: simplify_lines rest false
      else simplify_lines rest false
  end.

Definition _simplify_prompt (prompt : pystr) : pystr :=
  join (u " ") (firstn 5 (simplify_lines (split_nl prompt) false)).

(** [_format_messages_for_summary]: the lines appended for one message. *)
Definition format_message (name : pystr) (msg : Message) : list pystr :=
  if str_eqb (role msg) (u "user") then
    if startswith (content msg) (u "[游戏事件]") then [content msg]
    else if startswith (content msg) (u "[任务执行]") then [content msg]
    else
      let simplified := _simplify_prompt (content msg) in
      if truthy simplified then [u "[决策请求] " ++ simplified] else []
  else if str_eqb (role msg) (u "assistant") then
    [u "[" ++ name ++ u "的回复] " ++ content msg]
  else [].

Definition _format_messages_for_summary (name : pystr) (messages : list Message)
  : pystr :=
  join [10%N] (flat_map (format_message name) messages).

(** The request sent to the summarizer. *)
Definition user_message (m : MemoryManager) (text_to_compress : pystr) : pystr :=
  if truthy (summary m) then
    u "以下是之前的记忆摘要：" ++ [10%N] ++ u "---" ++ [10%N] ++ summary m
      ++ [10%N] ++ u "---" ++ [10%N; 10%N]
      ++ u "以下是新增的游戏记录（来自" ++ player_name m ++ u "的视角）："
      ++ [10%N] ++ u "---" ++ [10%N] ++ text_to_compress ++ [10%N] ++ u "---"
      ++ [10%N; 10%N] ++ u "请将旧摘要和新记录合并，生成一份更新的摘要。"
  else
    u "以下是游戏记录（来自" ++ player_name m ++ u "的视角）：" ++ [10%N]
      ++ u "---" ++ [10%N] ++ text_to_compress ++ [10%N] ++ u "---"
      ++ [10%N; 10%N] ++ u "请生成一份结构化摘要。".

Section Store.

(** The configured threshold [MEMORY_COMPRESS_THRESHOLD] and the number of
    kept messages [MEMORY_KEEP_RECENT]. *)
Variable T K : nat.

(** [_compress]; [llm] is [llm_client.chat] for the summary request of this
    pass (it maps the request to the returned text). *)
Definition _compress (llm : pystr -> pystr) (m : MemoryManager) : MemoryManager :=
  let old_messages := slice_to_neg K (recent m) in
  let new_messages := slice_from_neg K (recent m) in
  let text_to_compress := _format_messages_for_summary (player_name m) old_messages in
  if negb (truthy (strip text_to_compress)) then
    {| player_name := player_name m; summary := summary m;
       recent := new_messages; compress_count := compress_count m |}
  else
    let new_summary := llm (user_message m text_to_compress) in
    if startswith new_summary FAILURE_PREFIX then
      {| player_name := player_name m; summary := summary m;
         recent := new_messages; compress_count := compress_count m |}
    else
      {| player_name := player_name m; summary := new_summary;
         recent := new_messages; compress_count := compress_count m + 1 |}.

(** [add]. *)
Definition add (llm : pystr -> pystr) (m : MemoryManager) (r c : pystr)
  : MemoryManager :=
  let m1 := {| player_name := player_name m; summary := summary m;
               recent := recent m ++ [{| role := r; content := c |}];
               compress_count := compress_count m |} in
  if T <=? length (recent m1) then _compress llm m1 else m1.

(** A sequence of [add] calls, each with the summarizer's behaviour at the
    time of the call. *)
Definition add_all (ops : list ((pystr -> pystr) * pystr * pystr))
           (m : MemoryManager) : MemoryManager :=
  fold_left (fun m op => add (fst (fst op)) m (snd (fst op)) (snd op)) ops m.

End Store.

(** The fold segment of the next compression pass has substantive content. *)
Definition substantive (name : pystr) (fold : list Message) : bool :=
  truthy (strip (_format_messages_for_summary name fold)).

(** [get_messages_for_llm]: the summary, if any, as a first exchange, then
    the recent messages. *)
Definition get_messages_for_llm (m : MemoryManager) : list Message :=
  (if truthy (summary m) then
     [{| role := u "user";
         content := u "[历史记忆摘要]" ++ [10%N] ++ summary m |};
      {| role := u "assistant";
         content := u "好的，我已了解之前的游戏经过，会基于这些信息继续参与游戏。" |}]
   else [])
  ++ recent m.

(** [get_stats]. *)
Record Stats := {
  summary_length : nat;
  recent_count : nat;
  stats_compress_count : nat;
  has_summary : bool;
}.

Definition get_stats (m : MemoryManager) : Stats :=
  {| summary_length := length (summary m); recent_count := length (recent m);
     stats_compress_count := compress_count m; has_summary := truthy (summary m) |}.

Section Agent.

Variable T K : nat.

(** [Agent.observe]: a public event is stored as a user message. *)
Definition observe (llm : pystr -> pystr) (m : MemoryManager) (event : pystr)
  : MemoryManager :=
  add T K llm m (u "user") (u "[游戏事件] " ++ event).

(** [Agent._call_llm]: the oracle is called on the history as it stands and
    the prompt; then the prompt and the reply are stored.  [oracle] is
    [llm_client.chat_with_history] for this call, [llm1] and [llm2] the
    summarizer at the two [add]s. *)
Definition _call_llm (oracle : list Message -> pystr -> pystr)
           (llm1 llm2 : pystr -> pystr) (m : MemoryManager) (prompt : pystr)
  : MemoryManager * pystr :=
  let history := get_messages_for_llm m in
  let response := oracle history prompt in
  let m1 := add T K llm1 m (u "user") prompt in
  let m2 := add T K llm2 m1 (u "assistant") response in
  (m2, response).

End Agent.

End Memory.

(** ** [server/async_game_runner.py]: control state and checkpoint *)

Module Runner.

Inductive RunState := STATE_IDLE | STATE_RUNNING | STATE_PAUSED | STATE_FINISHED.

(** The control fields of [AsyncGameRunner]; [_pause_event] is the flag of
    the [asyncio.Event] (set: run, clear: pause). *)
Record Control := {
  state : RunState;
  step_mode : bool;
  _stop_requested : bool;
  _pause_event : bool;
}.

(** [__init__]. *)
Definition init : Control :=
  {| state := STATE_IDLE; step_mode := false;
     _stop_requested := false; _pause_event := true |}.

Definition is_running (c : Control) : bool :=
  match state c with STATE_RUNNING => true | _ => false end.

Definition is_paused (c : Control) : bool :=
  match state c with STATE_PAUSED => true | _ => false end.

Definition pause (c : Control) : Control :=
  if is_running c then
    {| state := STATE_PAUSED; step_mode := step_mode c;
       _stop_requested := _stop_requested c; _pause_event := false |}
  else c.

Definition resume (c : Control) : Control :=
  if is_paused c then
    {| state := STATE_RUNNING; step_mode := false;
       _stop_requested := _stop_requested c; _pause_event := true |}
  else c.

Definition step (c : Control) : Control :=
  if is_paused c then
    {| state := STATE_RUNNING; step_mode := true;
       _stop_requested := _stop_requested c; _pause_event := true |}
  else c.

Definition stop (c : Control) : Control :=
  {| state := state c; step_mode := step_mode c; _stop_requested := true;
     _pause_event := if is_paused c then true else _pause_event c |}.

(** An emitted event: its type tag and the [reason] of its payload. *)
Record Event := {
  ev_type : pystr;
  ev_reason : pystr;
}.

Definition runner_paused : Event :=
  {| ev_type := u "runner_paused"; ev_reason := u "step" |}.

(** [_checkpoint] up to its [await self._pause_event.wait()]: [None] is the
    raised [_StopGame]; otherwise the control state and the events emitted. *)
Definition checkpoint_enter (c : Control) : option (Control * list Event) :=
  if _stop_requested c then None
  else if step_mode c then
    Some ({| state := STATE_PAUSED; step_mode := step_mode c;
             _stop_requested := _stop_requested c; _pause_event := false |},
          [runner_paused])
  else Some (c, []).

(** Where the orchestrator's coroutine stands when it gives control back. *)
Inductive Status :=
| Suspended   (* inside [wait()], the event is clear *)
| Stopped     (* [_StopGame] was raised *)
| Completed.  (* no unit of progress is left *)

Record Progress := {
  control : Control;
  units : nat;           (* units of protocol progress carried out *)
  emitted : list Event;  (* events emitted by the checkpoints *)
  status : Status;
}.

(** The coroutine from the moment [wait()] returns inside a checkpoint, with
    [n] units of protocol progress left and no command arriving meanwhile:
    the second stop test of the checkpoint, one unit, the next checkpoint. *)
Fixpoint after_wait (n : nat) (c : Control) : Progress :=
  if _stop_requested c then
    {| control := c; units := 0; emitted := []; status := Stopped |}
  else
    match n with
    | 0 => {| control := c; units := 0; emitted := []; status := Completed |}
    | S n' =>
      match checkpoint_enter c with
      | None => {| control := c; units := 1; emitted := []; status := Stopped |}
      | Some (c1, ev) =>
        if _pause_event c1 then
          let p := after_wait n' c1 in
          {| control := control p; units := S (units p);
             emitted := ev ++ emitted p; status := status p |}
        else {| control := c1; units := 1; emitted := ev; status := Suspended |}
      end
    end.

(** The head of [run_single_game]: a runner that is neither running nor
    paused is set running, with the stop request cleared and the pause event
    set. *)
Definition run_single_game_enter (c : Control) : Control :=
  if negb (is_running c) && negb (is_paused c) then
    {| state := STATE_RUNNING; step_mode := step_mode c;
       _stop_requested := false; _pause_event := true |}
  else c.

(** The head of [run_community_session]. *)
Definition run_community_session_enter (c : Control) : Control :=
  {| state := STATE_RUNNING; step_mode := step_mode c;
     _stop_requested := false; _pause_event := true |}.

(** The [finally] of [run_community_session]. *)
Definition run_community_session_exit (c : Control) : Control :=
  {| state := STATE_FINISHED; step_mode := step_mode c;
     _stop_requested := _stop_requested c; _pause_event := _pause_event c |}.

(** What [CommandHandler._cmd_start_game] does to the control fields: refused
    unless the runner is idle or finished, it sets the step mode (the entry of
    the game or session coroutine comes later, as its own action). *)
Definition _cmd_start_game (step_mode' : bool) (c : Control) : Control :=
  match state c with
  | STATE_IDLE | STATE_FINISHED =>
    {| state := state c; step_mode := step_mode';
       _stop_requested := _stop_requested c; _pause_event := _pause_event c |}
  | _ => c
  end.

(** Everything that writes the control fields: the four control commands,
    the start command, the entries of a game and of a session, the end of a
    session, and a checkpoint reached by the coroutine (a checkpoint that
    raises [_StopGame] leaves the fields as they are). *)
Inductive Action :=
| DoPause | DoResume | DoStep | DoStop
| DoStart (step_mode' : bool)
| EnterGame | EnterSession | ExitSession | ReachCheckpoint.

Definition act (c : Control) (a : Action) : Control :=
  match a with
  | DoPause => pause c
  | DoResume => resume c
  | DoStep => step c
  | DoStop => stop c
  | DoStart b => _cmd_start_game b c
  | EnterGame => run_single_game_enter c
  | EnterSession => run_community_session_enter c
  | ExitSession => run_community_session_exit c
  | ReachCheckpoint =>
    match checkpoint_enter c with
    | Some (c', _) => c'
    | None => c
    end
  end.

Definition acts (l : list Action) (c : Control) : Control := fold_left act l c.

End Runner.

(** ** [config.py], [models/], [agents/agent.py] and [engine/] *)

Module Game.

(** *** [config.py] *)

Definition PLAYER_COUNT : nat := 6.
Definition MISSION_TEAM_SIZES : list nat := [2; 3; 4; 3; 4].
Definition MISSION_FAIL_REQUIRED : list nat := [1; 1; 1; 1; 1].
Definition MAX_TEAM_VOTES : nat := 5.

(** *** [models/role.py] *)

Inductive Team := GOOD | EVIL.

Inductive RoleId :=
  merlin | percival | loyal_servant_1 | loyal_servant_2 | morgana | assassin.

(** [ROLES_CONFIG["good"] + ROLES_CONFIG["evil"]]. *)
Definition ROLES_CONFIG : list RoleId :=
  [merlin; percival; loyal_servant_1; loyal_servant_2; morgana; assassin].

(** [RoleInfo], without its display name and description. *)
Record RoleInfo := {
  role_id : RoleId;
  team : Team;
  can_see_evil : bool;
  can_see_merlin : bool;
  is_visible_to_merlin : bool;
  is_assassin : bool;
}.

Definition ROLES (r : RoleId) : RoleInfo :=
  match r with
  | merlin =>
    {| role_id := merlin; team := GOOD; can_see_evil := true;
       can_see_merlin := false; is_visible_to_merlin := true; is_assassin := false |}
  | percival =>
    {| role_id := percival; team := GOOD; can_see_evil := false;
       can_see_merlin := true; is_visible_to_merlin := true; is_assassin := false |}
  | loyal_servant_1 =>
    {| role_id := loyal_servant_1; team := GOOD; can_see_evil := false;
       can_see_merlin := false; is_visible_to_merlin := true; is_assassin := false |}
  | loyal_servant_2 =>
    {| role_id := loyal_servant_2; team := GOOD; can_see_evil := false;
       can_see_merlin := false; is_visible_to_merlin := true; is_assassin := false |}
  | morgana =>
    {| role_id := morgana; team := EVIL; can_see_evil := false;
       can_see_merlin := false; is_visible_to_merlin := true; is_assassin := false |}
  | assassin =>
    {| role_id := assassin; team := EVIL; can_see_evil := false;
       can_see_merlin := false; is_visible_to_merlin := true; is_assassin := true |}
  end.

Definition role_eqb (a b : RoleId) : bool :=
  match a, b with
  | merlin, merlin | percival, percival | loyal_servant_1, loyal_servant_1
  | loyal_servant_2, loyal_servant_2 | morgana, morgana | assassin, assassin => true
  | _, _ => false
  end.

(** *** [models/player.py] *)

(** [Player]; its public name is [玩家{player_id + 1}]. *)
Record Player := {
  player_id : Z;
  role : RoleInfo;
  is_leader : bool;
  known_evil : list Z;
  known_merlin_or_morgana : list Z;
  known_allies : list Z;
}.

Definition is_good (p : Player) : bool :=
  match team (role p) with GOOD => true | EVIL => false end.

Definition is_evil (p : Player) : bool :=
  match team (role p) with EVIL => true | GOOD => false end.

Definition player_name (pid : Z) : pystr := u "玩家" ++ str_of_Z (pid + 1).

(** *** [models/game_state.py] *)

Record MissionRecord := {
  round_num : Z;
  team_leader_id : Z;
  team_members : list Z;
  team_votes : dict bool;
  mission_votes : dict bool;
  success : option bool;
  speeches : dict pystr;
}.

(** [MissionRecord(round_num=.., team_leader_id=.., team_members=..)]. *)
Definition new_record (r leader : Z) (members : list Z) : MissionRecord :=
  {| round_num := r; team_leader_id := leader; team_members := members;
     team_votes := []; mission_votes := []; success := None; speeches := [] |}.

(** Mission records are Python objects shared between the engine's local
    variable [record] and the list [state.mission_records]: they live in a
    store and are named by their address. *)
Definition Heap := list MissionRecord.
Definition addr := nat.

Definition deref (h : Heap) (a : addr) : MissionRecord :=
  nth a h (new_record 0 0 []).

Fixpoint heap_update (h : Heap) (a : addr) (f : MissionRecord -> MissionRecord)
  : Heap :=
  match h, a with
  | [], _ => []
  | r :: t, 0 => f r :: t
  | r :: t, S a' => r :: heap_update t a' f
  end.

Record GameState := {
  players : list Player;
  current_round : nat;
  current_leader_idx : Z;
  consecutive_rejects : nat;
  mission_results : list bool;
  mission_records : list addr;
  proposed_team : list Z;
  game_over : bool;
  winner : option pystr;
  end_reason : pystr;
}.

Definition good_wins_count (s : GameState) : nat := count_true (mission_results s).
Definition evil_wins_count (s : GameState) : nat := count_false (mission_results s).

(** [state.players[i]], [None] being the [IndexError]. *)
Definition get_player (s : GameState) (pid : Z) : option Player :=
  index (players s) pid.

Definition set_leader_flags (ps : list Player) (idx : Z) : list Player :=
  map (fun p =>
         {| player_id := player_id p; role := role p;
            is_leader := (player_id p =? idx)%Z;
            known_evil := known_evil p;
            known_merlin_or_morgana := known_merlin_or_morgana p;
            known_allies := known_allies p |}) ps.

(** [next_leader]; the modulus raises [ZeroDivisionError] without players. *)
Definition next_leader (s : GameState) : result GameState :=
  match players s with
  | [] => Raise ZeroDivisionError
  | _ =>
    let idx := ((current_leader_idx s + 1) mod Z.of_nat (length (players s)))%Z in
    Ok {| players := set_leader_flags (players s) idx;
          current_round := current_round s;
          current_leader_idx := idx;
          consecutive_rejects := consecutive_rejects s;
          mission_results := mission_results s;
          mission_records := mission_records s;
          proposed_team := proposed_team s;
          game_over := game_over s;
          winner := winner s;
          end_reason := end_reason s |}
  end.

Definition NL : pystr := [10%N].

(** [get_public_history]: the lines appended for one record. *)
Definition history_lines (record : MissionRecord) : list pystr :=
  let approve_count := count_true (values (team_votes record)) in
  let reject_count := count_false (values (team_votes record)) in
  [NL ++ u "--- 第" ++ str_of_Z (round_num record) ++ u "轮任务 ---";
   u "队长: " ++ player_name (team_leader_id record);
   u "队伍: " ++ join (u ", ") (map player_name (team_members record));
   u "组队投票: " ++ str_of_nat approve_count ++ u "票同意, "
     ++ str_of_nat reject_count ++ u "票反对"]
  ++ match speeches record with
     | [] => []
     | sp => u "发言记录:"
             :: map (fun kv => u "  " ++ player_name (fst kv) ++ u ": " ++ snd kv) sp
     end
  ++ match success record with
     | Some ok =>
       let fail_count := count_false (values (mission_votes record)) in
       [u "任务结果: " ++ (if ok then u "成功" else u "失败");
        if 0 <? fail_count
        then u "  (出现了" ++ str_of_nat fail_count ++ u "张失败票)"
        else u "  (全部为成功票)"]
     | None => [u "组队投票结果: 被否决，未执行任务"]
     end.

Definition get_public_history (h : Heap) (s : GameState) : pystr :=
  match mission_records s with
  | [] => u "这是游戏的第一轮，还没有历史记录。"
  | rs =>
    join NL
      (flat_map (fun a => history_lines (deref h a)) rs
       ++ [NL ++ u "当前比分: 正义 " ++ str_of_nat (good_wins_count s)
              ++ u " : " ++ str_of_nat (evil_wins_count s) ++ u " 邪恶"])
  end.

(** *** [engine/game_engine.py], [setup] and [engine/night_phase.py] *)

Definition mk_player (i : nat) (r : RoleId) : Player :=
  {| player_id := Z.of_nat i; role := ROLES r; is_leader := false;
     known_evil := []; known_merlin_or_morgana := []; known_allies := [] |}.

(** [players[i] = f(players[i])] for a valid non-negative index. *)
Fixpoint update_at (ps : list Player) (i : nat) (f : Player -> Player)
  : list Player :=
  match ps, i with
  | [], _ => []
  | p :: t, 0 => f p :: t
  | p :: t, S i' => p :: update_at t i' f
  end.

Definition initial_state (ps : list Player) (leader : Z) : GameState :=
  {| players := ps; current_round := 0; current_leader_idx := leader;
     consecutive_rejects := 0; mission_results := []; mission_records := [];
     proposed_team := []; game_over := false; winner := None; end_reason := [] |}.

(** [setup]: [role_ids] is the shuffled role list, [leader] the result of
    [random.randint(0, PLAYER_COUNT - 1)]. *)
Definition setup (role_ids : list RoleId) (leader : Z) : GameState :=
  let ps := map (fun ir => mk_player (fst ir) (snd ir))
                (combine (seq 0 PLAYER_COUNT) role_ids) in
  initial_state
    (update_at ps (Z.to_nat leader)
       (fun p => {| player_id := player_id p; role := role p; is_leader := true;
                    known_evil := known_evil p;
                    known_merlin_or_morgana := known_merlin_or_morgana p;
                    known_allies := known_allies p |}))
    leader.

(** The id of the last player holding role [r] (the loop overwrites). *)
Definition find_role_id (ps : list Player) (r : RoleId) : option Z :=
  fold_left (fun acc p => if role_eqb (role_id (role p)) r
                          then Some (player_id p) else acc) ps None.

Definition evil_ids (ps : list Player) : list Z :=
  map player_id (filter is_evil ps).

Definition set_known_evil (l : list Z) (p : Player) : Player :=
  {| player_id := player_id p; role := role p; is_leader := is_leader p;
     known_evil := l; known_merlin_or_morgana := known_merlin_or_morgana p;
     known_allies := known_allies p |}.

Definition set_known_allies (l : list Z) (p : Player) : Player :=
  {| player_id := player_id p; role := role p; is_leader := is_leader p;
     known_evil := known_evil p;
     known_merlin_or_morgana := known_merlin_or_morgana p; known_allies := l |}.

Definition set_known_mm (l : list Z) (p : Player) : Player :=
  {| player_id := player_id p; role := role p; is_leader := is_leader p;
     known_evil := known_evil p; known_merlin_or_morgana := l;
     known_allies := known_allies p |}.

(** [execute_night_phase] on the player list (ids are list positions). *)
Definition night_players (ps : list Player) : list Player :=
  let merlin_id := find_role_id ps merlin in
  let percival_id := find_role_id ps percival in
  let morgana_id := find_role_id ps morgana in
  let evil := evil_ids ps in
  let ps1 := match merlin_id with
             | Some m => update_at ps (Z.to_nat m) (set_known_evil evil)
             | None => ps
             end in
  let ps2 := fold_left
               (fun acc eid =>
                  update_at acc (Z.to_nat eid)
                    (set_known_allies (filter (fun e => negb (e =? eid)%Z) evil)))
               evil ps1 in
  match percival_id, merlin_id, morgana_id with
  | Some pc, Some m, Some mg => update_at ps2 (Z.to_nat pc) (set_known_mm [m; mg])
  | _, _, _ => ps2
  end.

Definition execute_night_phase (s : GameState) : GameState :=
  {| players := night_players (players s);
     current_round := current_round s;
     current_leader_idx := current_leader_idx s;
     consecutive_rejects := consecutive_rejects s;
     mission_results := mission_results s;
     mission_records := mission_records s;
     proposed_team := proposed_team s;
     game_over := game_over s;
     winner := winner s;
     end_reason := end_reason s |}.

(** *** [agents/agent.py]: decoding the oracle's replies *)

(** A value decoded by [json.loads].  A float is kept as what [int()] makes
    of it: its truncation, or not-a-number, or an infinity. *)
Inductive pyfloat := FFinite (trunc : Z) | FNan | FInf.

#[warnings="-register-all"]
Inductive pyval :=
| PNone
| PBool (b : bool)
| PInt (z : Z)
| PFloat (f : pyfloat)
| PStr (s : pystr)
| PList (l : list pyval)
| PDict (kv : list (pystr * pyval)).

(** What the library calls of the parsers return on one oracle reply:
    - [json_obj]: [None] when [re.search(r'\{.*?\}', reply, re.DOTALL)] finds
      nothing; [Some None] when [json.loads] raises [JSONDecodeError] on the
      match; [Some (Some d)] for the decoded object [d];
    - [tagged_numbers]: [int(n)] for [n] in [re.findall(r'玩家(\d+)', reply)];
    - [plain_numbers]: [int(n)] for [n] in [re.findall(r'\d+', reply)]. *)
Record Response := {
  json_obj : option (option (list (pystr * pyval)));
  tagged_numbers : list Z;
  plain_numbers : list Z;
}.

(** [d.get(k, default)]. *)
Fixpoint dict_get (d : list (pystr * pyval)) (k : pystr) (default : pyval) : pyval :=
  match d with
  | [] => default
  | (k', v) :: t => if str_eqb k k' then v else dict_get t k default
  end.

(** Iterating a decoded value, as a comprehension does. *)
Definition py_iter (v : pyval) : result (list pyval) :=
  match v with
  | PList l => Ok l
  | PStr s => Ok (map (fun c => PStr [c]) s)
  | PDict kv => Ok (map (fun p => PStr (fst p)) kv)
  | PNone | PBool _ | PInt _ | PFloat _ => Raise TypeError
  end.

(** [0 <= t < PLAYER_COUNT]. *)
Definition valid_id (t : Z) : bool :=
  ((0 <=? t) && (t <? Z.of_nat PLAYER_COUNT))%Z.

(** [list(set(l))] for integers within [0, PLAYER_COUNT): CPython stores a
    small non-negative integer in the slot of its own value, so the set is
    listed in increasing order. *)
Definition list_set (l : list Z) : list Z :=
  filter (fun i => mem i l) (range PLAYER_COUNT).

(** [list(dict.fromkeys(l))]: first occurrences, in order. *)
Fixpoint fromkeys (l seen : list Z) : list Z :=
  match l with
  | [] => []
  | x :: t => if mem x seen then fromkeys t seen else x :: fromkeys t (x :: seen)
  end.

(** The loop [while len(team) < team_size: choice = random.choice(candidates);
    team.append(choice); candidates.remove(choice)], with [missing] the number
    of members still to add and [draws] the random draws. *)
Fixpoint pad_team (missing : nat) (team candidates : list Z) (draws : list nat)
  : result (list Z) :=
  match missing with
  | 0 => Ok team
  | S k =>
    match choice (hd 0 draws) candidates with
    | None => Raise IndexError
    | Some c => pad_team k (team ++ [c]) (remove_first c candidates) (tl draws)
    end
  end.

Section Engine.

(** Python's [int(s)] on a string; [None] is its [ValueError]. *)
Variable int_of_str : pystr -> option Z.

(** [int(v)] on a decoded value. *)
Definition py_int (v : pyval) : result Z :=
  match v with
  | PNone => Raise TypeError
  | PBool b => Ok (if b then 1 else 0)%Z
  | PInt z => Ok z
  | PFloat (FFinite t) => Ok t
  | PFloat FNan => Raise ValueError
  | PFloat FInf => Raise OverflowError
  | PStr s => match int_of_str s with
              | Some z => Ok z
              | None => Raise ValueError
              end
  | PList _ | PDict _ => Raise TypeError
  end.

(** [[int(t) - 1 for t in items]]. *)
Fixpoint ints_minus_one (items : list pyval) : result (list Z) :=
  match items with
  | [] => Ok []
  | t :: rest =>
    z <- py_int t ;;
    zs <- ints_minus_one rest ;;
    Ok ((z - 1)%Z :: zs)
  end.

(** The [try] block of [_parse_team]: [Ok (Some team)] returns [team],
    [Ok None] falls through to the text fallback (no match, wrong size, or an
    exception listed in [except (json.JSONDecodeError, ValueError, KeyError)]),
    [Raise e] is an exception the clause does not list. *)
Definition parse_team_json (r : Response) (team_size : nat)
  : result (option (list Z)) :=
  match json_obj r with
  | None => Ok None
  | Some None => Ok None
  | Some (Some data) =>
    match (items <- py_iter (dict_get data (u "team") (PList [])) ;;
           ints_minus_one items) with
    | Raise ValueError => Ok None
    | Raise KeyError => Ok None
    | Raise e => Raise e
    | Ok team =>
      let team := filter valid_id team in
      let team := list_set team in
      if length team =? team_size then Ok (Some team) else Ok None
    end
  end.

(** [numbers = re.findall(r'玩家(\d+)', response)], or all numbers when there
    is none of these. *)
Definition numbers (r : Response) : list Z :=
  match tagged_numbers r with
  | [] => plain_numbers r
  | ns => ns
  end.

(** [_parse_team] of the agent whose player id is [self_id]. *)
Definition _parse_team (r : Response) (self_id : Z) (team_size : nat)
           (draws : list nat) : result (list Z) :=
  j <- parse_team_json r team_size ;;
  match j with
  | Some team => Ok team
  | None =>
    let team :=
      list_set (map (fun n => (n - 1)%Z)
                    (filter (fun n => (1 <=? n) && (n <=? Z.of_nat PLAYER_COUNT))%Z
                            (numbers r))) in
    if team_size <=? length team then Ok (firstn team_size team)
    else
      let candidates := range PLAYER_COUNT in
      if mem self_id candidates then
        pad_team (team_size - 1) [self_id] (remove_first self_id candidates) draws
      else Raise ValueError
  end.

(** The [try] block of [_parse_target]; its clause is
    [except (json.JSONDecodeError, ValueError)]. *)
Definition parse_target_json (r : Response) (self_id : Z) : result (option Z) :=
  match json_obj r with
  | None => Ok None
  | Some None => Ok None
  | Some (Some data) =>
    match py_int (dict_get data (u "target") (PInt 0)) with
    | Raise ValueError => Ok None
    | Raise e => Raise e
    | Ok target =>
      let target_id := (target - 1)%Z in
      if valid_id target_id && negb (target_id =? self_id)%Z
      then Ok (Some target_id) else Ok None
    end
  end.

(** [_parse_target] of the agent [self]. *)
Definition _parse_target (r : Response) (self : Player) (draws : list nat)
  : result Z :=
  j <- parse_target_json r (player_id self) ;;
  match j with
  | Some t => Ok t
  | None =>
    match find (fun t => valid_id t && negb (t =? player_id self)%Z)
               (map (fun n => (n - 1)%Z) (numbers r)) with
    | Some t => Ok t
    | None =>
      let exclude := player_id self :: known_allies self in
      let candidates := filter (fun i => negb (mem i exclude)) (range PLAYER_COUNT) in
      match choice (hd 0 draws) candidates with
      | Some t => Ok t
      | None => Raise IndexError
      end
    end
  end.

(** [mission_action]: a good player's vote is fixed; an evil player's vote is
    [action], what [_parse_mission] makes of the oracle's reply. *)
Definition mission_action (p : Player) (action : bool) : bool :=
  if is_good p then true else action.

(** *** [engine/]: the phase functions *)

(** What the outside world supplies to one phase: the oracle's replies, as
    the agents' parsers see them, and the random draws. *)
Record Input := {
  in_team : Response;          (* the leader's reply to [propose_team] *)
  in_agent_draws : list nat;   (* draws of [random.choice] inside the agent *)
  in_engine_draws : list nat;  (* draws of [random.choice] inside the phase *)
  in_speech : Z -> pystr;      (* [speak] of each player *)
  in_vote : Z -> bool;         (* [vote_team] of each player *)
  in_action : Z -> bool;       (* [_parse_mission] of each evil player's reply *)
  in_advice : pystr;           (* Morgana's advice to the assassin *)
  in_target : Response;        (* the assassin's reply to [assassinate] *)
}.

(** [agents[pid].player]: [_create_agents] keys the agents by player id (a
    later player would replace an earlier one with the same id). *)
Definition agent_of (s : GameState) (pid : Z) : result Player :=
  match find (fun p => (player_id p =? pid)%Z) (rev (players s)) with
  | Some p => Ok p
  | None => Raise KeyError
  end.

Definition player_at (s : GameState) (pid : Z) : result Player :=
  match get_player s pid with
  | Some p => Ok p
  | None => Raise IndexError
  end.

Definition set_proposed_team (s : GameState) (team : list Z) : GameState :=
  {| players := players s; current_round := current_round s;
     current_leader_idx := current_leader_idx s;
     consecutive_rejects := consecutive_rejects s;
     mission_results := mission_results s; mission_records := mission_records s;
     proposed_team := team; game_over := game_over s; winner := winner s;
     end_reason := end_reason s |}.

(** [execute_team_phase]. *)
Definition execute_team_phase (i : Input) (s : GameState)
  : result (GameState * list Z) :=
  leader <- player_at s (current_leader_idx s) ;;
  leader_agent <- agent_of s (player_id leader) ;;
  match nth_error MISSION_TEAM_SIZES (current_round s) with
  | None => Raise IndexError
  | Some team_size =>
    team <- _parse_team (in_team i) (player_id leader_agent) team_size
                        (in_agent_draws i) ;;
    let team := filter (fun t => (0 <=? t) && (t <? 6))%Z team in
    let team := fromkeys team [] in
    team <- (if negb (length team =? team_size) then
               let candidates := filter (fun c => negb (mem c team)) (range 6) in
               pad_team (team_size - length team) team candidates
                        (in_engine_draws i)
             else Ok team) ;;
    Ok (set_proposed_team s team, team)
  end.

Definition set_speech (pid : Z) (speech : pystr) (r : MissionRecord)
  : MissionRecord :=
  {| round_num := round_num r; team_leader_id := team_leader_id r;
     team_members := team_members r; team_votes := team_votes r;
     mission_votes := mission_votes r; success := success r;
     speeches := dict_set (speeches r) pid speech |}.

Definition set_team_vote (pid : Z) (voted : bool) (r : MissionRecord)
  : MissionRecord :=
  {| round_num := round_num r; team_leader_id := team_leader_id r;
     team_members := team_members r;
     team_votes := dict_set (team_votes r) pid voted;
     mission_votes := mission_votes r; success := success r;
     speeches := speeches r |}.

Definition set_mission_vote (pid : Z) (ok : bool) (r : MissionRecord)
  : MissionRecord :=
  {| round_num := round_num r; team_leader_id := team_leader_id r;
     team_members := team_members r; team_votes := team_votes r;
     mission_votes := dict_set (mission_votes r) pid ok; success := success r;
     speeches := speeches r |}.

Definition set_success (ok : bool) (r : MissionRecord) : MissionRecord :=
  {| round_num := round_num r; team_leader_id := team_leader_id r;
     team_members := team_members r; team_votes := team_votes r;
     mission_votes := mission_votes r; success := Some ok;
     speeches := speeches r |}.

(** The speaking order of [execute_discussion]: from the player after the
    leader round the table, the leader last. *)
Definition speaking_order (s : GameState) : list Z :=
  let n := length (players s) in
  map (fun k => ((current_leader_idx s + Z.of_nat k) mod Z.of_nat n)%Z)
      (seq 1 (n - 1))
  ++ [current_leader_idx s].

(** [execute_discussion]: every speech is written into [record]. *)
Definition execute_discussion (i : Input) (s : GameState) (h : Heap)
           (record : addr) : result Heap :=
  fold_left
    (fun acc pid =>
       h <- acc ;;
       _ <- player_at s pid ;;
       _ <- agent_of s pid ;;
       Ok (heap_update h record (set_speech pid (in_speech i pid))))
    (speaking_order s) (Ok h).

(** The running tallies of [execute_vote]. *)
Record VoteTally := {
  v_heap : Heap;
  approve_count : nat;
  reject_count : nat;
}.

Definition vote_one (i : Input) (s : GameState) (record : addr)
           (acc : result VoteTally) (pid : Z) : result VoteTally :=
  t <- acc ;;
  _ <- player_at s pid ;;
  _ <- agent_of s pid ;;
  let voted := in_vote i pid in
  Ok {| v_heap := heap_update (v_heap t) record (set_team_vote pid voted);
        approve_count := if voted then approve_count t + 1 else approve_count t;
        reject_count := if voted then reject_count t else reject_count t + 1 |}.

(** [execute_vote]: the store after the votes and whether the team is
    approved. *)
Definition execute_vote (i : Input) (s : GameState) (h : Heap) (record : addr)
  : result (Heap * bool) :=
  t <- fold_left (vote_one i s record) (range (length (players s)))
         (Ok {| v_heap := h; approve_count := 0; reject_count := 0 |}) ;;
  Ok (v_heap t, reject_count t <? approve_count t).

(** The running tallies of [execute_mission]. *)
Record MissionTally := {
  m_heap : Heap;
  success_count : nat;
  fail_count : nat;
}.

Definition mission_one (i : Input) (s : GameState) (record : addr)
           (acc : result MissionTally) (pid : Z) : result MissionTally :=
  t <- acc ;;
  agent <- agent_of s pid ;;
  _ <- player_at s pid ;;
  let action_success := mission_action agent (in_action i pid) in
  Ok {| m_heap := heap_update (m_heap t) record (set_mission_vote pid action_success);
        success_count := if action_success then success_count t + 1
                         else success_count t;
        fail_count := if action_success then fail_count t else fail_count t + 1 |}.

Definition append_result (s : GameState) (ok : bool) : GameState :=
  {| players := players s; current_round := current_round s;
     current_leader_idx := current_leader_idx s;
     consecutive_rejects := consecutive_rejects s;
     mission_results := mission_results s ++ [ok];
     mission_records := mission_records s;
     proposed_team := proposed_team s; game_over := game_over s;
     winner := winner s; end_reason := end_reason s |}.

(** [execute_mission]. *)
Definition execute_mission (i : Input) (s : GameState) (h : Heap) (record : addr)
  : result (Heap * GameState * bool) :=
  match nth_error MISSION_FAIL_REQUIRED (current_round s) with
  | None => Raise IndexError
  | Some fail_required =>
    t <- fold_left (mission_one i s record) (proposed_team s)
           (Ok {| m_heap := h; success_count := 0; fail_count := 0 |}) ;;
    let mission_success := fail_count t <? fail_required in
    Ok (heap_update (m_heap t) record (set_success mission_success),
        append_result s mission_success, mission_success)
  end.

(** [AsyncGameRunner._run_mission]: the runner decides a good player's vote
    itself and asks the agent only for an evil player. *)
Definition async_mission_one (i : Input) (s : GameState) (record : addr)
           (acc : result MissionTally) (pid : Z) : result MissionTally :=
  t <- acc ;;
  agent <- agent_of s pid ;;
  player <- player_at s pid ;;
  if is_good player then
    Ok {| m_heap := heap_update (m_heap t) record (set_mission_vote pid true);
          success_count := success_count t + 1; fail_count := fail_count t |}
  else
    let action_success := mission_action agent (in_action i pid) in
    Ok {| m_heap := heap_update (m_heap t) record
                      (set_mission_vote pid action_success);
          success_count := if action_success then success_count t + 1
                           else success_count t;
          fail_count := if action_success then fail_count t
                        else fail_count t + 1 |}.

Definition _run_mission (i : Input) (s : GameState) (h : Heap) (record : addr)
  : result (Heap * GameState * bool) :=
  match nth_error MISSION_FAIL_REQUIRED (current_round s) with
  | None => Raise IndexError
  | Some fail_required =>
    t <- fold_left (async_mission_one i s record) (proposed_team s)
           (Ok {| m_heap := h; success_count := 0; fail_count := 0 |}) ;;
    let mission_success := fail_count t <? fail_required in
    Ok (heap_update (m_heap t) record (set_success mission_success),
        append_result s mission_success, mission_success)
  end.

(** The dictionary returned by [execute_assassin_phase]. *)
Record AssassinData := {
  merlin_killed : bool;
  assassin_id : Z;
  target_id : Z;
  morgana_advice : option pystr;
}.

(** The last player for which [f] holds (a loop that overwrites). *)
Definition find_last (f : Player -> bool) (ps : list Player) : option Player :=
  fold_left (fun acc p => if f p then Some p else acc) ps None.

(** [execute_assassin_phase]. *)
Definition execute_assassin_phase (i : Input) (s : GameState)
  : result AssassinData :=
  match find_last (fun p => is_assassin (role p)) (players s),
        find_role_id (players s) merlin with
  | Some assassin_player, Some merlin_id =>
    assassin_agent <- agent_of s (player_id assassin_player) ;;
    let morgana_player :=
      find (fun p => role_eqb (role_id (role p)) morgana) (players s) in
    advice <- match morgana_player with
              | Some m => _ <- agent_of s (player_id m) ;; Ok (Some (in_advice i))
              | None => Ok None
              end ;;
    target <- _parse_target (in_target i) assassin_agent (in_agent_draws i) ;;
    target <-
      (if (target =? player_id assassin_player)%Z
          || match morgana_player with
             | Some m => (target =? player_id m)%Z
             | None => false
             end
       then
         let candidates := map player_id (filter is_good (players s)) in
         match choice (hd 0 (in_engine_draws i)) candidates with
         | Some t => Ok t
         | None => Raise IndexError
         end
       else Ok target) ;;
    _ <- player_at s target ;;
    Ok {| merlin_killed := (target =? merlin_id)%Z;
          assassin_id := player_id assassin_player;
          target_id := target;
          morgana_advice := advice |}
  | _, _ =>
    Ok {| merlin_killed := false; assassin_id := (-1)%Z; target_id := (-1)%Z;
          morgana_advice := None |}
  end.

(** *** [GameEngine.run] as a transition system *)

(** Where control stands inside [run]. *)
Inductive Pc :=
| RoundStart (r : nat)   (* head of [for round_num in range(5)], next value [r] *)
| TeamProposal           (* head of the body of [while not team_approved] *)
| Discussion             (* [record] was created *)
| Vote
| Tally (approved : bool) (* [execute_vote] returned [approved] *)
| LeaderRotation         (* rejected, below the limit *)
| Mission                (* the loop was left with an approved team *)
| WinCheck
| Assassination          (* [good_wins_count >= 3] *)
| NextRound              (* no winner yet: rotate the leader *)
| Terminal               (* [run] returned *)
| Crashed (e : exn).     (* an exception left [run] *)

Record Config := {
  heap : Heap;
  state : GameState;
  record : addr;                          (* the local variable [record] *)
  assassin_phase_data : option AssassinData;
  pc : Pc;
}.

Definition goto (c : Config) (p : Pc) : Config :=
  {| heap := heap c; state := state c; record := record c;
     assassin_phase_data := assassin_phase_data c; pc := p |}.

Definition with_state (c : Config) (s : GameState) (p : Pc) : Config :=
  {| heap := heap c; state := s; record := record c;
     assassin_phase_data := assassin_phase_data c; pc := p |}.

Definition with_heap (c : Config) (h : Heap) (p : Pc) : Config :=
  {| heap := h; state := state c; record := record c;
     assassin_phase_data := assassin_phase_data c; pc := p |}.

Definition begin_round (s : GameState) (r : nat) : GameState :=
  {| players := players s; current_round := r;
     current_leader_idx := current_leader_idx s;
     consecutive_rejects := 0;
     mission_results := mission_results s; mission_records := mission_records s;
     proposed_team := proposed_team s; game_over := game_over s;
     winner := winner s; end_reason := end_reason s |}.

Definition append_record (s : GameState) (a : addr) : GameState :=
  {| players := players s; current_round := current_round s;
     current_leader_idx := current_leader_idx s;
     consecutive_rejects := consecutive_rejects s;
     mission_results := mission_results s;
     mission_records := mission_records s ++ [a];
     proposed_team := proposed_team s; game_over := game_over s;
     winner := winner s; end_reason := end_reason s |}.

Definition count_reject (s : GameState) : GameState :=
  {| players := players s; current_round := current_round s;
     current_leader_idx := current_leader_idx s;
     consecutive_rejects := consecutive_rejects s + 1;
     mission_results := mission_results s; mission_records := mission_records s;
     proposed_team := proposed_team s; game_over := game_over s;
     winner := winner s; end_reason := end_reason s |}.

Definition end_game (s : GameState) (w reason : pystr) : GameState :=
  {| players := players s; current_round := current_round s;
     current_leader_idx := current_leader_idx s;
     consecutive_rejects := consecutive_rejects s;
     mission_results := mission_results s; mission_records := mission_records s;
     proposed_team := proposed_team s; game_over := true;
     winner := Some w; end_reason := reason |}.

Definition REASON_REJECTS : pystr := u "连续5次组队被否决，邪恶阵营获胜！".
Definition REASON_MERLIN : pystr := u "梅林被刺杀！邪恶阵营逆转获胜！".
Definition REASON_GOOD : pystr := u "正义阵营完成三次任务且梅林存活！正义阵营获胜！".
Definition REASON_FAILS : pystr := u "三次任务失败！邪恶阵营获胜！".

(** One phase of [run], fed by the input [i]. *)
Definition step (i : Input) (c : Config) : Config :=
  let s := state c in
  match pc c with
  | RoundStart r =>
    if r <? 5 then with_state c (begin_round s r) TeamProposal
    else goto c Terminal
  | TeamProposal =>
    match execute_team_phase i s with
    | Raise e => goto c (Crashed e)
    | Ok (s1, team) =>
      {| heap := heap c
                 ++ [new_record (Z.of_nat (current_round s1) + 1)
                                (current_leader_idx s1) team];
         state := s1; record := length (heap c);
         assassin_phase_data := assassin_phase_data c; pc := Discussion |}
    end
  | Discussion =>
    match execute_discussion i s (heap c) (record c) with
    | Raise e => goto c (Crashed e)
    | Ok h => with_heap c h Vote
    end
  | Vote =>
    match execute_vote i s (heap c) (record c) with
    | Raise e => goto c (Crashed e)
    | Ok (h, approved) => with_heap c h (Tally approved)
    end
  | Tally approved =>
    let s1 := append_record s (record c) in
    if approved then with_state c s1 Mission
    else
      let s2 := count_reject s1 in
      if MAX_TEAM_VOTES <=? consecutive_rejects s2
      then with_state c (end_game s2 (u "evil") REASON_REJECTS) Terminal
      else with_state c s2 LeaderRotation
  | LeaderRotation =>
    match next_leader s with
    | Raise e => goto c (Crashed e)
    | Ok s1 => with_state c s1 TeamProposal
    end
  | Mission =>
    match execute_mission i s (heap c) (record c) with
    | Raise e => goto c (Crashed e)
    | Ok (h, s1, _) =>
      {| heap := h; state := s1; record := record c;
         assassin_phase_data := assassin_phase_data c; pc := WinCheck |}
    end
  | WinCheck =>
    if 3 <=? good_wins_count s then goto c Assassination
    else if 3 <=? evil_wins_count s
    then with_state c (end_game s (u "evil") REASON_FAILS) Terminal
    else goto c NextRound
  | Assassination =>
    match execute_assassin_phase i s with
    | Raise e => goto c (Crashed e)
    | Ok d =>
      {| heap := heap c;
         state := if merlin_killed d
                  then end_game s (u "evil") REASON_MERLIN
                  else end_game s (u "good") REASON_GOOD;
         record := record c; assassin_phase_data := Some d; pc := Terminal |}
    end
  | NextRound =>
    match next_leader s with
    | Raise e => goto c (Crashed e)
    | Ok s1 => with_state c s1 (RoundStart (S (current_round s1)))
    end
  | Terminal => c
  | Crashed _ => c
  end.

(** The configuration when the round loop is entered: [setup], the night
    phase and [_create_agents] are done. *)
Definition start (role_ids : list RoleId) (leader : Z) : Config :=
  {| heap := []; state := execute_night_phase (setup role_ids leader);
     record := 0; assassin_phase_data := None; pc := RoundStart 0 |}.

(** [run] fed with a script of inputs, one per phase. *)
Definition run (script : list Input) (c : Config) : Config :=
  fold_left (fun c i => step i c) script c.

(** The configurations a game can be in. *)
Inductive reachable (role_ids : list RoleId) (leader : Z) : Config -> Prop :=
| reach_start : reachable role_ids leader (start role_ids leader)
| reach_step : forall c i,
    reachable role_ids leader c -> reachable role_ids leader (step i c).

End Engine.

(** A role list as [random.shuffle] leaves it and a leader as
    [random.randint(0, PLAYER_COUNT - 1)] draws it. *)
Definition valid_setup (role_ids : list RoleId) (leader : Z) : Prop :=
  Permutation role_ids ROLES_CONFIG /\ (0 <= leader < Z.of_nat PLAYER_COUNT)%Z.

(** The records listed in [state.mission_records]. *)
Definition records (c : Config) : list MissionRecord :=
  map (deref (heap c)) (mission_records (state c)).

Definition success_set (r : MissionRecord) : bool :=
  match success r with Some _ => true | None => false end.

(** The records of round [r] (numbered from 1). *)
Definition records_of_round (c : Config) (r : Z) : list MissionRecord :=
  filter (fun x => (round_num x =? r)%Z) (records c).

End Game.


(** ** [agents/agent.py]: decoding a vote and a mission card *)

Module Ballot.
Import Game.

(** What [_parse_vote] and [_parse_mission] see of one reply: the text, and
    what [re.search(r'\{.*?\}', reply, re.DOTALL)] and [json.loads] make of
    it ([None]: no match; [Some None]: [JSONDecodeError]; [Some (Some d)]:
    the decoded object [d]). *)
Record Reply := {
  text : pystr;
  decoded : option (option (list (pystr * pyval)));
}.

(** How a parser ends: it returns, or the [AttributeError] of [.lower()] on
    a value that is no string leaves it (the clause is
    [except (json.JSONDecodeError, ValueError)]). *)
Inductive Verdict :=
| Returns (b : bool)
| AttributeError.

Section Lower.

(** Python's [str.lower]. *)
Variable lower : pystr -> pystr.

(** [data.get(key, "").lower() == word]. *)
Definition field_is (data : list (pystr * pyval)) (key word : pystr) : Verdict :=
  match dict_get data key (PStr []) with
  | PStr s => Returns (str_eqb (lower s) word)
  | _ => AttributeError
  end.


Definition _parse_mission (r : Reply) : Verdict :=
  match decoded r with
  | Some (Some data) => field_is data (u "action") (u "success")
  | _ =>
    if contains (u "失败") (text r) || contains (u "fail") (lower (text r))
    then Returns false
    else Returns true
  end.

(** [mission_action], as to what it returns: a good player is not asked. *)
Definition mission_action (good : bool) (r : Reply) : Verdict :=
  if good then Returns true else _parse_mission r.

End Lower.

End Ballot.


(** ** [community/statistics.py] *)

Module Statistics.

(** One entry of [player_stats]. *)
Record PlayerStats := {
  games : nat;
  wins : nat;
  as_good : nat;
  as_evil : nat;
  wins_as_good : nat;
  wins_as_evil : nat;
}.

Definition no_games : PlayerStats :=
  {| games := 0; wins := 0; as_good := 0; as_evil := 0;
     wins_as_good := 0; wins_as_evil := 0 |}.

(** What [update] reads of [game_result], as [_extract_game_result] builds
    it: [assassin_phase] is [None] or the dictionary of the assassin phase,
    which always holds [merlin_killed]. *)
Record PlayerResult := {
  of_player_id : Z;
  of_team : pystr;
}.

Record GameResult := {
  game_id : pystr;
  game_winner : option pystr;
  game_end_reason : pystr;
  game_players : list PlayerResult;
  assassin_phase : option bool;
}.

(** An entry of [recent_games]. *)
Record RecentGame := {
  recent_id : pystr;
  recent_winner : option pystr;
  recent_end_reason : pystr;
}.

(** [player_stats] is a [dict] keyed by strings, in insertion order. *)
Fixpoint stats_get (d : list (pystr * PlayerStats)) (k : pystr)
  : option PlayerStats :=
  match d with
  | [] => None
  | (k', v) :: t => if str_eqb k k' then Some v else stats_get t k
  end.

Fixpoint stats_set (d : list (pystr * PlayerStats)) (k : pystr) (v : PlayerStats)
  : list (pystr * PlayerStats) :=
  match d with
  | [] => [(k, v)]
  | (k', v') :: t =>
    if str_eqb k k' then (k, v) :: t else (k', v') :: stats_set t k v
  end.

Record CommunityStatistics := {
  total_games : nat;
  good_wins : nat;
  evil_wins : nat;
  assassinations_attempted : nat;
  assassinations_successful : nat;
  player_stats : list (pystr * PlayerStats);
  recent_games : list RecentGame;
}.

(** The dataclass defaults. *)
Definition empty : CommunityStatistics :=
  {| total_games := 0; good_wins := 0; evil_wins := 0;
     assassinations_attempted := 0; assassinations_successful := 0;
     player_stats := []; recent_games := [] |}.

(** [game_result["winner"] == "good"]. *)
Definition good_won (g : GameResult) : bool :=
  match game_winner g with
  | Some w => str_eqb w (u "good")
  | None => false
  end.

(** [f"player_{player['player_id'] + 1}"]. *)
Definition stats_key (p : PlayerResult) : pystr :=
  u "player_" ++ str_of_Z (of_player_id p + 1).

(** The changes of one player's entry. *)
Definition played (good won : bool) (st : PlayerStats) : PlayerStats :=
  {| games := games st + 1;
     wins := if won then wins st + 1 else wins st;
     as_good := if good then as_good st + 1 else as_good st;
     as_evil := if good then as_evil st else as_evil st + 1;
     wins_as_good := if good && won then wins_as_good st + 1
                     else wins_as_good st;
     wins_as_evil := if negb good && won then wins_as_evil st + 1
                     else wins_as_evil st |}.

(** The body of [for player in game_result["players"]]. *)
Definition update_player (g : GameResult) (d : list (pystr * PlayerStats))
           (player : PlayerResult) : list (pystr * PlayerStats) :=
  let pid := stats_key player in
  let d := match stats_get d pid with
           | Some _ => d
           | None => stats_set d pid no_games
           end in
  let stats := match stats_get d pid with
               | Some st => st
               | None => no_games
               end in
  let is_good := str_eqb (of_team player) (u "good") in
  let won := Bool.eqb (good_won g) is_good in
  stats_set d pid (played is_good won stats).

(** [update]. *)
Definition update (s : CommunityStatistics) (g : GameResult)
  : CommunityStatistics :=
  {| total_games := total_games s + 1;
     good_wins := if good_won g then good_wins s + 1 else good_wins s;
     evil_wins := if good_won g then evil_wins s else evil_wins s + 1;
     assassinations_attempted :=
       match assassin_phase g with
       | Some _ => assassinations_attempted s + 1
       | None => assassinations_attempted s
       end;
     assassinations_successful :=
       match assassin_phase g with
       | Some true => assassinations_successful s + 1
       | _ => assassinations_successful s
       end;
     player_stats := fold_left (update_player g) (game_players g) (player_stats s);
     recent_games :=
       slice_from_neg 20
         (recent_games s
          ++ [{| recent_id := game_id g; recent_winner := game_winner g;
                 recent_end_reason := game_end_reason g |}]) |}.

(** A session: [update] after each game. *)
Definition updates (gs : list GameResult) (s : CommunityStatistics)
  : CommunityStatistics :=
  fold_left update gs s.

End Statistics.


(** ** Concrete inputs used to instantiate the properties *)

Module Scenario.

(** A reply of the player, as stored in its memory. *)
Definition said (s : string) : Memory.Message :=
  {| Memory.role := u "assistant"; Memory.content := u s |}.

(** A summarizer that answers every request with the same text. *)
Definition summarizer : pystr -> pystr := fun _ => u "summary".

(** A remote service that is down at every attempt. *)
Definition service_down : nat -> LLMClient.ApiOutcome :=
  fun _ => LLMClient.ApiRaises (u "Connection error.").

(** A store holding four replies. *)
Definition four_replies : Memory.MemoryManager :=
  {| Memory.player_name := u "p"; Memory.summary := u "old";
     Memory.recent := [said "a"; said "b"; said "c"; said "d"];
     Memory.compress_count := 1 |}.

(** A store holding three replies. *)
Definition three_replies : Memory.MemoryManager :=
  {| Memory.player_name := u "p"; Memory.summary := [];
     Memory.recent := [said "a"; said "b"; said "c"];
     Memory.compress_count := 0 |}.

(** A paused runner. *)
Definition paused : Runner.Control :=
  {| Runner.state := Runner.STATE_PAUSED; Runner.step_mode := false;
     Runner._stop_requested := false; Runner._pause_event := false |}.

(** A running runner. *)
Definition running : Runner.Control :=
  {| Runner.state := Runner.STATE_RUNNING; Runner.step_mode := false;
     Runner._stop_requested := false; Runner._pause_event := true |}.

(** [int()] on a string of ASCII digits, used where a string parser is
    needed to run the engine. *)
Definition digits_value (s : pystr) : option Z :=
  match s with
  | [] => None
  | _ =>
    fold_left
      (fun acc c =>
         match acc with
         | Some v =>
           if ((48 <=? c) && (c <=? 57))%N
           then Some (10 * v + Z.of_N (c - 48))%Z else None
         | None => None
         end) s (Some 0%Z)
  end.

(** A reply with no JSON object and no number in it. *)
Definition no_reply : Game.Response :=
  {| Game.json_obj := None; Game.tagged_numbers := [];
     Game.plain_numbers := [] |}.

(** The leader's reply [{"team": 5}]: a JSON object whose [team] is the
    number 5; the only number in the text is 5. *)
Definition team_is_a_number : Game.Response :=
  {| Game.json_obj := Some (Some [(u "team", Game.PInt 5)]);
     Game.tagged_numbers := []; Game.plain_numbers := [5%Z] |}.

(** The inputs of a phase: everybody votes [vote], evil players play
    [action] on missions, the leader's reply is [reply]. *)
Definition inputs (reply : Game.Response) (vote action : bool) : Game.Input :=
  {| Game.in_team := reply; Game.in_agent_draws := [3; 0; 0];
     Game.in_engine_draws := [0]; Game.in_speech := fun _ => u "ok";
     Game.in_vote := fun _ => vote; Game.in_action := fun _ => action;
     Game.in_advice := u "ok"; Game.in_target := no_reply |}.

Definition rejecting : Game.Input := inputs no_reply false true.
Definition approving : Game.Input := inputs no_reply true true.
Definition sabotaging : Game.Input := inputs no_reply true false.

(** A game with the roles in configuration order (Morgana is player 4, the
    assassin player 5) and player [leader] leading first. *)
Definition game (leader : Z) : Game.Config := Game.start Game.ROLES_CONFIG leader.

Definition play (script : list Game.Input) (c : Game.Config) : Game.Config :=
  Game.run digits_value script c.

(** The four phases of one proposal (team, discussion, vote, tally), and a
    rejected proposal with the leader rotation that follows it. *)
Definition proposal (x : Game.Input) : list Game.Input := [x; x; x; x].




(** A whole round that ends with a mission: round start, proposal, mission,
    win check, leader rotation. *)
Definition full_round (x : Game.Input) : list Game.Input :=
  x :: proposal x ++ [x; x; x].

(** After the third mission of a game in which every mission succeeds. *)
Definition third_success : Game.Config :=
  play (full_round approving ++ full_round approving
          ++ approving :: proposal approving ++ [approving])
       (game 4).


(** The same game at the assassin phase. *)
Definition assassin_turn : Game.Config := play [approving] third_success.

(** The assassin's reply [{"target": 1}], which names player 1, Merlin in
    this game. *)
Definition names_player_one : Game.Response :=
  {| Game.json_obj := Some (Some [(u "target", Game.PInt 1)]);
     Game.tagged_numbers := []; Game.plain_numbers := [1%Z] |}.

(** The assassin's reply [{"target": null}]. *)
Definition target_is_null : Game.Response :=
  {| Game.json_obj := Some (Some [(u "target", Game.PNone)]);
     Game.tagged_numbers := []; Game.plain_numbers := [] |}.

(** The inputs of the assassin phase when the assassin's reply is [reply]. *)
Definition answering (reply : Game.Response) : Game.Input :=
  {| Game.in_team := no_reply; Game.in_agent_draws := [3; 0; 0];
     Game.in_engine_draws := [0]; Game.in_speech := fun _ => u "ok";
     Game.in_vote := fun _ => true; Game.in_action := fun _ => true;
     Game.in_advice := u "ok"; Game.in_target := reply |}.

Definition stabbing : Game.Input := answering names_player_one.

(** Two records of the same vote, cast by different players. *)
Definition record_with (tv mv : dict bool) : Game.MissionRecord :=
  {| Game.round_num := 1; Game.team_leader_id := 0;
     Game.team_members := [0%Z; 4%Z]; Game.team_votes := tv;
     Game.mission_votes := mv; Game.success := Some false;
     Game.speeches := [(1%Z, u "ok")] |}.

Definition heap_a : Game.Heap :=
  [record_with [(0, true); (1, true); (2, false)]%Z [(0, true); (4, false)]%Z].

Definition heap_b : Game.Heap :=
  [record_with [(0, false); (1, true); (2, true)]%Z [(0, false); (4, true)]%Z].

Definition one_failed_mission : Game.GameState :=
  {| Game.players := []; Game.current_round := 0;
     Game.current_leader_idx := 0; Game.consecutive_rejects := 0;
     Game.mission_results := [false]; Game.mission_records := [0];
     Game.proposed_team := [0%Z; 4%Z]; Game.game_over := false;
     Game.winner := None; Game.end_reason := [] |}.

(** A game won by the good side after a failed assassination, and a game
    won by the evil side without one, with two of the players. *)
Definition good_game : Statistics.GameResult :=
  {| Statistics.game_id := u "20250101_120000";
     Statistics.game_winner := Some (u "good");
     Statistics.game_end_reason := Game.REASON_GOOD;
     Statistics.game_players :=
       [{| Statistics.of_player_id := 0; Statistics.of_team := u "good" |};
        {| Statistics.of_player_id := 1; Statistics.of_team := u "evil" |}];
     Statistics.assassin_phase := Some false |}.

Definition evil_game : Statistics.GameResult :=
  {| Statistics.game_id := u "20250101_130000";
     Statistics.game_winner := Some (u "evil");
     Statistics.game_end_reason := Game.REASON_FAILS;
     Statistics.game_players :=
       [{| Statistics.of_player_id := 1; Statistics.of_team := u "good" |};
        {| Statistics.of_player_id := 0; Statistics.of_team := u "evil" |}];
     Statistics.assassin_phase := None |}.






End Scenario.

(** * Properties *)

Unset Implicit Arguments.

(** ** The oracle wrapper never raises and fails with a marked string *)

Module LLMClientSpec.
Import LLMClient.

Lemma failure_string_marked (e : option pystr) :
  startswith (failure_string e) Memory.FAILURE_PREFIX = true.
Proof. vm_compute. reflexivity. Qed.

(** An attempt fails when the [try] block raised. *)
Definition fails (o : ApiOutcome) : Prop := exists e, attempt_once o = inr e.

Lemma retry_loop_attempts api n k last slept :
  k <= attempts (retry_loop api n k last slept) <= k + n.
Proof.
  revert k last slept.
  induction n as [|n IH]; intros k last slept; cbn [retry_loop].
  - cbn [attempts]. lia.
  - destruct (attempt_once (api k)).
    + cbn [attempts]. lia.
    + match goal with
      | |- context [retry_loop api n (S k) ?l ?s] => specialize (IH (S k) l s)
      end.
      lia.
Qed.

(** The run of [_call_with_retry] when every attempt fails. *)
Lemma all_fail_run api :
  (forall k, k < MAX_RETRIES -> fails (api k)) ->
  exists e, attempt_once (api 2) = inr e /\
            _call_with_retry api =
            {| returned := failure_string (Some e); attempts := 3; sleeps := [2; 4] |}.
Proof.
  intros H.
  destruct (H 0) as [e0 H0]; [unfold MAX_RETRIES; lia|].
  destruct (H 1) as [e1 H1]; [unfold MAX_RETRIES; lia|].
  destruct (H 2) as [e2 H2]; [unfold MAX_RETRIES; lia|].
  exists e2. split; [exact H2|].
  unfold _call_with_retry, MAX_RETRIES. simpl.
  rewrite H0. simpl. rewrite H1. simpl. rewrite H2. reflexivity.
Qed.

(** The run when some attempt succeeds: the text of the first success. *)
Lemma first_success_run api k text :
  k < MAX_RETRIES ->
  (forall j, j < k -> fails (api j)) ->
  attempt_once (api k) = inl text ->
  returned (_call_with_retry api) = text /\ attempts (_call_with_retry api) = S k.
Proof.
  intros Hk Hfail Hok. unfold _call_with_retry, MAX_RETRIES in *.
  destruct k as [|[|[|k]]]; try lia; simpl.
  - rewrite Hok. auto.
  - destruct (Hfail 0) as [e0 H0]; [lia|]. rewrite H0. simpl. rewrite Hok. auto.
  - destruct (Hfail 0) as [e0 H0]; [lia|]. destruct (Hfail 1) as [e1 H1]; [lia|].
    rewrite H0. simpl. rewrite H1. simpl. rewrite Hok. auto.
Qed.

End LLMClientSpec.

(** ** The memory store *)

Module MemorySpec.
Import Memory.

(** The summary request of the compression pass run on store [m]. *)
Definition request (K : nat) (m : MemoryManager) : pystr :=
  user_message m
    (_format_messages_for_summary (player_name m) (slice_to_neg K (recent m))).

(** The store [m] with [recent] cut down to its last [K] messages. *)
Definition truncated (K : nat) (m : MemoryManager) : MemoryManager :=
  {| player_name := player_name m; summary := summary m;
     recent := slice_from_neg K (recent m); compress_count := compress_count m |}.

(** The store [m] after the message was appended, before any compression. *)
Definition appended (m : MemoryManager) (r c : pystr) : MemoryManager :=
  {| player_name := player_name m; summary := summary m;
     recent := recent m ++ [{| role := r; content := c |}];
     compress_count := compress_count m |}.

Lemma slice_from_neg_length {A} (K : nat) (l : list A) :
  0 < K -> length (slice_from_neg K l) = Nat.min K (length l).
Proof.
  intros HK. unfold slice_from_neg.
  destruct (K =? 0) eqn:E; [apply Nat.eqb_eq in E; lia|].
  rewrite length_skipn. lia.
Qed.

Lemma slice_from_neg_exact {A} (K : nat) (l : list A) :
  0 < K <= length l ->
  slice_from_neg K l = skipn (length l - K) l /\ length (slice_from_neg K l) = K.
Proof.
  intros HK. split.
  - unfold slice_from_neg. destruct (K =? 0) eqn:E; [apply Nat.eqb_eq in E; lia|].
    reflexivity.
  - rewrite slice_from_neg_length by lia. lia.
Qed.

(** Every branch of [_compress] leaves the last [K] messages in [recent]. *)
Lemma compress_recent K llm m :
  recent (_compress K llm m) = slice_from_neg K (recent m).
Proof.
  unfold _compress.
  destruct (negb _); [reflexivity|].
  destruct (startswith _ _); reflexivity.
Qed.

Lemma compress_skip K llm m :
  substantive (player_name m) (slice_to_neg K (recent m)) = false ->
  _compress K llm m = truncated K m.
Proof.
  unfold substantive, _compress. intros H. rewrite H. reflexivity.
Qed.

Lemma compress_degrade K llm m :
  substantive (player_name m) (slice_to_neg K (recent m)) = true ->
  startswith (llm (request K m)) FAILURE_PREFIX = true ->
  _compress K llm m = truncated K m.
Proof.
  unfold substantive, _compress, request. intros H1 H2. rewrite H1. simpl.
  rewrite H2. reflexivity.
Qed.

Lemma compress_success K llm m :
  substantive (player_name m) (slice_to_neg K (recent m)) = true ->
  startswith (llm (request K m)) FAILURE_PREFIX = false ->
  _compress K llm m =
  {| player_name := player_name m; summary := llm (request K m);
     recent := slice_from_neg K (recent m);
     compress_count := compress_count m + 1 |}.
Proof.
  unfold substantive, _compress, request. intros H1 H2. rewrite H1. simpl.
  rewrite H2. reflexivity.
Qed.

Lemma add_below T K llm m r c :
  length (recent m) + 1 < T -> add T K llm m r c = appended m r c.
Proof.
  intros H. unfold add. simpl. rewrite length_app. simpl.
  destruct (T <=? _) eqn:E; [apply Nat.leb_le in E; lia|]. reflexivity.
Qed.

Lemma add_reaching T K llm m r c :
  T <= length (recent m) + 1 ->
  add T K llm m r c = _compress K llm (appended m r c).
Proof.
  intros H. unfold add. simpl. rewrite length_app. simpl.
  destruct (T <=? _) eqn:E; [reflexivity|]. apply Nat.leb_gt in E. lia.
Qed.

Lemma add_bounded T K llm m r c :
  0 < K < T -> length (recent m) < T -> length (recent (add T K llm m r c)) < T.
Proof.
  intros HK Hm.
  destruct (Nat.lt_ge_cases (length (recent m) + 1) T) as [Hlt|Hge].
  - rewrite add_below by assumption. simpl. rewrite length_app. simpl. lia.
  - rewrite add_reaching by assumption. rewrite compress_recent.
    rewrite slice_from_neg_length by lia. lia.
Qed.

Lemma add_all_bounded T K ops m :
  0 < K < T -> length (recent m) < T -> length (recent (add_all T K ops m)) < T.
Proof.
  intros HK. revert m. unfold add_all.
  induction ops as [|op ops IH]; intros m Hm; simpl.
  - exact Hm.
  - apply IH. apply add_bounded; assumption.
Qed.

End MemorySpec.

(** ** Claims about the memory store and the oracle wrapper *)

Module MemoryClaims.
Import LLMClient Memory LLMClientSpec MemorySpec.

(** Claim C10. With [0 < K < T], every branch of the compression pass leaves
    in [recent] its last [K] messages (at most [K] of them), an [add] keeps
    the length of [recent] strictly below [T], and so the length is below [T]
    after every [add] of any sequence of them on a fresh store. *)
Theorem recent_stays_below_threshold (T K : nat) :
  0 < K < T ->
  (forall llm m,
      recent (_compress K llm m) = slice_from_neg K (recent m) /\
      length (recent (_compress K llm m)) <= K) /\
  (forall llm m r c,
      length (recent m) < T -> length (recent (add T K llm m r c)) < T) /\
  (forall name ops, length (recent (add_all T K ops (init name))) < T).
Proof.
  intros HK. split; [|split].
  - intros llm m. split; [apply compress_recent|].
    rewrite compress_recent, slice_from_neg_length by lia. lia.
  - intros llm m r c Hm. apply add_bounded; assumption.
  - intros name ops. apply add_all_bounded; [assumption|]. simpl. lia.
Qed.

Lemma recent_stays_below_threshold_witness :
  0 < 2 < 4 /\
  length (recent (add_all 4 2
                    [(fun _ => u "s", u "assistant", u "a");
                     (fun _ => u "s", u "assistant", u "b");
                     (fun _ => u "s", u "assistant", u "c");
                     (fun _ => u "s", u "assistant", u "d");
                     (fun _ => u "s", u "assistant", u "e")]
                    (init (u "p")))) < 4.
Proof.
  split; [lia|].
  apply (recent_stays_below_threshold 4 2). lia.
Defined.

(** Claim C5. For [0 < K < T]: an [add] that leaves [recent] shorter than [T]
    only appends; an [add] that makes it reach [T] runs the compression pass
    before it returns, and when the fold segment has content and the summary
    call succeeds, the summary becomes the returned text, [recent] becomes
    its last [K] messages and the counter grows by one.  With [T = 4] and
    [K = 2], the 4th [add] leaves 2 recent messages and the (non-empty)
    summary, the 5th leaves 3 messages without compressing, the 6th
    compresses again and leaves the counter at 2. *)
Theorem append_contract :
  (forall T K llm m r c,
      0 < K < T ->
      (length (recent m) + 1 < T -> add T K llm m r c = appended m r c) /\
      (length (recent m) + 1 = T ->
       substantive (player_name m) (slice_to_neg K (recent (appended m r c))) = true ->
       startswith (llm (request K (appended m r c))) FAILURE_PREFIX = false ->
       add T K llm m r c =
       {| player_name := player_name m;
          summary := llm (request K (appended m r c));
          recent := skipn (T - K) (recent (appended m r c));
          compress_count := compress_count m + 1 |} /\
       length (recent (add T K llm m r c)) = K)) /\
  (forall name a1 a2 a3 a4 a5 a6 l1 l2 l3 l4 l5 l6,
      let op l a := (l, role a, content a) in
      let s3 := add_all 4 2 [op l1 a1; op l2 a2; op l3 a3] (init name) in
      let s4 := add 4 2 l4 s3 (role a4) (content a4) in
      let s5 := add 4 2 l5 s4 (role a5) (content a5) in
      let s6 := add 4 2 l6 s5 (role a6) (content a6) in
      let reply4 := l4 (request 2 (appended s3 (role a4) (content a4))) in
      let reply6 := l6 (request 2 (appended s5 (role a6) (content a6))) in
      substantive name [a1; a2] = true ->
      substantive name [a3; a4] = true ->
      startswith reply4 FAILURE_PREFIX = false -> reply4 <> [] ->
      startswith reply6 FAILURE_PREFIX = false ->
      (recent s4 = [a3; a4] /\ summary s4 = reply4 /\ summary s4 <> []
       /\ compress_count s4 = 1) /\
      (recent s5 = [a3; a4; a5] /\ summary s5 = reply4 /\ compress_count s5 = 1) /\
      (recent s6 = [a5; a6] /\ summary s6 = reply6 /\ compress_count s6 = 2)).
Proof.
  split.
  - intros T K llm m r c HK. split.
    + intros H. apply add_below. exact H.
    + intros HT Hsub Hok.
      assert (Hlen : length (recent (appended m r c)) = T).
      { simpl. rewrite length_app. simpl. exact HT. }
      rewrite add_reaching by lia.
      rewrite (compress_success K llm _ Hsub Hok).
      destruct (slice_from_neg_exact K (recent (appended m r c)))
        as [Heq HlenK]; [lia|].
      rewrite Heq, Hlen. split; [reflexivity|].
      cbn [recent]. rewrite <- Hlen at 1. rewrite <- Heq. exact HlenK.
  - intros name [r1 c1] [r2 c2] [r3 c3] [r4 c4] [r5 c5] [r6 c6]
           l1 l2 l3 l4 l5 l6 op s3 s4 s5 s6 reply4 reply6
           Hsub12 Hsub34 Hok4 Hne4 Hok6.
    set (a1 := {| role := r1; content := c1 |}) in *.
    set (a2 := {| role := r2; content := c2 |}) in *.
    set (a3 := {| role := r3; content := c3 |}) in *.
    set (a4 := {| role := r4; content := c4 |}) in *.
    set (a5 := {| role := r5; content := c5 |}) in *.
    set (a6 := {| role := r6; content := c6 |}) in *.
    assert (E3 : s3 = {| player_name := name; summary := [];
                         recent := [a1; a2; a3]; compress_count := 0 |})
      by reflexivity.
    assert (E4 : s4 = {| player_name := name; summary := reply4;
                         recent := [a3; a4]; compress_count := 1 |}).
    { unfold s4. rewrite add_reaching by (rewrite E3; simpl; lia).
      rewrite compress_success.
      - unfold reply4. rewrite E3. reflexivity.
      - rewrite E3. exact Hsub12.
      - exact Hok4. }
    assert (E5 : s5 = {| player_name := name; summary := reply4;
                         recent := [a3; a4; a5]; compress_count := 1 |}).
    { unfold s5. rewrite add_below by (rewrite E4; simpl; lia).
      rewrite E4. reflexivity. }
    assert (E6 : s6 = {| player_name := name; summary := reply6;
                         recent := [a5; a6]; compress_count := 2 |}).
    { unfold s6. rewrite add_reaching by (rewrite E5; simpl; lia).
      rewrite compress_success.
      - unfold reply6. rewrite E5. reflexivity.
      - rewrite E5. exact Hsub34.
      - exact Hok6. }
    rewrite E4, E5, E6. cbn [recent summary compress_count].
    repeat split; auto.
Qed.

Lemma append_contract_witness :
  (substantive (u "p") [Scenario.said "a"; Scenario.said "b"] = true /\
   substantive (u "p") [Scenario.said "c"; Scenario.said "d"] = true /\
   startswith (Scenario.summarizer []) FAILURE_PREFIX = false /\
   Scenario.summarizer [] <> []) /\
  let op a := (Scenario.summarizer, role a, content a) in
  let s4 := add_all 4 2 [op (Scenario.said "a"); op (Scenario.said "b");
                         op (Scenario.said "c"); op (Scenario.said "d")]
                    (init (u "p")) in
  let s5 := add 4 2 Scenario.summarizer s4 (u "assistant") (u "e") in
  let s6 := add 4 2 Scenario.summarizer s5 (u "assistant") (u "f") in
  (length (recent s4) = 2 /\ summary s4 <> [] /\ compress_count s4 = 1) /\
  (length (recent s5) = 3 /\ compress_count s5 = 1) /\
  (length (recent s6) = 2 /\ compress_count s6 = 2).
Proof.
  assert (H1 : substantive (u "p") [Scenario.said "a"; Scenario.said "b"] = true)
    by (vm_compute; reflexivity).
  assert (H2 : substantive (u "p") [Scenario.said "c"; Scenario.said "d"] = true)
    by (vm_compute; reflexivity).
  assert (H3 : startswith (Scenario.summarizer []) FAILURE_PREFIX = false)
    by (vm_compute; reflexivity).
  assert (H4 : Scenario.summarizer [] <> [])
    by (vm_compute; discriminate).
  split; [exact (conj H1 (conj H2 (conj H3 H4)))|].
  pose proof (proj2 append_contract (u "p")
                (Scenario.said "a") (Scenario.said "b") (Scenario.said "c")
                (Scenario.said "d") (Scenario.said "e") (Scenario.said "f")
                Scenario.summarizer Scenario.summarizer Scenario.summarizer
                Scenario.summarizer Scenario.summarizer Scenario.summarizer
                H1 H2 H3 H4 H3) as [[R4 [S4 [N4 C4]]] [[R5 [_ C5]] [R6 [_ C6]]]].
  cbv zeta.
  exact (conj (conj (f_equal (@length _) R4) (conj N4 C4))
              (conj (conj (f_equal (@length _) R5) C5)
                    (conj (f_equal (@length _) R6) C6))).
Defined.

End MemoryClaims.

Module OracleClaims.
Import LLMClient Memory LLMClientSpec MemorySpec.

(** Claim C6. [_call_with_retry] always returns a string, after at most 3
    attempts: the text of the first attempt that succeeds, or, when the 3
    attempts fail, a string that starts with the failure marker, after
    sleeping 2 and then 4 seconds.  A compression pass whose summary call
    returns a string with the marker (in particular the one of a failed call)
    leaves the summary and the counter as they were and leaves in [recent]
    exactly its last [K] messages. *)
Theorem oracle_failure_degrades :
  (forall api, attempts (_call_with_retry api) <= MAX_RETRIES) /\
  (forall api k text,
      k < MAX_RETRIES -> (forall j, j < k -> fails (api j)) ->
      attempt_once (api k) = inl text ->
      chat api = text) /\
  (forall api,
      (forall k, k < MAX_RETRIES -> fails (api k)) ->
      startswith (chat api) FAILURE_PREFIX = true /\
      attempts (_call_with_retry api) = 3 /\
      sleeps (_call_with_retry api) = [2; 4]) /\
  (forall K llm m,
      substantive (player_name m) (slice_to_neg K (recent m)) = true ->
      startswith (llm (request K m)) FAILURE_PREFIX = true ->
      _compress K llm m = truncated K m) /\
  (forall K api m,
      0 < K <= length (recent m) ->
      substantive (player_name m) (slice_to_neg K (recent m)) = true ->
      (forall k, k < MAX_RETRIES -> fails (api k)) ->
      let m' := _compress K (fun _ => chat api) m in
      summary m' = summary m /\ compress_count m' = compress_count m /\
      recent m' = skipn (length (recent m) - K) (recent m) /\
      length (recent m') = K).
Proof.
  split; [|split; [|split; [|split]]].
  - intros api. unfold _call_with_retry.
    pose proof (retry_loop_attempts api MAX_RETRIES 0 None []). lia.
  - intros api k text Hk Hfail Hok. unfold chat.
    apply (first_success_run api k text Hk Hfail Hok).
  - intros api Hfail. destruct (all_fail_run api Hfail) as [e [_ Hrun]].
    unfold chat. rewrite Hrun. cbn [returned attempts sleeps].
    split; [apply failure_string_marked|split; reflexivity].
  - intros K llm m Hsub Hmark. apply compress_degrade; assumption.
  - intros K api m HK Hsub Hfail m'.
    assert (Hmark : startswith (chat api) FAILURE_PREFIX = true).
    { destruct (all_fail_run api Hfail) as [e [_ Hrun]].
      unfold chat. rewrite Hrun. apply failure_string_marked. }
    assert (E : m' = truncated K m).
    { unfold m'. apply compress_degrade; assumption. }
    rewrite E. cbn [truncated summary compress_count recent].
    destruct (slice_from_neg_exact K (recent m) HK) as [Heq Hlen].
    rewrite Hlen, Heq. repeat split; reflexivity.
Qed.

Lemma oracle_failure_degrades_witness :
  (0 < 2 <= length (recent Scenario.four_replies) /\
   substantive (player_name Scenario.four_replies)
               (slice_to_neg 2 (recent Scenario.four_replies)) = true /\
   (forall k, k < MAX_RETRIES -> fails (Scenario.service_down k))) /\
  let m' := _compress 2 (fun _ => chat Scenario.service_down)
                      Scenario.four_replies in
  summary m' = u "old" /\ compress_count m' = 1 /\
  recent m' = [Scenario.said "c"; Scenario.said "d"] /\ length (recent m') = 2.
Proof.
  assert (H1 : 0 < 2 <= length (recent Scenario.four_replies))
    by (simpl; lia).
  assert (H2 : substantive (player_name Scenario.four_replies)
                 (slice_to_neg 2 (recent Scenario.four_replies)) = true)
    by (vm_compute; reflexivity).
  assert (H3 : forall k, k < MAX_RETRIES -> fails (Scenario.service_down k))
    by (intros k _; eexists; reflexivity).
  split; [exact (conj H1 (conj H2 H3))|].
  exact (proj2 (proj2 (proj2 (proj2 oracle_failure_degrades)))
               2 Scenario.service_down Scenario.four_replies H1 H2 H3).
Defined.

End OracleClaims.

(** ** Claims about the control layer *)

Module RunnerClaims.
Import Runner.

(** The control state a checkpoint leaves when it pauses for a step. *)
Definition paused_by_step (c : Control) : Control :=
  {| state := STATE_PAUSED; step_mode := true;
     _stop_requested := _stop_requested c; _pause_event := false |}.

(** Claim C7. [pause] takes a running runner to [paused] and changes nothing
    in any other state; [resume] takes a paused runner to [running] and
    clears the step mode, and changes nothing otherwise; [step] takes a
    paused runner to [running] with the step mode armed, and changes nothing
    otherwise.  After a [step] (no stop being requested) the coroutine
    carries out one unit of progress, and the next checkpoint sets the state
    back to [paused], emits one [runner_paused] event and suspends. *)
Theorem control_commands (c : Control) :
  (state c = STATE_RUNNING ->
   pause c = {| state := STATE_PAUSED; step_mode := step_mode c;
                _stop_requested := _stop_requested c; _pause_event := false |}) /\
  (state c <> STATE_RUNNING -> pause c = c) /\
  (state c = STATE_PAUSED ->
   resume c = {| state := STATE_RUNNING; step_mode := false;
                 _stop_requested := _stop_requested c; _pause_event := true |}) /\
  (state c <> STATE_PAUSED -> resume c = c) /\
  (state c = STATE_PAUSED ->
   step c = {| state := STATE_RUNNING; step_mode := true;
               _stop_requested := _stop_requested c; _pause_event := true |}) /\
  (state c <> STATE_PAUSED -> step c = c) /\
  (state c = STATE_PAUSED -> _stop_requested c = false ->
   checkpoint_enter (step c) = Some (paused_by_step c, [runner_paused]) /\
   forall n,
     after_wait (S n) (step c) =
     {| control := paused_by_step c; units := 1;
        emitted := [runner_paused]; status := Suspended |}).
Proof.
  destruct c as [st sm sr pe]. cbn [state step_mode _stop_requested _pause_event].
  repeat match goal with |- _ /\ _ => split end.
  - intros ->. reflexivity.
  - intros H. destruct st; try reflexivity. congruence.
  - intros ->. reflexivity.
  - intros H. destruct st; try reflexivity. congruence.
  - intros ->. reflexivity.
  - intros H. destruct st; try reflexivity. congruence.
  - intros -> ->. split; [reflexivity|]. intros n. reflexivity.
Qed.

Lemma control_commands_witness :
  (state Scenario.running = STATE_RUNNING /\
   state Scenario.paused = STATE_PAUSED /\
   state Scenario.paused <> STATE_RUNNING /\
   state Scenario.running <> STATE_PAUSED /\
   _stop_requested Scenario.paused = false) /\
  state (pause Scenario.running) = STATE_PAUSED /\
  pause Scenario.paused = Scenario.paused /\
  state (resume Scenario.paused) = STATE_RUNNING /\
  resume Scenario.running = Scenario.running /\
  step_mode (step Scenario.paused) = true /\
  step Scenario.running = Scenario.running /\
  units (after_wait 3 (step Scenario.paused)) = 1 /\
  state (control (after_wait 3 (step Scenario.paused))) = STATE_PAUSED /\
  emitted (after_wait 3 (step Scenario.paused)) = [runner_paused].
Proof.
  assert (R : state Scenario.running = STATE_RUNNING) by reflexivity.
  assert (P : state Scenario.paused = STATE_PAUSED) by reflexivity.
  assert (NR : state Scenario.paused <> STATE_RUNNING) by (simpl; discriminate).
  assert (NP : state Scenario.running <> STATE_PAUSED) by (simpl; discriminate).
  assert (NS : _stop_requested Scenario.paused = false) by reflexivity.
  destruct (control_commands Scenario.running) as (A1 & _ & _ & A4 & _ & A6 & _).
  destruct (control_commands Scenario.paused) as (_ & B2 & B3 & _ & B5 & _ & B7).
  split; [exact (conj R (conj P (conj NR (conj NP NS))))|].
  refine (conj (f_equal state (A1 R)) (conj (B2 NR)
          (conj (f_equal state (B3 P)) (conj (A4 NP)
          (conj (f_equal step_mode (B5 P)) (conj (A6 NP) _)))))).
  destruct (B7 P NS) as [_ W].
  exact (conj (f_equal units (W 2))
              (conj (f_equal (fun p => state (control p)) (W 2))
                    (f_equal emitted (W 2)))).
Defined.

End RunnerClaims.

(** ** The public history *)

Module HistoryClaims.
Import Game.

(** Two records that differ at most in who cast which vote: same round,
    leader, team, transcript and outcome, and the same tallies. *)
Definition same_public (r1 r2 : MissionRecord) : Prop :=
  round_num r1 = round_num r2 /\
  team_leader_id r1 = team_leader_id r2 /\
  team_members r1 = team_members r2 /\
  speeches r1 = speeches r2 /\
  success r1 = success r2 /\
  count_true (values (team_votes r1)) = count_true (values (team_votes r2)) /\
  count_false (values (team_votes r1)) = count_false (values (team_votes r2)) /\
  count_true (values (mission_votes r1)) = count_true (values (mission_votes r2)) /\
  count_false (values (mission_votes r1)) = count_false (values (mission_votes r2)).

Lemma history_lines_public r1 r2 :
  same_public r1 r2 -> history_lines r1 = history_lines r2.
Proof.
  intros (Hr & Hl & Hm & Hs & Hok & Ha & Hj & _ & Hf).
  unfold history_lines. rewrite Hr, Hl, Hm, Hs, Hok, Ha, Hj, Hf. reflexivity.
Qed.

Lemma flat_map_history_public l1 l2 :
  Forall2 same_public l1 l2 ->
  flat_map history_lines l1 = flat_map history_lines l2.
Proof.
  induction 1 as [|r1 r2 l1 l2 H _ IH]; cbn [flat_map].
  - reflexivity.
  - rewrite (history_lines_public _ _ H), IH. reflexivity.
Qed.

Lemma flat_map_deref h (rs : list addr) :
  flat_map (fun a => history_lines (deref h a)) rs
  = flat_map history_lines (map (deref h) rs).
Proof.
  induction rs as [|a rs IH]; cbn [flat_map map]; [reflexivity|].
  rewrite IH. reflexivity.
Qed.

(** Claim C9. Two game states whose records agree on round numbers, leaders,
    teams, transcripts, outcomes and vote tallies, and whose scores agree,
    have the same public history, whoever cast which vote. *)
Theorem public_history_hides_votes (h1 h2 : Heap) (s1 s2 : GameState) :
  Forall2 same_public (map (deref h1) (mission_records s1))
                      (map (deref h2) (mission_records s2)) ->
  good_wins_count s1 = good_wins_count s2 ->
  evil_wins_count s1 = evil_wins_count s2 ->
  get_public_history h1 s1 = get_public_history h2 s2.
Proof.
  intros HF Hg He. unfold get_public_history.
  destruct (mission_records s1) as [|a1 t1] eqn:E1;
    destruct (mission_records s2) as [|a2 t2] eqn:E2;
    cbn [map] in HF; try solve [inversion HF].
  - reflexivity.
  - rewrite !flat_map_deref, Hg, He. cbn [map].
    rewrite (flat_map_history_public _ _ HF). reflexivity.
Qed.

Lemma public_history_hides_votes_witness :
  (Forall2 same_public
     (map (deref Scenario.heap_a) (mission_records Scenario.one_failed_mission))
     (map (deref Scenario.heap_b) (mission_records Scenario.one_failed_mission)) /\
   Scenario.heap_a <> Scenario.heap_b) /\
  get_public_history Scenario.heap_a Scenario.one_failed_mission
  = get_public_history Scenario.heap_b Scenario.one_failed_mission.
Proof.
  assert (H1 : Forall2 same_public
                 (map (deref Scenario.heap_a)
                      (mission_records Scenario.one_failed_mission))
                 (map (deref Scenario.heap_b)
                      (mission_records Scenario.one_failed_mission))).
  { constructor; [|constructor]. unfold same_public. vm_compute.
    repeat split; reflexivity. }
  assert (H2 : Scenario.heap_a <> Scenario.heap_b) by discriminate.
  split; [exact (conj H1 H2)|].
  exact (public_history_hides_votes Scenario.heap_a Scenario.heap_b
           Scenario.one_failed_mission Scenario.one_failed_mission
           H1 eq_refl eq_refl).
Defined.

End HistoryClaims.

(** ** Facts about the store, the dictionaries and the phase functions *)

Module GameSpec.
Import Game.

Lemma count_split (l : list bool) : count_true l + count_false l = length l.
Proof.
  unfold count_true, count_false.
  induction l as [|[] l IH]; simpl; lia.
Qed.

Lemma count_true_app l1 l2 : count_true (l1 ++ l2) = count_true l1 + count_true l2.
Proof. unfold count_true. rewrite filter_app, length_app. reflexivity. Qed.

Lemma count_false_app l1 l2 :
  count_false (l1 ++ l2) = count_false l1 + count_false l2.
Proof. unfold count_false. rewrite filter_app, length_app. reflexivity. Qed.

(** *** The store *)

Lemma length_heap_update h a f : length (heap_update h a f) = length h.
Proof.
  revert a. induction h as [|r h IH]; intros [|a]; simpl; auto.
Qed.

Lemma deref_update_same h a f :
  a < length h -> deref (heap_update h a f) a = f (deref h a).
Proof.
  unfold deref. revert a.
  induction h as [|r h IH]; intros [|a] H; simpl in *; try lia; auto.
  apply IH. lia.
Qed.

Lemma deref_update_other h a b f :
  a <> b -> deref (heap_update h a f) b = deref h b.
Proof.
  unfold deref. revert a b.
  induction h as [|r h IH]; intros [|a] [|b] H; simpl; auto; try congruence.
Qed.

Lemma heap_update_compose h a f g :
  heap_update (heap_update h a f) a g = heap_update h a (fun r => g (f r)).
Proof.
  revert a. induction h as [|r h IH]; intros [|a]; simpl; auto.
  rewrite IH. reflexivity.
Qed.

Lemma heap_update_id h a : heap_update h a (fun r => r) = h.
Proof.
  revert a. induction h as [|r h IH]; intros [|a]; simpl; auto.
  rewrite IH. reflexivity.
Qed.

Lemma heap_update_ext h a f g :
  (forall r, f r = g r) -> heap_update h a f = heap_update h a g.
Proof.
  intros E. revert a. induction h as [|r h IH]; intros [|a]; simpl; auto.
  - rewrite E. reflexivity.
  - rewrite IH. reflexivity.
Qed.

(** A loop of updates of one record is one update by the composed change. *)
Lemma fold_heap_update {X} (g : X -> MissionRecord -> MissionRecord) l h a :
  fold_left (fun h x => heap_update h a (g x)) l h
  = heap_update h a (fun r => fold_left (fun r x => g x r) l r).
Proof.
  revert h. induction l as [|x l IH]; intros h; simpl.
  - symmetry. apply heap_update_id.
  - rewrite IH, heap_update_compose. reflexivity.
Qed.

Lemma deref_app_old h r a : a < length h -> deref (h ++ [r]) a = deref h a.
Proof. intros H. unfold deref. apply app_nth1. exact H. Qed.

Lemma deref_app_new h r : deref (h ++ [r]) (length h) = r.
Proof.
  unfold deref. rewrite app_nth2 by lia. rewrite Nat.sub_diag. reflexivity.
Qed.

(** *** Dictionaries *)

Lemma dict_set_fresh {V} (d : dict V) k v :
  ~ In k (keys d) -> dict_set d k v = d ++ [(k, v)].
Proof.
  unfold keys. induction d as [|[k' v'] d IH]; intros H; simpl in *.
  - reflexivity.
  - destruct (Z.eqb_spec k k') as [->|Hne]; [tauto|].
    rewrite IH; tauto.
Qed.

Lemma fold_dict_set_fresh {V} (f : Z -> V) ks (d : dict V) :
  NoDup ks -> (forall k, In k ks -> ~ In k (keys d)) ->
  fold_left (fun d k => dict_set d k (f k)) ks d = d ++ map (fun k => (k, f k)) ks.
Proof.
  revert d. induction ks as [|k ks IH]; intros d Hnd Hfresh; simpl.
  - rewrite app_nil_r. reflexivity.
  - inversion Hnd as [|? ? Hk Hnd']; subst.
    rewrite dict_set_fresh by (apply Hfresh; left; reflexivity).
    rewrite IH.
    + rewrite <- app_assoc. reflexivity.
    + exact Hnd'.
    + intros k' Hin. unfold keys. rewrite map_app, in_app_iff. simpl.
      intros [H|[H|[]]].
      * apply (Hfresh k'); [right; exact Hin|exact H].
      * subst. tauto.
Qed.

(** *** Players *)

(** Player ids are list positions, as [setup] makes them. *)
Definition positions_ok (ps : list Player) : Prop :=
  forall k p, nth_error ps k = Some p -> player_id p = Z.of_nat k.

Lemma find_unique {A} (f : A -> bool) (l : list A) x :
  In x l -> f x = true -> (forall y, In y l -> f y = true -> y = x) ->
  find f l = Some x.
Proof.
  induction l as [|a l IH]; intros Hin Hx Huniq; simpl in *; [tauto|].
  destruct (f a) eqn:Ea.
  - f_equal. apply Huniq; auto.
  - destruct Hin as [->|Hin]; [congruence|]. apply IH; auto.
Qed.

Lemma player_at_position s pid p :
  (0 <= pid)%Z -> nth_error (players s) (Z.to_nat pid) = Some p ->
  player_at s pid = Ok p.
Proof.
  intros Hpid Hnth. unfold player_at, get_player, index.
  destruct (Z.ltb_spec pid 0); [lia|]. rewrite Hnth. reflexivity.
Qed.

Lemma agent_of_position s pid p :
  positions_ok (players s) ->
  (0 <= pid)%Z -> nth_error (players s) (Z.to_nat pid) = Some p ->
  agent_of s pid = Ok p.
Proof.
  intros Hpos Hpid Hnth. unfold agent_of.
  rewrite (find_unique (fun q => (player_id q =? pid)%Z) (rev (players s)) p).
  - reflexivity.
  - rewrite <- in_rev. eapply nth_error_In; eauto.
  - apply Z.eqb_eq. rewrite (Hpos _ _ Hnth). lia.
  - intros y Hy Hfy. rewrite <- in_rev in Hy.
    apply In_nth_error in Hy. destruct Hy as [k Hk].
    apply Z.eqb_eq in Hfy. rewrite (Hpos _ _ Hk) in Hfy.
    assert (k = Z.to_nat pid) by lia. subst k. congruence.
Qed.

(** A valid id names a player, found at its position by both lookups. *)
Lemma lookup_valid s pid :
  positions_ok (players s) ->
  (0 <= pid < Z.of_nat (length (players s)))%Z ->
  exists p, nth_error (players s) (Z.to_nat pid) = Some p /\
            player_at s pid = Ok p /\ agent_of s pid = Ok p.
Proof.
  intros Hpos Hpid.
  destruct (nth_error (players s) (Z.to_nat pid)) as [p|] eqn:E.
  - exists p. split; [reflexivity|]. split.
    + apply player_at_position; [lia|exact E].
    + apply agent_of_position; [exact Hpos|lia|exact E].
  - apply nth_error_None in E. lia.
Qed.

Lemma fold_raise {A B} (f : result A -> B -> result A) (l : list B) e :
  (forall x, f (Raise e) x = Raise e) -> fold_left f l (Raise e) = Raise e.
Proof.
  intros H. induction l as [|x l IH]; simpl; [reflexivity|].
  rewrite H. exact IH.
Qed.

End GameSpec.

(** ** What the discussion, the vote and the mission do to a record *)

Module PhaseSpec.
Import Game GameSpec.

(** The record after a loop of [record.team_votes[pid] = v pid]. *)
Definition votes_written (v : Z -> bool) (l : list Z) (r : MissionRecord)
  : MissionRecord :=
  fold_left (fun r pid => set_team_vote pid (v pid) r) l r.

Definition speeches_written (v : Z -> pystr) (l : list Z) (r : MissionRecord)
  : MissionRecord :=
  fold_left (fun r pid => set_speech pid (v pid) r) l r.

Definition actions_written (v : Z -> bool) (l : list Z) (r : MissionRecord)
  : MissionRecord :=
  fold_left (fun r pid => set_mission_vote pid (v pid) r) l r.

(** The mission vote of player [pid]: fixed for a good player. *)
Definition mission_vote_of (i : Input) (s : GameState) (pid : Z) : bool :=
  match agent_of s pid with
  | Ok p => mission_action p (in_action i pid)
  | Raise _ => true
  end.

Lemma votes_written_fields v l r :
  round_num (votes_written v l r) = round_num r /\
  team_leader_id (votes_written v l r) = team_leader_id r /\
  team_members (votes_written v l r) = team_members r /\
  mission_votes (votes_written v l r) = mission_votes r /\
  success (votes_written v l r) = success r /\
  speeches (votes_written v l r) = speeches r /\
  team_votes (votes_written v l r)
  = fold_left (fun d pid => dict_set d pid (v pid)) l (team_votes r).
Proof.
  unfold votes_written. revert r.
  induction l as [|x l IH]; intros r; simpl; [repeat split; reflexivity|].
  destruct (IH (set_team_vote x (v x) r)) as (H1 & H2 & H3 & H4 & H5 & H6 & H7).
  rewrite H1, H2, H3, H4, H5, H6, H7. repeat split; reflexivity.
Qed.

Lemma speeches_written_fields v l r :
  round_num (speeches_written v l r) = round_num r /\
  team_leader_id (speeches_written v l r) = team_leader_id r /\
  team_members (speeches_written v l r) = team_members r /\
  mission_votes (speeches_written v l r) = mission_votes r /\
  success (speeches_written v l r) = success r /\
  team_votes (speeches_written v l r) = team_votes r.
Proof.
  unfold speeches_written. revert r.
  induction l as [|x l IH]; intros r; simpl; [repeat split; reflexivity|].
  destruct (IH (set_speech x (v x) r)) as (H1 & H2 & H3 & H4 & H5 & H6).
  rewrite H1, H2, H3, H4, H5, H6. repeat split; reflexivity.
Qed.

Lemma actions_written_fields v l r :
  round_num (actions_written v l r) = round_num r /\
  team_leader_id (actions_written v l r) = team_leader_id r /\
  team_members (actions_written v l r) = team_members r /\
  team_votes (actions_written v l r) = team_votes r /\
  success (actions_written v l r) = success r /\
  speeches (actions_written v l r) = speeches r /\
  mission_votes (actions_written v l r)
  = fold_left (fun d pid => dict_set d pid (v pid)) l (mission_votes r).
Proof.
  unfold actions_written. revert r.
  induction l as [|x l IH]; intros r; simpl; [repeat split; reflexivity|].
  destruct (IH (set_mission_vote x (v x) r)) as (H1 & H2 & H3 & H4 & H5 & H6 & H7).
  rewrite H1, H2, H3, H4, H5, H6, H7. repeat split; reflexivity.
Qed.

(** *** Discussion *)

Lemma discussion_fold i s record l h h' :
  fold_left
    (fun acc pid =>
       h <- acc ;; _ <- player_at s pid ;; _ <- agent_of s pid ;;
       Ok (heap_update h record (set_speech pid (in_speech i pid))))
    l (Ok h) = Ok h' ->
  h' = heap_update h record (speeches_written (in_speech i) l).
Proof.
  revert h. induction l as [|x l IH]; intros h; simpl.
  - intros E. injection E as <-. symmetry. apply heap_update_id.
  - destruct (player_at s x); simpl.
    + destruct (agent_of s x); simpl.
      * intros E. apply IH in E. rewrite E, heap_update_compose. reflexivity.
      * rewrite fold_raise by reflexivity. discriminate.
    + rewrite fold_raise by reflexivity. discriminate.
Qed.

Lemma discussion_effect i s h record h' :
  execute_discussion i s h record = Ok h' ->
  h' = heap_update h record (speeches_written (in_speech i) (speaking_order s)).
Proof. apply discussion_fold. Qed.

(** *** Vote *)

Lemma vote_fold i s record l t t' :
  fold_left (vote_one i s record) l (Ok t) = Ok t' ->
  v_heap t' = heap_update (v_heap t) record (votes_written (in_vote i) l) /\
  approve_count t' = approve_count t + count_true (map (in_vote i) l) /\
  reject_count t' = reject_count t + count_false (map (in_vote i) l).
Proof.
  revert t. induction l as [|x l IH]; intros t; cbn [fold_left map].
  - intros E. injection E as <-. rewrite heap_update_id.
    unfold count_true, count_false. simpl. repeat split; lia.
  - unfold vote_one at 2. cbn [bind].
    destruct (player_at s x); cbn [bind];
      [|rewrite fold_raise by reflexivity; discriminate].
    destruct (agent_of s x); cbn [bind];
      [|rewrite fold_raise by reflexivity; discriminate].
    intros E. apply IH in E. cbn [v_heap approve_count reject_count] in E.
    destruct E as (Eh & Ea & Er).
    rewrite Eh, Ea, Er, heap_update_compose.
    split; [reflexivity|].
    unfold count_true, count_false. cbn [filter].
    destruct (in_vote i x); cbn [negb length]; split; lia.
Qed.

Lemma vote_effect i s h record h' approved :
  execute_vote i s h record = Ok (h', approved) ->
  h' = heap_update h record
         (votes_written (in_vote i) (range (length (players s)))) /\
  approved = (count_false (map (in_vote i) (range (length (players s))))
              <? count_true (map (in_vote i) (range (length (players s))))).
Proof.
  unfold execute_vote. intros E.
  destruct (fold_left _ _ _) as [t|e] eqn:F; simpl in E; [|discriminate].
  injection E as <- <-. apply vote_fold in F. simpl in F.
  destruct F as (Eh & Ea & Er). rewrite Eh, Ea, Er. split; reflexivity.
Qed.



Lemma range_NoDup n : NoDup (range n).
Proof.
  unfold range. apply Finite.Injective_map_NoDup.
  - intros a b. apply Nat2Z.inj.
  - apply seq_NoDup.
Qed.






End PhaseSpec.

(** ** Team proposal: the correction of the leader's reply *)

Module TeamSpec.
Import Game GameSpec PhaseSpec.

(** A legal team of [k] members. *)
Definition legal_team (k : nat) (team : list Z) : Prop :=
  NoDup team /\ Forall (fun t => valid_id t = true) team /\ length team = k.

Lemma valid_id_range t : valid_id t = true <-> In t (range PLAYER_COUNT).
Proof.
  unfold valid_id, range, PLAYER_COUNT. rewrite in_map_iff. split.
  - intros H. apply andb_true_iff in H. destruct H as [H1 H2].
    apply Z.leb_le in H1. apply Z.ltb_lt in H2.
    exists (Z.to_nat t). split; [lia|]. apply in_seq. lia.
  - intros (k & <- & Hk). apply in_seq in Hk.
    apply andb_true_iff. split; [apply Z.leb_le|apply Z.ltb_lt]; lia.
Qed.

Lemma mem_In x l : mem x l = true <-> In x l.
Proof.
  unfold mem. rewrite existsb_exists. split.
  - intros (y & Hy & E). apply Z.eqb_eq in E. subst. exact Hy.
  - intros H. exists x. split; [exact H|apply Z.eqb_refl].
Qed.

Lemma list_set_legal l :
  NoDup (list_set l) /\ Forall (fun t => valid_id t = true) (list_set l).
Proof.
  unfold list_set. split.
  - apply NoDup_filter. apply range_NoDup.
  - apply Forall_forall. intros x Hx. apply filter_In in Hx.
    apply valid_id_range. tauto.
Qed.

Lemma choice_In r l c : choice r l = Some c -> In c l.
Proof.
  unfold choice. destruct l as [|x l]; [discriminate|].
  intros H. eapply nth_error_In. exact H.
Qed.

Lemma choice_some r l : l <> [] -> exists c, choice r l = Some c.
Proof.
  intros Hl. unfold choice. destruct l as [|x l]; [congruence|].
  destruct (nth_error (x :: l) (r mod length (x :: l))) eqn:E; [eauto|].
  apply nth_error_None in E.
  pose proof (Nat.mod_upper_bound r (length (x :: l))). simpl in *. lia.
Qed.

Lemma remove_first_In x y l : In y (remove_first x l) -> In y l.
Proof.
  induction l as [|z l IH]; simpl; [tauto|].
  destruct (x =? z)%Z; simpl; tauto.
Qed.

Lemma remove_first_NoDup x l : NoDup l -> NoDup (remove_first x l).
Proof.
  induction 1 as [|z l Hz Hl IH]; simpl; [constructor|].
  destruct (x =? z)%Z; [exact Hl|].
  constructor; [|exact IH]. intros H. apply Hz. eapply remove_first_In. exact H.
Qed.

Lemma remove_first_not_In x l : NoDup l -> ~ In x (remove_first x l).
Proof.
  induction 1 as [|z l Hz Hl IH]; simpl; [tauto|].
  destruct (Z.eqb_spec x z) as [->|Hne]; [exact Hz|].
  simpl. intros [H|H]; [congruence|tauto].
Qed.

Lemma remove_first_length x l :
  In x l -> length (remove_first x l) = length l - 1.
Proof.
  induction l as [|z l IH]; simpl; [tauto|].
  destruct (Z.eqb_spec x z) as [->|Hne]; [lia|].
  intros [H|H]; [congruence|]. simpl. rewrite IH by exact H.
  destruct l; simpl in *; [tauto|lia].
Qed.

(** The padding loop keeps a team legal and reaches the wanted size. *)
Lemma pad_team_legal k : forall team cands draws t,
  pad_team k team cands draws = Ok t ->
  NoDup team -> NoDup cands -> (forall x, In x team -> ~ In x cands) ->
  Forall (fun t => valid_id t = true) team ->
  Forall (fun t => valid_id t = true) cands ->
  legal_team (length team + k) t.
Proof.
  induction k as [|k IH]; intros team cands draws t; simpl.
  - intros E Hteam _ _ Hv _. injection E as <-.
    rewrite Nat.add_0_r. repeat split; auto.
  - destruct (choice (hd 0 draws) cands) as [c|] eqn:Ec; [|discriminate].
    intros E Hteam Hcands Hdis Hv Hvc.
    pose proof (choice_In _ _ _ Ec) as Hc.
    apply IH in E.
    + rewrite length_app in E. simpl in E.
      replace (length team + S k) with (length team + 1 + k) by lia. exact E.
    + apply NoDup_app; [exact Hteam|repeat constructor; simpl; tauto|].
      intros x Hx [<-|[]]. exact (Hdis c Hx Hc).
    + apply remove_first_NoDup. exact Hcands.
    + intros x Hx Hin. apply in_app_iff in Hx. destruct Hx as [Hx|[<-|[]]].
      * apply (Hdis x Hx). eapply remove_first_In. exact Hin.
      * exact (remove_first_not_In c cands Hcands Hin).
    + apply Forall_app. split; [exact Hv|]. constructor; [|constructor].
      rewrite Forall_forall in Hvc. apply Hvc. exact Hc.
    + apply Forall_forall. intros x Hx. rewrite Forall_forall in Hvc.
      apply Hvc. eapply remove_first_In. exact Hx.
Qed.

(** The padding loop never runs out of candidates when enough are left. *)
Lemma pad_team_total k : forall team cands draws,
  k <= length cands -> exists t, pad_team k team cands draws = Ok t.
Proof.
  induction k as [|k IH]; intros team cands draws Hk; simpl.
  - eauto.
  - destruct (choice_some (hd 0 draws) cands) as [c Hc].
    { destruct cands; simpl in *; [lia|discriminate]. }
    rewrite Hc. apply IH.
    rewrite remove_first_length by (eapply choice_In; exact Hc). lia.
Qed.

Lemma fromkeys_legal l : forall seen,
  NoDup l -> (forall x, In x l -> ~ In x seen) -> fromkeys l seen = l.
Proof.
  induction l as [|x l IH]; intros seen Hnd Hfresh; simpl; [reflexivity|].
  inversion Hnd as [|? ? Hx Hnd']; subst.
  destruct (mem x seen) eqn:E.
  - apply mem_In in E. exfalso. apply (Hfresh x); [left; reflexivity|exact E].
  - f_equal. apply IH; [exact Hnd'|].
    intros y Hy [<-|Hin]; [tauto|]. apply (Hfresh y); [right; exact Hy|exact Hin].
Qed.

Lemma filter_all {A} (f : A -> bool) l :
  Forall (fun x => f x = true) l -> filter f l = l.
Proof.
  induction 1 as [|x l Hx _ IH]; simpl; [reflexivity|].
  rewrite Hx, IH. reflexivity.
Qed.

Lemma range6_candidates team :
  NoDup team -> Forall (fun t => valid_id t = true) team ->
  length (filter (fun c => negb (mem c team)) (range 6)) = 6 - length team.
Proof.
  intros Hnd Hv.
  pose proof (filter_length (fun c => mem c team) (range 6)) as Hsplit.
  cbv beta in Hsplit.
  assert (Hlen : length (range 6) = 6) by reflexivity.
  assert (Hin : length (filter (fun c => mem c team) (range 6)) = length team).
  { apply Nat.le_antisymm.
    - apply NoDup_incl_length; [apply NoDup_filter, range_NoDup|].
      intros x Hx. apply filter_In in Hx. apply mem_In. tauto.
    - apply NoDup_incl_length; [exact Hnd|].
      intros x Hx. apply filter_In. split.
      + apply valid_id_range. rewrite Forall_forall in Hv. apply Hv. exact Hx.
      + apply mem_In. exact Hx. }
  lia.
Qed.

End TeamSpec.

Module ParseSpec.
Import Game GameSpec PhaseSpec TeamSpec.

Section WithInt.

Variable int_of_str : pystr -> option Z.

(** What [_parse_team] returns from its [try] block is a legal team. *)
Lemma parse_team_json_legal r k team :
  parse_team_json int_of_str r k = Ok (Some team) -> legal_team k team.
Proof.
  unfold parse_team_json.
  destruct (json_obj r) as [[data|]|]; try discriminate.
  destruct (bind _ _) as [zs|[]]; try discriminate.
  destruct (length _ =? k) eqn:E; [|discriminate].
  intros H. injection H as <-. apply Nat.eqb_eq in E.
  destruct (list_set_legal (filter valid_id zs)) as [H1 H2].
  repeat split; assumption.
Qed.

Lemma firstn_NoDup {A} n (l : list A) : NoDup l -> NoDup (firstn n l).
Proof.
  intros H. rewrite <- (firstn_skipn n l) in H.
  eapply NoDup_app_remove_r. exact H.
Qed.

Lemma firstn_In {A} n (l : list A) x : In x (firstn n l) -> In x l.
Proof.
  intros H. rewrite <- (firstn_skipn n l). apply in_or_app. left. exact H.
Qed.

Lemma remove_first_range_length self :
  valid_id self = true -> length (remove_first self (range PLAYER_COUNT)) = 5.
Proof.
  intros H. rewrite remove_first_length by (apply valid_id_range; exact H).
  reflexivity.
Qed.

(** [_parse_team] returns a legal team whenever it returns. *)
Lemma parse_team_legal r self k draws team :
  1 <= k -> valid_id self = true ->
  _parse_team int_of_str r self k draws = Ok team -> legal_team k team.
Proof.
  intros Hk Hself. unfold _parse_team.
  destruct (parse_team_json int_of_str r k) as [[t|]|e] eqn:J; cbn [bind];
    [| |discriminate].
  - intros H. injection H as <-. eapply parse_team_json_legal. exact J.
  - match goal with |- context [list_set ?l] => set (nums := l) end.
    destruct (list_set_legal nums) as [Hnd Hv].
    destruct (k <=? length (list_set nums)) eqn:E.
    + intros H. injection H as <-. apply Nat.leb_le in E. repeat split.
      * apply firstn_NoDup. exact Hnd.
      * apply Forall_forall. intros x Hx. rewrite Forall_forall in Hv.
        apply Hv. eapply firstn_In. exact Hx.
      * apply firstn_length_le. exact E.
    + assert (Hm : mem self (range PLAYER_COUNT) = true)
        by (apply mem_In, valid_id_range; exact Hself).
      rewrite Hm. intros H. apply pad_team_legal in H.
      * cbn [length] in H. replace (1 + (k - 1)) with k in H by lia. exact H.
      * repeat constructor. simpl. tauto.
      * apply remove_first_NoDup, range_NoDup.
      * intros x [<-|[]]. apply remove_first_not_In, range_NoDup.
      * repeat constructor. exact Hself.
      * apply Forall_forall. intros x Hx. apply valid_id_range.
        eapply remove_first_In. exact Hx.
Qed.

(** [_parse_team] returns unless its [try] block lets an exception out. *)
Lemma parse_team_returns r self k draws j :
  k <= 6 -> valid_id self = true ->
  parse_team_json int_of_str r k = Ok j ->
  exists team, _parse_team int_of_str r self k draws = Ok team.
Proof.
  intros Hk Hself J. unfold _parse_team. rewrite J. cbn [bind].
  destruct j as [t|]; [eauto|].
  destruct (k <=? _); [eauto|].
  assert (Hm : mem self (range PLAYER_COUNT) = true)
    by (apply mem_In, valid_id_range; exact Hself).
  rewrite Hm. apply pad_team_total.
  rewrite remove_first_range_length by exact Hself. lia.
Qed.

Lemma parse_team_raises r self k draws e :
  parse_team_json int_of_str r k = Raise e ->
  _parse_team int_of_str r self k draws = Raise e.
Proof. intros J. unfold _parse_team. rewrite J. reflexivity. Qed.

(** The only exceptions the [try] block lets out. *)
Lemma parse_team_json_exn r k e :
  parse_team_json int_of_str r k = Raise e ->
  e <> ValueError /\ e <> KeyError.
Proof.
  unfold parse_team_json.
  destruct (json_obj r) as [[data|]|]; try discriminate.
  destruct (bind _ _) as [zs|[]]; try discriminate;
    try (destruct (_ =? _); discriminate);
    intros H; injection H as <-; split; discriminate.
Qed.

Lemma team_size_bounds cr k :
  nth_error MISSION_TEAM_SIZES cr = Some k -> 2 <= k <= 4.
Proof.
  unfold MISSION_TEAM_SIZES.
  do 5 (destruct cr as [|cr]; [intros H; injection H as <-; lia|]).
  destruct cr; discriminate.
Qed.

Lemma team_size_exists cr :
  cr < 5 -> exists k, nth_error MISSION_TEAM_SIZES cr = Some k.
Proof.
  intros H. destruct (nth_error MISSION_TEAM_SIZES cr) eqn:E; [eauto|].
  apply nth_error_None in E. simpl in E. lia.
Qed.

(** The state in which a team can be proposed: ids are positions, there are
    six players and the leader index names one of them. *)
Definition seated (s : GameState) : Prop :=
  positions_ok (players s) /\ length (players s) = PLAYER_COUNT /\
  (0 <= current_leader_idx s < Z.of_nat PLAYER_COUNT)%Z.

Lemma seated_leader s :
  seated s ->
  exists p, player_at s (current_leader_idx s) = Ok p /\
            agent_of s (player_id p) = Ok p /\
            player_id p = current_leader_idx s.
Proof.
  intros (Hpos & Hlen & Hl).
  destruct (lookup_valid s (current_leader_idx s) Hpos) as (p & Hn & Hp & Ha).
  { rewrite Hlen. exact Hl. }
  assert (Hid : player_id p = current_leader_idx s).
  { rewrite (Hpos _ _ Hn). lia. }
  exists p. rewrite Hid. auto.
Qed.

Lemma valid_id_bounds t :
  valid_id t = true <-> (0 <= t < Z.of_nat PLAYER_COUNT)%Z.
Proof.
  unfold valid_id. rewrite andb_true_iff, Z.leb_le, Z.ltb_lt. tauto.
Qed.

(** [execute_team_phase], when the leader's [_parse_team] returns [team]. *)
Lemma team_phase_after_parse i s k p team :
  player_at s (current_leader_idx s) = Ok p ->
  agent_of s (player_id p) = Ok p ->
  nth_error MISSION_TEAM_SIZES (current_round s) = Some k ->
  _parse_team int_of_str (in_team i) (player_id p) k (in_agent_draws i) = Ok team ->
  legal_team k team ->
  execute_team_phase int_of_str i s = Ok (set_proposed_team s team, team).
Proof.
  intros Hp Ha Hk Hparse (Hnd & Hv & Hlen).
  unfold execute_team_phase. rewrite Hp. simpl. rewrite Ha. simpl.
  rewrite Hk, Hparse. simpl.
  rewrite (filter_all (fun t => (0 <=? t) && (t <? 6))%Z team Hv).
  rewrite fromkeys_legal by (auto; intros x _ []).
  rewrite Hlen, Nat.eqb_refl. reflexivity.
Qed.

(** [execute_team_phase] either stores a legal team, or lets out the
    exception that [_parse_team]'s [try] block lets out. *)
Lemma team_phase_outcome i s k :
  seated s ->
  nth_error MISSION_TEAM_SIZES (current_round s) = Some k ->
  match parse_team_json int_of_str (in_team i) k with
  | Ok _ => exists team, legal_team k team /\
            execute_team_phase int_of_str i s = Ok (set_proposed_team s team, team)
  | Raise e => execute_team_phase int_of_str i s = Raise e
  end.
Proof.
  intros Hs Hk. destruct (seated_leader s Hs) as (p & Hp & Ha & Hid).
  pose proof (team_size_bounds _ _ Hk) as Hb.
  assert (Hself : valid_id (player_id p) = true).
  { apply valid_id_bounds. rewrite Hid. apply Hs. }
  destruct (parse_team_json int_of_str (in_team i) k) as [j|e] eqn:J.
  - destruct (parse_team_returns (in_team i) (player_id p) k (in_agent_draws i) j)
      as [team Ht]; [lia|exact Hself|exact J|].
    exists team.
    assert (Hlegal : legal_team k team)
      by (eapply parse_team_legal; [| |exact Ht]; [lia|exact Hself]).
    split; [exact Hlegal|].
    eapply team_phase_after_parse; eauto.
  - unfold execute_team_phase. rewrite Hp. simpl. rewrite Ha. simpl.
    rewrite Hk. rewrite (parse_team_raises _ _ _ _ _ J). reflexivity.
Qed.

End WithInt.

End ParseSpec.

(** ** The mission *)

Module MissionSpec.
Import Game GameSpec PhaseSpec TeamSpec ParseSpec.

Lemma mission_fold i s record l t t' :
  fold_left (mission_one i s record) l (Ok t) = Ok t' ->
  m_heap t' = heap_update (m_heap t) record
                (actions_written (mission_vote_of i s) l) /\
  success_count t' = success_count t + count_true (map (mission_vote_of i s) l) /\
  fail_count t' = fail_count t + count_false (map (mission_vote_of i s) l).
Proof.
  revert t. induction l as [|x l IH]; intros t; cbn [fold_left map].
  - intros E. injection E as <-. rewrite heap_update_id.
    unfold count_true, count_false. simpl. repeat split; lia.
  - unfold mission_one at 2. cbn [bind].
    destruct (agent_of s x) as [p|] eqn:Eag; cbn [bind];
      [|rewrite fold_raise by reflexivity; discriminate].
    destruct (player_at s x); cbn [bind];
      [|rewrite fold_raise by reflexivity; discriminate].
    assert (Ev : mission_action p (in_action i x) = mission_vote_of i s x)
      by (unfold mission_vote_of; rewrite Eag; reflexivity).
    rewrite Ev. intros E. apply IH in E.
    cbn [m_heap success_count fail_count] in E. destruct E as (Eh & Ea & Er).
    rewrite Eh, Ea, Er, heap_update_compose.
    split; [reflexivity|].
    unfold count_true, count_false. cbn [filter].
    destruct (mission_vote_of i s x); cbn [negb length]; split; lia.
Qed.

Lemma mission_fold_total i s record l t :
  positions_ok (players s) ->
  Forall (fun pid => (0 <= pid < Z.of_nat (length (players s)))%Z) l ->
  exists t', fold_left (mission_one i s record) l (Ok t) = Ok t'.
Proof.
  intros Hpos. revert t. induction l as [|x l IH]; intros t Hl.
  - simpl. eauto.
  - inversion Hl as [|? ? Hx Hl']; subst.
    destruct (lookup_valid s x Hpos Hx) as (p & _ & Hp & Ha).
    cbn [fold_left]. unfold mission_one at 2. cbn [bind]. rewrite Hp, Ha.
    cbn [bind]. apply IH. exact Hl'.
Qed.

(** The runner's loop computes what the engine's loop computes. *)
Lemma async_mission_fold i s record l t :
  positions_ok (players s) ->
  Forall (fun pid => (0 <= pid < Z.of_nat (length (players s)))%Z) l ->
  fold_left (async_mission_one i s record) l (Ok t)
  = fold_left (mission_one i s record) l (Ok t).
Proof.
  intros Hpos. revert t. induction l as [|x l IH]; intros t Hl.
  - reflexivity.
  - inversion Hl as [|? ? Hx Hl']; subst.
    destruct (lookup_valid s x Hpos Hx) as (p & _ & Hp & Ha).
    cbn [fold_left]. unfold async_mission_one at 2, mission_one at 2.
    cbn [bind]. rewrite Hp, Ha. cbn [bind].
    unfold mission_action. destruct (is_good p); apply IH; exact Hl'.
Qed.

(** What [execute_mission] does on a legal team, with the record at a valid
    address: it returns, and the returned store, state and outcome are
    these. *)
Lemma mission_effect i s h record k :
  positions_ok (players s) ->
  Forall (fun pid => (0 <= pid < Z.of_nat (length (players s)))%Z)
         (proposed_team s) ->
  nth_error MISSION_FAIL_REQUIRED (current_round s) = Some k ->
  let votes := map (mission_vote_of i s) (proposed_team s) in
  let ok := count_false votes <? k in
  execute_mission i s h record
  = Ok (heap_update h record
          (fun r => set_success ok
                      (actions_written (mission_vote_of i s) (proposed_team s) r)),
        append_result s ok, ok) /\
  _run_mission i s h record = execute_mission i s h record.
Proof.
  intros Hpos Hteam Hk votes ok.
  assert (Hasync : _run_mission i s h record = execute_mission i s h record).
  { unfold _run_mission, execute_mission. rewrite Hk.
    rewrite async_mission_fold by assumption. reflexivity. }
  split; [|exact Hasync].
  unfold execute_mission. rewrite Hk.
  destruct (mission_fold_total i s record (proposed_team s)
              {| m_heap := h; success_count := 0; fail_count := 0 |} Hpos Hteam)
    as [t' Ht].
  rewrite Ht. cbn [bind]. apply mission_fold in Ht.
  cbn [m_heap success_count fail_count] in Ht. destruct Ht as (Eh & _ & Ef).
  rewrite Eh, Ef, heap_update_compose. reflexivity.
Qed.

Lemma fail_required_exists cr :
  cr < 5 -> exists k, nth_error MISSION_FAIL_REQUIRED cr = Some k.
Proof.
  intros H. destruct (nth_error MISSION_FAIL_REQUIRED cr) eqn:E; [eauto|].
  apply nth_error_None in E. simpl in E. lia.
Qed.

End MissionSpec.

(** ** The start of a game *)

Module SetupSpec.
Import Game GameSpec PhaseSpec TeamSpec ParseSpec.

(** A player without its leader flag: what never changes during a game. *)
Definition forget_leader (p : Player) : Player :=
  {| player_id := player_id p; role := role p; is_leader := false;
     known_evil := known_evil p;
     known_merlin_or_morgana := known_merlin_or_morgana p;
     known_allies := known_allies p |}.

Definition same_cast (ps ps0 : list Player) : Prop :=
  map forget_leader ps = map forget_leader ps0.

Lemma same_cast_refl ps : same_cast ps ps.
Proof. reflexivity. Qed.

Lemma same_cast_flags ps ps0 idx :
  same_cast ps ps0 -> same_cast (set_leader_flags ps idx) ps0.
Proof.
  unfold same_cast, set_leader_flags. intros <-. rewrite map_map.
  apply map_ext. intros p. reflexivity.
Qed.

Lemma same_cast_nth ps ps0 k p :
  same_cast ps ps0 -> nth_error ps k = Some p ->
  exists p0, nth_error ps0 k = Some p0 /\ forget_leader p0 = forget_leader p.
Proof.
  unfold same_cast. intros E H.
  apply (map_nth_error forget_leader) in H. rewrite E in H.
  rewrite nth_error_map in H.
  destruct (nth_error ps0 k) as [p0|]; [|discriminate].
  exists p0. split; [reflexivity|]. simpl in H. congruence.
Qed.


Lemma same_cast_length ps ps0 : same_cast ps ps0 -> length ps = length ps0.
Proof.
  unfold same_cast. intros E. apply (f_equal (@length _)) in E.
  rewrite !length_map in E. exact E.
Qed.

Lemma same_cast_positions ps ps0 :
  same_cast ps ps0 -> positions_ok ps0 -> positions_ok ps.
Proof.
  intros E H0 k p Hk.
  destruct (same_cast_nth _ _ _ _ E Hk) as (p0 & Hk0 & Ep).
  apply (f_equal player_id) in Ep. simpl in Ep. rewrite <- Ep.
  apply (H0 _ _ Hk0).
Qed.

(** Ids and roles survive the writes of the night phase. *)
Definition keeps_identity (f : Player -> Player) : Prop :=
  forall p, player_id (f p) = player_id p /\ role (f p) = role p.

Lemma update_at_length ps i f : length (update_at ps i f) = length ps.
Proof.
  revert i. induction ps as [|p ps IH]; intros [|i]; simpl; auto.
Qed.

Lemma update_at_nth ps i f k :
  nth_error (update_at ps i f) k
  = if k =? i then option_map f (nth_error ps k) else nth_error ps k.
Proof.
  revert i k. induction ps as [|p ps IH]; intros i k.
  - destruct i, k; simpl; try reflexivity. destruct (k =? i); reflexivity.
  - destruct i, k; simpl; auto.
Qed.

Definition identity_list (ps : list Player) : list (Z * RoleInfo) :=
  map (fun p => (player_id p, role p)) ps.

Lemma update_at_identity ps i f :
  keeps_identity f -> identity_list (update_at ps i f) = identity_list ps.
Proof.
  intros Hf. unfold identity_list. revert i.
  induction ps as [|p ps IH]; intros [|i]; simpl; auto.
  - destruct (Hf p) as [-> ->]. reflexivity.
  - rewrite IH. reflexivity.
Qed.

Lemma fold_update_identity {X} (g : X -> nat) (f : X -> Player -> Player) l ps :
  (forall x, keeps_identity (f x)) ->
  identity_list (fold_left (fun acc x => update_at acc (g x) (f x)) l ps)
  = identity_list ps.
Proof.
  intros Hf. revert ps. induction l as [|x l IH]; intros ps; simpl; auto.
  rewrite IH. apply update_at_identity. apply Hf.
Qed.

Lemma night_identity ps : identity_list (night_players ps) = identity_list ps.
Proof.
  unfold night_players.
  set (ps1 := match find_role_id ps merlin with
              | Some m => update_at ps (Z.to_nat m) (set_known_evil (evil_ids ps))
              | None => ps
              end).
  assert (H1 : identity_list ps1 = identity_list ps).
  { unfold ps1. destruct (find_role_id ps merlin); [|reflexivity].
    apply update_at_identity. intros p. split; reflexivity. }
  match goal with
  | |- context [fold_left ?F ?l ps1] => set (ps2 := fold_left F l ps1)
  end.
  assert (H2 : identity_list ps2 = identity_list ps).
  { unfold ps2. rewrite <- H1.
    apply (fold_update_identity (fun eid => Z.to_nat eid)
             (fun eid => set_known_allies
                           (filter (fun e => negb (e =? eid)%Z) (evil_ids ps)))).
    intros x p. split; reflexivity. }
  destruct (find_role_id ps percival); [|exact H2].
  destruct (find_role_id ps merlin); [|exact H2].
  destruct (find_role_id ps morgana); [|exact H2].
  rewrite update_at_identity; [exact H2|]. intros p. split; reflexivity.
Qed.

Lemma combine_seq_nth {A} n : forall a (rs : list A) k j r,
  nth_error (combine (seq a n) rs) k = Some (j, r) -> j = a + k.
Proof.
  induction n as [|n IH]; intros a rs k j r; simpl.
  - destruct k; discriminate.
  - destruct rs as [|r0 rs]; [destruct k; discriminate|].
    destruct k as [|k]; simpl.
    + intros H. injection H as <- _. lia.
    + intros H. apply IH in H. lia.
Qed.

Lemma identity_positions ps n (rs : list RoleId) :
  identity_list ps
  = map (fun ir => (Z.of_nat (fst ir), ROLES (snd ir))) (combine (seq 0 n) rs) ->
  positions_ok ps.
Proof.
  intros E k p Hk.
  apply (map_nth_error (fun p => (player_id p, role p))) in Hk.
  fold (identity_list ps) in Hk. rewrite E, nth_error_map in Hk.
  destruct (nth_error (combine (seq 0 n) rs) k) as [[j r]|] eqn:Hj;
    [|discriminate].
  apply combine_seq_nth in Hj. simpl in Hk. injection Hk as Eid _.
  rewrite <- Eid. f_equal. exact Hj.
Qed.

Lemma setup_identity role_ids leader :
  identity_list (players (setup role_ids leader))
  = map (fun ir => (Z.of_nat (fst ir), ROLES (snd ir)))
        (combine (seq 0 PLAYER_COUNT) role_ids).
Proof.
  unfold setup. cbn [players initial_state].
  rewrite update_at_identity by (intros p; split; reflexivity).
  unfold identity_list. rewrite map_map. apply map_ext. intros [k r]. reflexivity.
Qed.

Section Start.

Variables (role_ids : list RoleId) (leader : Z).
Hypothesis Hsetup : valid_setup role_ids leader.

(** The players when the round loop is entered. *)
Definition cast0 : list Player :=
  players (state (start role_ids leader)).

Lemma cast0_identity :
  identity_list cast0
  = map (fun ir => (Z.of_nat (fst ir), ROLES (snd ir)))
        (combine (seq 0 PLAYER_COUNT) role_ids).
Proof.
  unfold cast0, start. cbn [state players execute_night_phase].
  rewrite night_identity. apply setup_identity.
Qed.

Lemma role_ids_length : length role_ids = PLAYER_COUNT.
Proof.
  destruct Hsetup as [Hperm _]. apply Permutation_length in Hperm. exact Hperm.
Qed.

Lemma cast0_length : length cast0 = PLAYER_COUNT.
Proof.
  pose proof cast0_identity as E. apply (f_equal (@length _)) in E.
  unfold identity_list in E. rewrite !length_map, length_combine, length_seq in E.
  rewrite role_ids_length in E. rewrite E. apply Nat.min_id.
Qed.

Lemma cast0_positions : positions_ok cast0.
Proof. eapply identity_positions. apply cast0_identity. Qed.

End Start.

End SetupSpec.

(** ** Invariants of the engine *)

Module EngineSpec.
Import Game GameSpec PhaseSpec TeamSpec ParseSpec MissionSpec SetupSpec.

(** The listed records are allocated and pairwise distinct objects. *)
Definition heap_ok (c : Config) : Prop :=
  Forall (fun a => a < length (heap c)) (mission_records (state c)) /\
  NoDup (mission_records (state c)).

(** The score counts the mission outcomes, one per record with an outcome. *)
Definition tallied (c : Config) : Prop :=
  good_wins_count (state c) + evil_wins_count (state c)
  = length (mission_results (state c)) /\
  length (mission_results (state c)) = length (filter success_set (records c)).

Definition no_winner (s : GameState) : Prop :=
  good_wins_count s < 3 /\ evil_wins_count s < 3.

Definition one_more (s : GameState) : Prop :=
  (good_wins_count s <= 3 /\ evil_wins_count s < 3) \/
  (good_wins_count s < 3 /\ evil_wins_count s <= 3).

Definition rounds_upto (c : Config) (b : Z) : Prop :=
  Forall (fun x => (round_num x <= b)%Z) (records c).

(** The number of the round being played. *)
Definition this_round (c : Config) : Z :=
  (Z.of_nat (current_round (state c)) + 1)%Z.

(** Inside the proposal loop of a round: the rejected proposals of the round
    are its records so far, one per reject. *)
Definition round_open (c : Config) : Prop :=
  current_round (state c) < 5 /\
  consecutive_rejects (state c) < MAX_TEAM_VOTES /\
  length (records_of_round c (this_round c)) = consecutive_rejects (state c) /\
  Forall (fun x => success x = None) (records_of_round c (this_round c)) /\
  rounds_upto c (this_round c) /\
  no_winner (state c).

(** The local [record]: allocated, not listed yet, without outcome. *)
Definition pending (c : Config) : Prop :=
  record c < length (heap c) /\
  ~ In (record c) (mission_records (state c)) /\
  round_num (deref (heap c) (record c)) = this_round c /\
  success (deref (heap c) (record c)) = None /\
  mission_votes (deref (heap c) (record c)) = [].

Definition team_ready (s : GameState) : Prop :=
  exists k, nth_error MISSION_TEAM_SIZES (current_round s) = Some k /\
            legal_team k (proposed_team s).

(** The approved team is about to go: [record] is the last listed record. *)
Definition in_mission (c : Config) : Prop :=
  current_round (state c) < 5 /\ no_winner (state c) /\ team_ready (state c) /\
  record c < length (heap c) /\
  (exists olds, mission_records (state c) = olds ++ [record c] /\
                ~ In (record c) olds) /\
  success (deref (heap c) (record c)) = None /\
  mission_votes (deref (heap c) (record c)) = [] /\
  length (records_of_round c (this_round c))
  = consecutive_rejects (state c) + 1 /\
  rounds_upto c (this_round c).

Definition at_pc (c : Config) : Prop :=
  match pc c with
  | RoundStart r =>
    r <= 5 /\ rounds_upto c (Z.of_nat r) /\ no_winner (state c)
  | TeamProposal | LeaderRotation => round_open c
  | Discussion | Vote =>
    round_open c /\ pending c /\ team_ready (state c) /\
    team_votes (deref (heap c) (record c)) = []
  | Tally _ => round_open c /\ pending c /\ team_ready (state c)
  | Mission => in_mission c
  | WinCheck =>
    current_round (state c) < 5 /\ one_more (state c) /\
    rounds_upto c (this_round c)
  | Assassination => 3 <= good_wins_count (state c)
  | NextRound =>
    current_round (state c) < 5 /\ no_winner (state c) /\
    rounds_upto c (this_round c)
  | Terminal => True
  | Crashed _ => True
  end.

Section Reach.

Variable int_of_str : pystr -> option Z.
Variables (role_ids : list RoleId) (leader : Z).
Hypothesis Hsetup : valid_setup role_ids leader.

(** The players are those of the start, up to the leader flag, and the
    leader index names one of them. *)
Definition cast_ok (s : GameState) : Prop :=
  same_cast (players s) (cast0 role_ids leader) /\
  (0 <= current_leader_idx s < Z.of_nat PLAYER_COUNT)%Z.

Definition Inv (c : Config) : Prop :=
  cast_ok (state c) /\ heap_ok c /\ tallied c /\ at_pc c.

Lemma cast_ok_seated s : cast_ok s -> seated s.
Proof.
  intros [Hc Hl]. repeat split; try apply Hl.
  - eapply same_cast_positions; [exact Hc|]. apply cast0_positions.
  - rewrite (same_cast_length _ _ Hc). apply cast0_length. exact Hsetup.
Qed.

Lemma Inv_start : Inv (start role_ids leader).
Proof.
  unfold Inv, cast_ok, heap_ok, tallied, at_pc, rounds_upto, no_winner, records.
  cbn. repeat split; try constructor; try lia.
  - apply Hsetup.
  - apply Hsetup.
Qed.


(** *** Records under changes of the store *)

Lemma map_deref_update h a f rs :
  ~ In a rs -> map (deref (heap_update h a f)) rs = map (deref h) rs.
Proof.
  intros H. apply map_ext_in. intros b Hb. apply deref_update_other.
  intros ->. exact (H Hb).
Qed.

Lemma map_deref_app h r rs :
  Forall (fun a => a < length h) rs -> map (deref (h ++ [r])) rs = map (deref h) rs.
Proof.
  intros H. apply map_ext_in. intros b Hb. apply deref_app_old.
  rewrite Forall_forall in H. apply H. exact Hb.
Qed.

Lemma filter_none {A} (f : A -> bool) l :
  Forall (fun x => f x = false) l -> filter f l = [].
Proof.
  induction 1 as [|x l Hx _ IH]; simpl; [reflexivity|]. rewrite Hx. exact IH.
Qed.

(** Two configurations with the same listed records and the same counters. *)
Definition same_view (c c' : Config) : Prop :=
  records c' = records c /\
  current_round (state c') = current_round (state c) /\
  consecutive_rejects (state c') = consecutive_rejects (state c) /\
  mission_results (state c') = mission_results (state c).

Lemma same_view_tallied c c' : same_view c c' -> tallied c -> tallied c'.
Proof.
  intros (Hr & _ & _ & Hm). unfold tallied, good_wins_count, evil_wins_count.
  rewrite Hr, Hm. tauto.
Qed.

Lemma same_view_round_open c c' : same_view c c' -> round_open c -> round_open c'.
Proof.
  intros (Hr & Hc & Hj & Hm).
  unfold round_open, records_of_round, rounds_upto, this_round, no_winner,
    good_wins_count, evil_wins_count.
  rewrite Hr, Hc, Hj, Hm. tauto.
Qed.

Lemma same_view_rounds_upto c c' b :
  records c' = records c -> rounds_upto c b -> rounds_upto c' b.
Proof. unfold rounds_upto. intros ->. tauto. Qed.

Ltac open_inv :=
  unfold Inv, heap_ok, tallied, at_pc, cast_ok in *;
  cbn [heap state record pc assassin_phase_data goto with_state with_heap] in *.

(** *** The phases preserve the invariant *)

Ltac split_inv := refine (conj _ (conj _ (conj _ _))).

Lemma step_RoundStart i h s rec apd r :
  Inv {| heap := h; state := s; record := rec; assassin_phase_data := apd;
         pc := RoundStart r |} ->
  Inv (step int_of_str i
         {| heap := h; state := s; record := rec; assassin_phase_data := apd;
            pc := RoundStart r |}).
Proof.
  intros (Hcast & Hheap & Htal & Hr & Hup & Hnw).
  unfold step. cbn [pc state].
  destruct (r <? 5) eqn:E.
  - apply Nat.ltb_lt in E.
    set (c := {| heap := h; state := s; record := rec;
                 assassin_phase_data := apd; pc := RoundStart r |}) in *.
    split_inv; [exact Hcast|exact Hheap|exact Htal|].
    unfold at_pc. cbn [pc with_state]. unfold round_open.
    match goal with
    | |- context [records_of_round ?c' (this_round ?c')] =>
      change (records_of_round c' (this_round c'))
        with (filter (fun x => (round_num x =? Z.of_nat r + 1)%Z) (records c))
    end.
    assert (Hnone : filter (fun x => (round_num x =? Z.of_nat r + 1)%Z) (records c)
                    = []).
    { apply filter_none. unfold rounds_upto in Hup.
      eapply Forall_impl; [|exact Hup]. cbv beta. intros x Hx.
      apply Z.eqb_neq. lia. }
    rewrite Hnone.
    refine (conj _ (conj _ (conj _ (conj _ (conj _ _))))).
    + exact E.
    + cbn. unfold MAX_TEAM_VOTES. lia.
    + reflexivity.
    + constructor.
    + unfold rounds_upto in *. eapply Forall_impl; [|exact Hup].
      cbv beta. unfold this_round. cbn. intros; lia.
    + exact Hnw.
  - split_inv; [exact Hcast|exact Hheap|exact Htal|exact I].
Qed.

Lemma step_TeamProposal i h s rec apd :
  Inv {| heap := h; state := s; record := rec; assassin_phase_data := apd;
         pc := TeamProposal |} ->
  Inv (step int_of_str i
         {| heap := h; state := s; record := rec; assassin_phase_data := apd;
            pc := TeamProposal |}).
Proof.
  intros (Hcast & Hheap & Htal & Hopen).
  set (c := {| heap := h; state := s; record := rec;
               assassin_phase_data := apd; pc := TeamProposal |}) in *.
  pose proof (cast_ok_seated _ Hcast) as Hseat.
  assert (Hcr : current_round s < 5) by apply Hopen.
  destruct (team_size_exists _ Hcr) as [k Hk].
  pose proof (team_phase_outcome int_of_str i s k Hseat Hk) as Hout.
  unfold step. cbn [pc state c].
  destruct (parse_team_json int_of_str (in_team i) k) as [j|e].
  - destruct Hout as (team & Hlegal & Hexec). rewrite Hexec.
    cbn [current_round current_leader_idx set_proposed_team].
    match goal with |- Inv ?x => set (c' := x) end.
    destruct Hheap as [Hlt Hnd]. cbn [heap state c] in Hlt, Hnd.
    assert (Hrec : records c' = records c).
    { unfold records. cbn [heap state c c' mission_records set_proposed_team].
      apply map_deref_app. exact Hlt. }
    assert (Hview : same_view c c') by (split; [exact Hrec|repeat split]).
    split_inv.
    + exact Hcast.
    + split; [|exact Hnd]. cbn [heap state c' mission_records set_proposed_team].
      rewrite length_app. cbn [length heap c].
      eapply Forall_impl; [|exact Hlt]. cbv beta. intros; lia.
    + eapply same_view_tallied; [exact Hview|exact Htal].
    + unfold at_pc. cbn [pc c'].
      refine (conj _ (conj _ (conj _ _))).
      * eapply same_view_round_open; [exact Hview|exact Hopen].
      * unfold pending. cbn [heap state record c' mission_records
                              set_proposed_team].
        rewrite deref_app_new, length_app. cbn [length heap c].
        refine (conj _ (conj _ (conj _ (conj _ _)))); try reflexivity.
        -- lia.
        -- intros Hin. rewrite Forall_forall in Hlt. apply Hlt in Hin. lia.
      * exists k. split; [exact Hk|exact Hlegal].
      * cbn [heap record c']. rewrite deref_app_new. reflexivity.
  - rewrite Hout. split_inv; [exact Hcast|exact Hheap|exact Htal|exact I].
Qed.

(** A write to the pending record that keeps its round, outcome and
    mission votes. *)
Lemma pending_update (F : MissionRecord -> MissionRecord) c c' :
  heap c' = heap_update (heap c) (record c) F ->
  state c' = state c -> record c' = record c ->
  (forall r, round_num (F r) = round_num r /\ success (F r) = success r /\
             mission_votes (F r) = mission_votes r) ->
  pending c -> heap_ok c ->
  same_view c c' /\ pending c' /\ heap_ok c' /\
  deref (heap c') (record c') = F (deref (heap c) (record c)).
Proof.
  intros Hh Hs Hr HF (Hlt & Hnin & Hrn & Hsu & Hmv) (Hall & Hnd).
  assert (Hd : deref (heap c') (record c') = F (deref (heap c) (record c))).
  { rewrite Hh, Hr. apply deref_update_same. exact Hlt. }
  assert (Hrec : records c' = records c).
  { unfold records. rewrite Hh, Hs. apply map_deref_update. exact Hnin. }
  refine (conj _ (conj _ (conj _ Hd))).
  - split; [exact Hrec|]. rewrite Hs. repeat split.
  - unfold pending, this_round. rewrite Hd, Hs, Hr, Hh, length_heap_update.
    destruct (HF (deref (heap c) (record c))) as (F1 & F2 & F3).
    rewrite F1, F2, F3. repeat split; assumption.
  - unfold heap_ok. rewrite Hs, Hh, length_heap_update. split; assumption.
Qed.

Lemma step_Discussion i h s rec apd :
  Inv {| heap := h; state := s; record := rec; assassin_phase_data := apd;
         pc := Discussion |} ->
  Inv (step int_of_str i
         {| heap := h; state := s; record := rec; assassin_phase_data := apd;
            pc := Discussion |}).
Proof.
  intros (Hcast & Hheap & Htal & Hopen & Hpend & Hteam & Hvotes).
  set (c := {| heap := h; state := s; record := rec;
               assassin_phase_data := apd; pc := Discussion |}) in *.
  unfold step. cbn [pc state heap record c].
  destruct (execute_discussion i s h rec) as [h'|e] eqn:E.
  - apply discussion_effect in E.
    match goal with |- Inv ?x => set (c' := x) end.
    destruct (pending_update (speeches_written (in_speech i) (speaking_order s))
                c c' E eq_refl eq_refl) as (Hview & Hpend' & Hheap' & Hd);
      [|exact Hpend|exact Hheap|].
    { intros r. destruct (speeches_written_fields
                            (in_speech i) (speaking_order s) r)
        as (F1 & _ & _ & F4 & F5 & _). auto. }
    split_inv.
    + exact Hcast.
    + exact Hheap'.
    + eapply same_view_tallied; [exact Hview|exact Htal].
    + unfold at_pc. cbn [pc c' with_heap].
      refine (conj _ (conj Hpend' (conj Hteam _))).
      * eapply same_view_round_open; [exact Hview|exact Hopen].
      * rewrite Hd.
        destruct (speeches_written_fields (in_speech i) (speaking_order s)
                    (deref (heap c) (record c))) as (_ & _ & _ & _ & _ & F6).
        rewrite F6. exact Hvotes.
  - split_inv; [exact Hcast|exact Hheap|exact Htal|exact I].
Qed.

Lemma step_Vote i h s rec apd :
  Inv {| heap := h; state := s; record := rec; assassin_phase_data := apd;
         pc := Vote |} ->
  Inv (step int_of_str i
         {| heap := h; state := s; record := rec; assassin_phase_data := apd;
            pc := Vote |}).
Proof.
  intros (Hcast & Hheap & Htal & Hopen & Hpend & Hteam & Hvotes).
  set (c := {| heap := h; state := s; record := rec;
               assassin_phase_data := apd; pc := Vote |}) in *.
  unfold step. cbn [pc state heap record c].
  destruct (execute_vote i s h rec) as [[h' approved]|e] eqn:E.
  - apply vote_effect in E. destruct E as [E _].
    match goal with |- Inv ?x => set (c' := x) end.
    destruct (pending_update
                (votes_written (in_vote i) (range (length (players s))))
                c c' E eq_refl eq_refl) as (Hview & Hpend' & Hheap' & Hd);
      [|exact Hpend|exact Hheap|].
    { intros r. destruct (votes_written_fields
                            (in_vote i) (range (length (players s))) r)
        as (F1 & _ & _ & F4 & F5 & _). auto. }
    split_inv.
    + exact Hcast.
    + exact Hheap'.
    + eapply same_view_tallied; [exact Hview|exact Htal].
    + unfold at_pc. cbn [pc c' with_heap].
      refine (conj _ (conj Hpend' Hteam)).
      eapply same_view_round_open; [exact Hview|exact Hopen].
  - split_inv; [exact Hcast|exact Hheap|exact Htal|exact I].
Qed.

(** Listing the pending record. *)
Lemma list_pending c c' :
  heap c' = heap c ->
  mission_records (state c') = mission_records (state c) ++ [record c] ->
  mission_results (state c') = mission_results (state c) ->
  current_round (state c') = current_round (state c) ->
  pending c -> heap_ok c -> tallied c -> round_open c ->
  records c' = records c ++ [deref (heap c) (record c)] /\
  heap_ok c' /\ tallied c' /\
  length (records_of_round c' (this_round c'))
  = consecutive_rejects (state c) + 1 /\
  Forall (fun x => success x = None) (records_of_round c' (this_round c')) /\
  rounds_upto c' (this_round c').
Proof.
  intros Hh Hrs Hres Hcr (Hlt & Hnin & Hrn & Hsu & Hmv) (Hall & Hnd)
         (Hsum & Hcount) (_ & _ & Hlen & Hnone & Hup & _).
  assert (Hrec : records c' = records c ++ [deref (heap c) (record c)]).
  { unfold records. rewrite Hh, Hrs, map_app. reflexivity. }
  assert (Hthis : this_round c' = this_round c)
    by (unfold this_round; rewrite Hcr; reflexivity).
  assert (Hfilter : records_of_round c' (this_round c')
                    = records_of_round c (this_round c)
                      ++ [deref (heap c) (record c)]).
  { unfold records_of_round. rewrite Hrec, Hthis, filter_app. cbn [filter].
    rewrite Hrn, Z.eqb_refl. reflexivity. }
  refine (conj Hrec (conj _ (conj _ (conj _ (conj _ _))))).
  - unfold heap_ok. rewrite Hh, Hrs. split.
    + apply Forall_app. split; [exact Hall|]. constructor; [exact Hlt|constructor].
    + apply NoDup_app; [exact Hnd|repeat constructor; simpl; tauto|].
      intros a Ha [<-|[]]. exact (Hnin Ha).
  - unfold tallied, good_wins_count, evil_wins_count in *.
    rewrite Hres, Hrec, filter_app. cbn [filter]. unfold success_set at 2.
    rewrite Hsu, app_nil_r. split; assumption.
  - rewrite Hfilter, length_app, Hlen. reflexivity.
  - rewrite Hfilter. apply Forall_app. split; [exact Hnone|].
    constructor; [exact Hsu|constructor].
  - unfold rounds_upto in *. rewrite Hrec, Hthis. apply Forall_app.
    split; [exact Hup|]. constructor; [lia|constructor].
Qed.

Lemma step_Tally i h s rec apd approved :
  Inv {| heap := h; state := s; record := rec; assassin_phase_data := apd;
         pc := Tally approved |} ->
  Inv (step int_of_str i
         {| heap := h; state := s; record := rec; assassin_phase_data := apd;
            pc := Tally approved |}).
Proof.
  intros (Hcast & Hheap & Htal & Hopen & Hpend & Hteam).
  set (c := {| heap := h; state := s; record := rec;
               assassin_phase_data := apd; pc := Tally approved |}) in *.
  unfold step. cbn [pc state heap record c].
  destruct approved.
  - match goal with |- Inv ?x => set (c' := x) end.
    destruct (list_pending c c' eq_refl eq_refl eq_refl eq_refl
                Hpend Hheap Htal Hopen)
      as (Hrec & Hheap' & Htal' & Hlen & Hnone & Hup).
    split_inv; [exact Hcast|exact Hheap'|exact Htal'|].
    unfold at_pc. cbn [pc c' with_state]. unfold in_mission.
    destruct Hopen as (Hcr & _ & _ & _ & _ & Hnw).
    destruct Hpend as (Hlt & Hnin & _ & Hsu & Hmv).
    refine (conj Hcr (conj Hnw (conj Hteam (conj Hlt
             (conj _ (conj Hsu (conj Hmv (conj Hlen Hup)))))))).
    exists (mission_records s). split; [reflexivity|exact Hnin].
  - destruct (MAX_TEAM_VOTES <=? _) eqn:E.
    + match goal with |- Inv ?x => set (c' := x) end.
      destruct (list_pending c c' eq_refl eq_refl eq_refl eq_refl
                  Hpend Hheap Htal Hopen)
        as (Hrec & Hheap' & Htal' & _).
      split_inv; [exact Hcast|exact Hheap'|exact Htal'|exact I].
    + match goal with |- Inv ?x => set (c' := x) end.
      destruct (list_pending c c' eq_refl eq_refl eq_refl eq_refl
                  Hpend Hheap Htal Hopen)
        as (Hrec & Hheap' & Htal' & Hlen & Hnone & Hup).
      split_inv; [exact Hcast|exact Hheap'|exact Htal'|].
      unfold at_pc. cbn [pc c' with_state]. unfold round_open.
      destruct Hopen as (Hcr & _ & _ & _ & _ & Hnw).
      apply Nat.leb_gt in E.
      refine (conj Hcr (conj E (conj Hlen (conj Hnone (conj Hup Hnw))))).
Qed.

Lemma next_leader_eq s :
  players s <> [] ->
  next_leader s =
  Ok {| players :=
          set_leader_flags (players s)
            ((current_leader_idx s + 1) mod Z.of_nat (length (players s)))%Z;
        current_round := current_round s;
        current_leader_idx :=
          ((current_leader_idx s + 1) mod Z.of_nat (length (players s)))%Z;
        consecutive_rejects := consecutive_rejects s;
        mission_results := mission_results s;
        mission_records := mission_records s;
        proposed_team := proposed_team s;
        game_over := game_over s;
        winner := winner s;
        end_reason := end_reason s |}.
Proof.
  intros H. unfold next_leader. destruct (players s); [congruence|reflexivity].
Qed.

(** [next_leader] on six players: the index moves on by one, round the
    table, and only the leader flags change. *)
Lemma next_leader_ok s :
  cast_ok s ->
  exists s1,
    next_leader s = Ok s1 /\ cast_ok s1 /\
    current_leader_idx s1 = ((current_leader_idx s + 1) mod 6)%Z /\
    players s1 = set_leader_flags (players s) (current_leader_idx s1) /\
    current_round s1 = current_round s /\
    consecutive_rejects s1 = consecutive_rejects s /\
    mission_results s1 = mission_results s /\
    mission_records s1 = mission_records s /\
    proposed_team s1 = proposed_team s /\
    game_over s1 = game_over s /\ winner s1 = winner s.
Proof.
  intros Hcast. destruct (cast_ok_seated _ Hcast) as (_ & Hlen & _).
  destruct Hcast as [Hsame Hidx].
  assert (Hne : players s <> [])
    by (intros E; rewrite E in Hlen; discriminate).
  rewrite (next_leader_eq s Hne), Hlen. eexists. split; [reflexivity|].
  cbn [players current_leader_idx current_round consecutive_rejects
       mission_results mission_records proposed_team game_over winner].
  split; [|repeat split].
  split.
  - apply same_cast_flags. exact Hsame.
  - apply Z.mod_pos_bound. unfold PLAYER_COUNT. lia.
Qed.

Lemma step_next_leader i h s rec apd p :
  p = LeaderRotation \/ p = NextRound ->
  Inv {| heap := h; state := s; record := rec; assassin_phase_data := apd;
         pc := p |} ->
  Inv (step int_of_str i
         {| heap := h; state := s; record := rec; assassin_phase_data := apd;
            pc := p |}).
Proof.
  intros Hp (Hcast & Hheap & Htal & Hat).
  set (c := {| heap := h; state := s; record := rec;
               assassin_phase_data := apd; pc := p |}) in *.
  destruct (next_leader_ok s Hcast)
    as (s1 & Hnl & Hcast1 & _ & _ & Hcr & Hrej & Hres & Hrecs & _).
  assert (Hstep : forall q,
             Inv (with_state c s1 q) <-> at_pc (with_state c s1 q)).
  { intros q. split; [intros H; apply H|]. intros H.
    split_inv; [exact Hcast1| | |exact H].
    - unfold heap_ok in *. cbn [heap state with_state c] in *.
      rewrite Hrecs. exact Hheap.
    - apply (same_view_tallied c).
      + unfold same_view, records. cbn [heap state with_state c].
        rewrite Hrecs, Hcr, Hrej, Hres. repeat split.
      + exact Htal. }
  assert (Hview : forall q, same_view c (with_state c s1 q)).
  { intros q. unfold same_view, records. cbn [heap state with_state c].
    rewrite Hrecs, Hcr, Hrej, Hres. repeat split. }
  unfold step. cbn [pc state c].
  destruct Hp as [-> | ->]; rewrite Hnl.
  - apply Hstep. unfold at_pc. cbn [pc with_state].
    eapply same_view_round_open; [apply Hview|exact Hat].
  - apply Hstep. unfold at_pc. cbn [pc with_state].
    destruct Hat as (Hlt & Hnw & Hup). cbn [state c] in Hlt, Hnw.
    refine (conj _ (conj _ _)).
    + rewrite Hcr. lia.
    + unfold rounds_upto in *.
      destruct (Hview (RoundStart (S (current_round s1)))) as [-> _].
      unfold this_round in Hup. cbn [state c] in Hup. rewrite Hcr.
      eapply Forall_impl; [|exact Hup]. cbv beta. intros; lia.
    + unfold no_winner, good_wins_count, evil_wins_count in *.
      cbn [state with_state]. rewrite Hres. exact Hnw.
Qed.

Lemma one_more_after s ok :
  no_winner s -> one_more (append_result s ok).
Proof.
  unfold no_winner, one_more, good_wins_count, evil_wins_count.
  cbn [mission_results append_result].
  rewrite count_true_app, count_false_app. intros [Hg He].
  destruct ok; unfold count_true, count_false in *; simpl; lia.
Qed.

Lemma legal_team_bounds s k :
  length (players s) = PLAYER_COUNT -> legal_team k (proposed_team s) ->
  Forall (fun pid => (0 <= pid < Z.of_nat (length (players s)))%Z)
         (proposed_team s).
Proof.
  intros Hlen (_ & Hv & _). rewrite Hlen.
  eapply Forall_impl; [|exact Hv]. cbv beta. intros t Ht.
  apply valid_id_bounds. exact Ht.
Qed.

(** The mission step at a configuration about to run a mission. *)
Lemma mission_step i c :
  cast_ok (state c) -> heap_ok c -> tallied c -> in_mission c ->
  pc c = Mission ->
  exists k,
    nth_error MISSION_FAIL_REQUIRED (current_round (state c)) = Some k /\
    let votes := map (mission_vote_of i (state c)) (proposed_team (state c)) in
    let ok := count_false votes <? k in
    let written :=
      set_success ok
        (actions_written (mission_vote_of i (state c))
                         (proposed_team (state c))
                         (deref (heap c) (record c))) in
    step int_of_str i c =
    {| heap := heap_update (heap c) (record c)
                 (fun r => set_success ok
                             (actions_written (mission_vote_of i (state c))
                                              (proposed_team (state c)) r));
       state := append_result (state c) ok; record := record c;
       assassin_phase_data := assassin_phase_data c; pc := WinCheck |} /\
    _run_mission i (state c) (heap c) (record c)
    = execute_mission i (state c) (heap c) (record c) /\
    deref (heap (step int_of_str i c)) (record c) = written /\
    exists olds,
      mission_records (state c) = olds ++ [record c] /\
      records c = map (deref (heap c)) olds ++ [deref (heap c) (record c)] /\
      records (step int_of_str i c) = map (deref (heap c)) olds ++ [written].
Proof.
  intros Hcast Hheap Htal Hm Hpc.
  destruct (cast_ok_seated _ Hcast) as (Hpos & Hlen & _).
  destruct Hm as (Hcr & Hnw & (ksz & Hksz & Hlegal) & Hlt & (olds & Holds & Hnin)
                  & Hsu & Hmv & _ & Hup).
  destruct (fail_required_exists _ Hcr) as [k Hk].
  exists k. split; [exact Hk|]. intros votes ok written.
  destruct (mission_effect i (state c) (heap c) (record c) k Hpos
              (legal_team_bounds _ _ Hlen Hlegal) Hk) as [Hexec Hasync].
  fold votes in Hexec. fold ok in Hexec.
  assert (Hstep : step int_of_str i c =
    {| heap := heap_update (heap c) (record c)
                 (fun r => set_success ok
                             (actions_written (mission_vote_of i (state c))
                                              (proposed_team (state c)) r));
       state := append_result (state c) ok; record := record c;
       assassin_phase_data := assassin_phase_data c; pc := WinCheck |}).
  { unfold step. rewrite Hpc, Hexec. reflexivity. }
  split; [exact Hstep|]. split; [exact Hasync|].
  rewrite Hstep. cbn [heap state]. split.
  - rewrite deref_update_same by exact Hlt. reflexivity.
  - exists olds. split; [exact Holds|]. unfold records. cbn [heap state].
    cbn [mission_records append_result]. rewrite Holds, !map_app. cbn [map].
    rewrite map_deref_update by exact Hnin.
    rewrite deref_update_same by exact Hlt. split; reflexivity.
Qed.

Lemma step_Mission i h s rec apd :
  Inv {| heap := h; state := s; record := rec; assassin_phase_data := apd;
         pc := Mission |} ->
  Inv (step int_of_str i
         {| heap := h; state := s; record := rec; assassin_phase_data := apd;
            pc := Mission |}).
Proof.
  intros (Hcast & Hheap & Htal & Hm).
  set (c := {| heap := h; state := s; record := rec;
               assassin_phase_data := apd; pc := Mission |}) in *.
  destruct (mission_step i c Hcast Hheap Htal Hm eq_refl)
    as (k & Hk & Hstep & _ & Hd & olds & Holds & Hrc & Hrc').
  cbv zeta in Hstep, Hd, Hrc'.
  set (ok := count_false
               (map (mission_vote_of i (state c)) (proposed_team (state c)))
             <? k) in *.
  set (written := set_success ok
                    (actions_written (mission_vote_of i (state c))
                       (proposed_team (state c)) (deref (heap c) (record c))))
    in *.
  assert (Hround : round_num written = round_num (deref (heap c) (record c))).
  { unfold written.
    destruct (actions_written_fields (mission_vote_of i (state c))
                (proposed_team (state c)) (deref (heap c) (record c)))
      as (F1 & _). cbn [round_num set_success]. exact F1. }
  destruct Hm as (Hcr & Hnw & _ & Hlt & _ & Hsu & _ & _ & Hup).
  assert (Hstate : state (step int_of_str i c) = append_result (state c) ok)
    by (rewrite Hstep; reflexivity).
  assert (Hheap_eq : length (heap (step int_of_str i c)) = length (heap c))
    by (rewrite Hstep; cbn [heap]; apply length_heap_update).
  assert (Hpc : pc (step int_of_str i c) = WinCheck)
    by (rewrite Hstep; reflexivity).
  split_inv.
  - rewrite Hstate. exact Hcast.
  - unfold heap_ok. rewrite Hstate, Hheap_eq. exact Hheap.
  - destruct Htal as [_ Hcount]. unfold tallied.
    rewrite Hrc', Hstate. cbn [mission_results append_result].
    unfold good_wins_count, evil_wins_count.
    cbn [mission_results append_result].
    split; [apply count_split|].
    rewrite Hrc, filter_app in Hcount. cbn [filter] in Hcount.
    unfold success_set at 2 in Hcount. rewrite Hsu, app_nil_r in Hcount.
    rewrite filter_app, !length_app, Hcount. cbn [filter].
    unfold success_set at 2. unfold written. cbn [success set_success length].
    reflexivity.
  - unfold at_pc. rewrite Hpc.
    refine (conj _ (conj _ _)).
    + rewrite Hstate. exact Hcr.
    + rewrite Hstate. apply one_more_after. exact Hnw.
    + unfold rounds_upto in *. rewrite Hrc'. unfold this_round in *.
      rewrite Hstate. cbn [current_round append_result].
      rewrite Hrc in Hup. apply Forall_app in Hup. destruct Hup as [Hold Hlast].
      apply Forall_app. split; [exact Hold|].
      inversion Hlast; subst. constructor; [|constructor].
      rewrite Hround. assumption.
Qed.

(** Ending the game leaves the records and the score as they are. *)
Lemma end_game_keeps c c' w reason :
  heap c' = heap c -> state c' = end_game (state c) w reason ->
  cast_ok (state c) -> heap_ok c -> tallied c ->
  cast_ok (state c') /\ heap_ok c' /\ tallied c'.
Proof.
  intros Hh Hs Hcast Hheap Htal.
  unfold heap_ok, tallied, records, good_wins_count, evil_wins_count in *.
  rewrite Hh, Hs. cbn [mission_records mission_results end_game players
                       current_leader_idx].
  refine (conj _ (conj Hheap Htal)). exact Hcast.
Qed.

Lemma step_WinCheck i h s rec apd :
  Inv {| heap := h; state := s; record := rec; assassin_phase_data := apd;
         pc := WinCheck |} ->
  Inv (step int_of_str i
         {| heap := h; state := s; record := rec; assassin_phase_data := apd;
            pc := WinCheck |}).
Proof.
  intros (Hcast & Hheap & Htal & Hcr & Hone & Hup).
  set (c := {| heap := h; state := s; record := rec;
               assassin_phase_data := apd; pc := WinCheck |}) in *.
  unfold step. cbn [pc state c].
  destruct (3 <=? good_wins_count s) eqn:Eg.
  - apply Nat.leb_le in Eg.
    split_inv; [exact Hcast|exact Hheap|exact Htal|exact Eg].
  - destruct (3 <=? evil_wins_count s) eqn:Ee.
    + match goal with |- Inv ?x => set (c' := x) end.
      destruct (end_game_keeps c c' (u "evil") REASON_FAILS eq_refl eq_refl
                  Hcast Hheap Htal) as (H1 & H2 & H3).
      split_inv; [exact H1|exact H2|exact H3|exact I].
    + apply Nat.leb_gt in Eg. apply Nat.leb_gt in Ee.
      split_inv; [exact Hcast|exact Hheap|exact Htal|].
      unfold at_pc. cbn [pc goto].
      refine (conj Hcr (conj (conj Eg Ee) Hup)).
Qed.

Lemma step_Assassination i h s rec apd :
  Inv {| heap := h; state := s; record := rec; assassin_phase_data := apd;
         pc := Assassination |} ->
  Inv (step int_of_str i
         {| heap := h; state := s; record := rec; assassin_phase_data := apd;
            pc := Assassination |}).
Proof.
  intros (Hcast & Hheap & Htal & Hat).
  set (c := {| heap := h; state := s; record := rec;
               assassin_phase_data := apd; pc := Assassination |}) in *.
  unfold step. cbn [pc state heap record assassin_phase_data c].
  destruct (execute_assassin_phase int_of_str i s) as [d|e].
  - match goal with |- Inv ?x => set (c' := x) end.
    destruct (merlin_killed d) eqn:Ek.
    + destruct (end_game_keeps c c' (u "evil") REASON_MERLIN eq_refl) as (H1 & H2 & H3);
        [unfold c'; cbn [state]; try rewrite Ek; reflexivity
        |exact Hcast|exact Hheap|exact Htal|].
      split_inv; [exact H1|exact H2|exact H3|exact I].
    + destruct (end_game_keeps c c' (u "good") REASON_GOOD eq_refl) as (H1 & H2 & H3);
        [unfold c'; cbn [state]; try rewrite Ek; reflexivity
        |exact Hcast|exact Hheap|exact Htal|].
      split_inv; [exact H1|exact H2|exact H3|exact I].
  - split_inv; [exact Hcast|exact Hheap|exact Htal|exact I].
Qed.

(** Every phase of [run] preserves the invariant. *)
Theorem Inv_step i c : Inv c -> Inv (step int_of_str i c).
Proof.
  destruct c as [h s rec apd p]. destruct p.
  - apply step_RoundStart.
  - apply step_TeamProposal.
  - apply step_Discussion.
  - apply step_Vote.
  - apply step_Tally.
  - apply step_next_leader. left. reflexivity.
  - apply step_Mission.
  - apply step_WinCheck.
  - apply step_Assassination.
  - apply step_next_leader. right. reflexivity.
  - intros H. exact H.
  - intros H. exact H.
Qed.

Theorem Inv_reachable c :
  reachable int_of_str role_ids leader c -> Inv c.
Proof.
  induction 1 as [|c i _ IH].
  - apply Inv_start.
  - apply Inv_step. exact IH.
Qed.

End Reach.

End EngineSpec.

(** ** Claims about the engine *)

Module EngineClaims.
Import Game GameSpec PhaseSpec TeamSpec ParseSpec MissionSpec SetupSpec EngineSpec.

Lemma reachable_run int_of_str role_ids leader script : forall c,
  reachable int_of_str role_ids leader c ->
  reachable int_of_str role_ids leader (run int_of_str script c).
Proof.
  unfold run. induction script as [|i script IH]; intros c Hc; simpl.
  - exact Hc.
  - apply IH. apply reach_step. exact Hc.
Qed.

Lemma scenario_reachable leader script :
  reachable Scenario.digits_value ROLES_CONFIG leader
            (Scenario.play script (Scenario.game leader)).
Proof. apply reachable_run. apply reach_start. Qed.

Lemma scenario_setup leader :
  (0 <= leader < 6)%Z -> valid_setup ROLES_CONFIG leader.
Proof. intros H. split; [apply Permutation_refl|exact H]. Qed.

(** Claim C8. At every point of a game the two scores add up to the number
    of mission outcomes, which is the number of listed records with an
    outcome; and this still holds after any further phase (team proposal,
    discussion, vote, tally, mission, win check, assassination, rotation). *)
Theorem score_counts_finished_missions int_of_str role_ids leader c :
  valid_setup role_ids leader ->
  reachable int_of_str role_ids leader c ->
  (good_wins_count (state c) + evil_wins_count (state c)
   = length (mission_results (state c)) /\
   length (mission_results (state c)) = length (filter success_set (records c)))
  /\
  forall i,
    good_wins_count (state (step int_of_str i c))
    + evil_wins_count (state (step int_of_str i c))
    = length (mission_results (state (step int_of_str i c))) /\
    length (mission_results (state (step int_of_str i c)))
    = length (filter success_set (records (step int_of_str i c))).
Proof.
  intros Hsetup Hreach. split.
  - apply (Inv_reachable int_of_str role_ids leader Hsetup c Hreach).
  - intros i.
    apply (Inv_reachable int_of_str role_ids leader Hsetup
             (step int_of_str i c)).
    apply reach_step. exact Hreach.
Qed.

Lemma score_counts_finished_missions_witness :
  (valid_setup ROLES_CONFIG 4 /\
   reachable Scenario.digits_value ROLES_CONFIG 4 Scenario.third_success) /\
  good_wins_count (state Scenario.third_success)
  + evil_wins_count (state Scenario.third_success) = 3 /\
  length (filter success_set (records Scenario.third_success)) = 3.
Proof.
  assert (H1 : valid_setup ROLES_CONFIG 4) by (apply scenario_setup; lia).
  assert (H2 : reachable Scenario.digits_value ROLES_CONFIG 4
                         Scenario.third_success)
    by apply scenario_reachable.
  split; [exact (conj H1 H2)|].
  destruct (score_counts_finished_missions
              Scenario.digits_value ROLES_CONFIG 4 Scenario.third_success H1 H2)
    as [[Hsum Hcount] _].
  split.
  - rewrite Hsum. vm_compute. reflexivity.
  - rewrite <- Hcount. vm_compute. reflexivity.
Defined.

Lemma get_player_nonneg s pid :
  (0 <= pid)%Z -> get_player s pid = nth_error (players s) (Z.to_nat pid).
Proof.
  intros H. unfold get_player, index.
  destruct (Z.ltb_spec pid 0); [lia|reflexivity].
Qed.



(** *** The vote and the reject counter *)

Lemma team_phase_state int_of_str i s s1 team :
  execute_team_phase int_of_str i s = Ok (s1, team) ->
  s1 = set_proposed_team s team.
Proof.
  unfold execute_team_phase.
  destruct (player_at s (current_leader_idx s)); cbn [bind]; [|discriminate].
  destruct (agent_of s (player_id a)); cbn [bind]; [|discriminate].
  destruct (nth_error MISSION_TEAM_SIZES (current_round s)); [|discriminate].
  destruct (_parse_team _ _ _ _ _); cbn [bind]; [|discriminate].
  match goal with
  | |- bind ?m _ = _ -> _ => destruct m; cbn [bind]; [|discriminate]
  end.
  intros H. injection H as <- <-. reflexivity.
Qed.

Lemma mission_state i s h record h' s1 ok :
  execute_mission i s h record = Ok (h', s1, ok) -> s1 = append_result s ok.
Proof.
  unfold execute_mission.
  destruct (nth_error MISSION_FAIL_REQUIRED (current_round s)); [|discriminate].
  destruct (fold_left _ _ _); cbn [bind]; [|discriminate].
  intros H. injection H as <- <- <-. reflexivity.
Qed.

Lemma next_leader_state s s1 :
  next_leader s = Ok s1 ->
  consecutive_rejects s1 = consecutive_rejects s /\
  game_over s1 = game_over s /\ winner s1 = winner s /\
  mission_results s1 = mission_results s.
Proof.
  unfold next_leader. destruct (players s); [discriminate|].
  intros H. injection H as <-. repeat split.
Qed.









(** Claim C3 fails on the code. The leader's reply [{"team": 5}] is a JSON
    object whose [team] is not iterable: the comprehension of [_parse_team]
    raises [TypeError], which [except (json.JSONDecodeError, ValueError,
    KeyError)] does not catch.  The exception leaves [execute_team_phase] and
    [run]: no team is stored. *)
Theorem team_reply_type_error (int_of_str : pystr -> option Z) :
  (forall self k draws,
      _parse_team int_of_str Scenario.team_is_a_number self k draws
      = Raise TypeError) /\
  (forall role_ids leader c i,
      valid_setup role_ids leader ->
      reachable int_of_str role_ids leader c ->
      pc c = TeamProposal ->
      in_team i = Scenario.team_is_a_number ->
      execute_team_phase int_of_str i (state c) = Raise TypeError /\
      step int_of_str i c = goto c (Crashed TypeError)) /\
  let crashed :=
    run int_of_str
        [Scenario.rejecting;
         Scenario.inputs Scenario.team_is_a_number true true]
        (Scenario.game 0) in
  pc crashed = Crashed TypeError /\ proposed_team (state crashed) = [].
Proof.
  split; [|split].
  - intros self k draws. reflexivity.
  - intros role_ids leader c i Hsetup Hreach Hpc Hi.
    destruct (Inv_reachable int_of_str role_ids leader Hsetup c Hreach)
      as (Hcast & _ & _ & Hat).
    unfold at_pc in Hat. rewrite Hpc in Hat.
    destruct (team_size_exists _ (proj1 Hat)) as [k Hk].
    pose proof (team_phase_outcome int_of_str i (state c) k
                  (cast_ok_seated role_ids leader Hsetup _ Hcast) Hk) as Hout.
    rewrite Hi in Hout. change (parse_team_json int_of_str
                                  Scenario.team_is_a_number k)
      with (@Raise (option (list Z)) TypeError) in Hout.
    split; [exact Hout|]. unfold step. rewrite Hpc, Hout. reflexivity.
  - vm_compute. split; reflexivity.
Qed.

Lemma team_reply_type_error_witness :
  (valid_setup ROLES_CONFIG 0 /\
   reachable Scenario.digits_value ROLES_CONFIG 0
             (Scenario.play [Scenario.rejecting] (Scenario.game 0)) /\
   pc (Scenario.play [Scenario.rejecting] (Scenario.game 0)) = TeamProposal /\
   in_team (Scenario.inputs Scenario.team_is_a_number true true)
   = Scenario.team_is_a_number) /\
  pc (step Scenario.digits_value
           (Scenario.inputs Scenario.team_is_a_number true true)
           (Scenario.play [Scenario.rejecting] (Scenario.game 0)))
  = Crashed TypeError.
Proof.
  assert (H1 : valid_setup ROLES_CONFIG 0) by (apply scenario_setup; lia).
  assert (H2 : reachable Scenario.digits_value ROLES_CONFIG 0
                 (Scenario.play [Scenario.rejecting] (Scenario.game 0)))
    by apply scenario_reachable.
  assert (H3 : pc (Scenario.play [Scenario.rejecting] (Scenario.game 0))
               = TeamProposal) by reflexivity.
  assert (H4 : in_team (Scenario.inputs Scenario.team_is_a_number true true)
               = Scenario.team_is_a_number) by reflexivity.
  split; [exact (conj H1 (conj H2 (conj H3 H4)))|].
  destruct (proj1 (proj2 (team_reply_type_error Scenario.digits_value))
              ROLES_CONFIG 0%Z _ _ H1 H2 H3 H4) as [_ Hstep].
  rewrite Hstep. reflexivity.
Defined.

End EngineClaims.

(** ** The cast: who holds which role, and what the night phase tells *)

Module CastSpec.
Import Game GameSpec PhaseSpec TeamSpec ParseSpec MissionSpec SetupSpec EngineSpec.

Lemma find_over_app {A} (f : A -> bool) l1 l2 :
  find f (l1 ++ l2)
  = match find f l1 with
    | Some x => Some x
    | None => find f l2
    end.
Proof.
  induction l1 as [|x l1 IH]; simpl; [reflexivity|].
  destruct (f x); [reflexivity|exact IH].
Qed.

(** A loop that keeps the last match is a search from the end. *)
Lemma fold_last_find {A B} (f : A -> bool) (g : A -> B) (l : list A) : forall acc,
  fold_left (fun acc p => if f p then Some (g p) else acc) l acc
  = match find f (rev l) with
    | Some x => Some (g x)
    | None => acc
    end.
Proof.
  induction l as [|p l IH]; intros acc; simpl; [reflexivity|].
  rewrite IH, find_over_app.
  destruct (find f (rev l)); [reflexivity|]. simpl.
  destruct (f p); reflexivity.
Qed.


Lemma find_role_id_unique ps r a :
  In a ps -> role_id (role a) = r ->
  (forall y, In y ps -> role_id (role y) = r -> y = a) ->
  find_role_id ps r = Some (player_id a).
Proof.
  intros Hin Hr Huniq. unfold find_role_id.
  rewrite (fold_last_find (fun p => role_eqb (role_id (role p)) r) player_id).
  rewrite (find_unique (fun p => role_eqb (role_id (role p)) r) (rev ps) a).
  - reflexivity.
  - apply in_rev in Hin. exact Hin.
  - rewrite Hr. destruct r; reflexivity.
  - intros y Hy Hfy. apply Huniq; [apply in_rev; exact Hy|].
    destruct (role_id (role y)), r; simpl in Hfy; congruence.
Qed.

Lemma combine_seq_nth_r {A} n : forall a (rs : list A) k j r,
  nth_error (combine (seq a n) rs) k = Some (j, r) -> nth_error rs k = Some r.
Proof.
  induction n as [|n IH]; intros a rs k j r; simpl.
  - destruct k; discriminate.
  - destruct rs as [|r0 rs]; [destruct k; discriminate|].
    destruct k as [|k]; simpl.
    + intros H. injection H as _ <-. reflexivity.
    + apply IH.
Qed.

Lemma combine_seq_nth_intro {A} n : forall a (rs : list A) k r,
  k < n -> nth_error rs k = Some r ->
  nth_error (combine (seq a n) rs) k = Some (a + k, r).
Proof.
  induction n as [|n IH]; intros a rs k r Hk; [lia|]. simpl.
  destruct rs as [|r0 rs]; [destruct k; discriminate|].
  destruct k as [|k]; simpl.
  - intros H. injection H as <-. rewrite Nat.add_0_r. reflexivity.
  - intros H. rewrite (IH (S a) rs k r) by (lia || exact H).
    f_equal. f_equal. lia.
Qed.

Lemma role_id_ROLES r : role_id (ROLES r) = r.
Proof. destruct r; reflexivity. Qed.

Section Cast.

Variables (role_ids : list RoleId) (leader : Z).
Hypothesis Hsetup : valid_setup role_ids leader.

(** The seats: position [k] holds player [k] with role [role_ids[k]]. *)
Definition seats : list (Z * RoleInfo) :=
  map (fun ir => (Z.of_nat (fst ir), ROLES (snd ir)))
      (combine (seq 0 PLAYER_COUNT) role_ids).


Lemma role_ids_NoDup : NoDup role_ids.
Proof.
  destruct Hsetup as [Hperm _]. apply Permutation_sym in Hperm.
  eapply Permutation_NoDup; [exact Hperm|].
  unfold ROLES_CONFIG. repeat constructor; simpl; intuition discriminate.
Qed.

Lemma role_ids_all r : In r role_ids.
Proof.
  destruct Hsetup as [Hperm _]. apply Permutation_sym in Hperm.
  eapply Permutation_in; [exact Hperm|].
  unfold ROLES_CONFIG. destruct r; simpl; tauto.
Qed.

(** A seated player and its role. *)
Lemma seat_role ps k p :
  identity_list ps = seats -> nth_error ps k = Some p ->
  exists r, nth_error role_ids k = Some r /\ role p = ROLES r /\
            player_id p = Z.of_nat k.
Proof.
  intros Hid Hk.
  apply (map_nth_error (fun p => (player_id p, role p))) in Hk.
  fold (identity_list ps) in Hk. rewrite Hid in Hk. unfold seats in Hk.
  rewrite nth_error_map in Hk.
  destruct (nth_error (combine (seq 0 PLAYER_COUNT) role_ids) k) as [[j r]|] eqn:E;
    [|discriminate].
  simpl in Hk. injection Hk as Hj Hr.
  pose proof (combine_seq_nth _ _ _ _ _ _ E) as Ej.
  apply combine_seq_nth_r in E.
  exists r. split; [exact E|]. split; [congruence|]. rewrite <- Hj. f_equal. lia.
Qed.

(** Every role is held by exactly one seated player. *)
Lemma role_holder ps r :
  identity_list ps = seats ->
  exists k p,
    nth_error ps k = Some p /\ role p = ROLES r /\ player_id p = Z.of_nat k /\
    forall k' p', nth_error ps k' = Some p' -> role_id (role p') = r ->
                  k' = k /\ p' = p.
Proof.
  intros Hid.
  destruct (In_nth_error _ _ (role_ids_all r)) as [k Hk].
  assert (Hlt : k < PLAYER_COUNT).
  { rewrite <- (role_ids_length role_ids leader Hsetup).
    apply nth_error_Some. congruence. }
  pose proof (combine_seq_nth_intro PLAYER_COUNT 0 role_ids k r Hlt Hk) as Hc.
  assert (Hseat : nth_error seats k = Some (Z.of_nat k, ROLES r)).
  { unfold seats. rewrite nth_error_map, Hc. reflexivity. }
  rewrite <- Hid in Hseat. unfold identity_list in Hseat.
  rewrite nth_error_map in Hseat.
  destruct (nth_error ps k) as [p|] eqn:Hp; [|discriminate].
  simpl in Hseat. injection Hseat as Hpid Hprole.
  exists k, p. repeat split; auto.
  - destruct (seat_role ps k' p' Hid H) as (r' & Hr' & Hrole' & _).
    rewrite Hrole', role_id_ROLES in H0. subst r'.
    eapply (proj1 (NoDup_nth_error role_ids) role_ids_NoDup); [|congruence].
    apply nth_error_Some. congruence.
  - destruct (seat_role ps k' p' Hid H) as (r' & Hr' & Hrole' & _).
    rewrite Hrole', role_id_ROLES in H0. subst r'.
    assert (k' = k).
    { eapply (proj1 (NoDup_nth_error role_ids) role_ids_NoDup); [|congruence].
      apply nth_error_Some. congruence. }
    subst k'. congruence.
Qed.

(** *** The night phase *)






Lemma setup_positions : positions_ok (players (setup role_ids leader)).
Proof. eapply identity_positions. apply setup_identity. Qed.




(** *** Who is who *)







Lemma role_eqb_eq a b : role_eqb a b = true -> a = b.
Proof. destruct a, b; simpl; intros H; try discriminate; reflexivity. Qed.

(** *** The assassin's reply *)

Variable int_of_str : pystr -> option Z.



(** *** [execute_assassin_phase] *)


End Cast.

End CastSpec.

(** ** Win resolution *)

Module WinSpec.
Import Game GameSpec SetupSpec EngineSpec EngineClaims CastSpec.

(** No winner was declared and no assassin phase has run. *)
Definition undecided (c : Config) : Prop :=
  game_over (state c) = false /\ winner (state c) = None /\
  assassin_phase_data c = None.

Lemma undecided_step int_of_str i c :
  undecided c -> pc (step int_of_str i c) <> Terminal ->
  undecided (step int_of_str i c).
Proof.
  intros (Hg & Hw & Hd). unfold undecided, step.
  destruct (pc c) as [r| | | |approved| | | | | | |].
  - destruct (r <? 5); cbn; intros Hpc; [auto|congruence].
  - destruct (execute_team_phase int_of_str i (state c)) as [[s1 team]|] eqn:E;
      [|cbn; auto].
    apply team_phase_state in E. subst s1. cbn. auto.
  - destruct (execute_discussion i (state c) (heap c) (record c)); cbn; auto.
  - destruct (execute_vote i (state c) (heap c) (record c)) as [[h' a]|];
      cbn; auto.
  - destruct approved; [cbn; auto|].
    destruct (MAX_TEAM_VOTES <=? _); cbn; intros Hpc; [congruence|auto].
  - destruct (next_leader (state c)) as [s1|] eqn:E; [|cbn; auto].
    apply next_leader_state in E. destruct E as (_ & E1 & E2 & _).
    cbn. rewrite E1, E2. auto.
  - destruct (execute_mission i (state c) (heap c) (record c))
      as [[[h' s1] ok]|] eqn:E; [|cbn; auto].
    apply mission_state in E. subst s1. cbn. auto.
  - destruct (3 <=? good_wins_count (state c)); [cbn; auto|].
    destruct (3 <=? evil_wins_count (state c)); cbn; intros Hpc;
      [congruence|auto].
  - destruct (execute_assassin_phase int_of_str i (state c)) as [d|];
      cbn; intros Hpc; [congruence|auto].
  - destruct (next_leader (state c)) as [s1|] eqn:E; [|cbn; auto].
    apply next_leader_state in E. destruct E as (_ & E1 & E2 & _).
    cbn. rewrite E1, E2. auto.
  - cbn. auto.
  - cbn. auto.
Qed.

(** As long as [run] has not returned the game is undecided. *)
Lemma undecided_reachable int_of_str role_ids leader c :
  reachable int_of_str role_ids leader c -> pc c <> Terminal -> undecided c.
Proof.
  induction 1 as [|c i Hreach IH]; intros Hpc.
  - repeat split.
  - apply undecided_step; [|exact Hpc].
    apply IH. intros E. apply Hpc. unfold step. rewrite E. exact E.
Qed.


(** The [try] block of [_parse_target] lists [json.JSONDecodeError] and
    [ValueError] only: on the reply [{"target": null}] the [TypeError] of
    [int(None)] leaves [_parse_target], the phase and [run], and no winner is
    set. *)
Lemma target_reply_type_error (int_of_str : pystr -> option Z) :
  (forall self draws,
      _parse_target int_of_str Scenario.target_is_null self draws
      = Raise TypeError) /\
  let crashed :=
    step int_of_str (Scenario.answering Scenario.target_is_null)
         Scenario.assassin_turn in
  pc crashed = Crashed TypeError /\ game_over (state crashed) = false /\
  winner (state crashed) = None /\ assassin_phase_data crashed = None.
Proof.
  split; [intros self draws; reflexivity|].
  vm_compute. repeat split.
Qed.

End WinSpec.

Module WinClaims.
Import Game GameSpec SetupSpec EngineSpec EngineClaims CastSpec WinSpec.



End WinClaims.

(** ** The length and the outcome of a game *)

Module RunSpec.
Import Game GameSpec SetupSpec EngineSpec EngineClaims WinSpec.

(** An upper bound on the phases still to come: 28 for each later round
    (round start, four rejected proposals of five phases, a fifth proposal of
    four, mission, win check, rotation), and what is left of this one. *)
Definition phases_left (c : Config) : nat :=
  let later := 28 * (4 - current_round (state c)) + 1 in
  let j := consecutive_rejects (state c) in
  match pc c with
  | RoundStart r => 28 * (5 - r) + 1
  | TeamProposal => later + 5 * (4 - j) + 7
  | Discussion => later + 5 * (4 - j) + 6
  | Vote => later + 5 * (4 - j) + 5
  | Tally _ => later + 5 * (4 - j) + 4
  | LeaderRotation => later + 5 * (4 - j) + 8
  | Mission => later + 3
  | WinCheck => later + 2
  | Assassination => later + 1
  | NextRound => later + 1
  | Terminal => 0
  | Crashed _ => 0
  end.

(** [run] has returned, or an exception has left it. *)
Definition stopped (c : Config) : Prop :=
  pc c = Terminal \/ exists e, pc c = Crashed e.

Lemma next_leader_keeps s s1 :
  next_leader s = Ok s1 ->
  current_round s1 = current_round s /\
  consecutive_rejects s1 = consecutive_rejects s /\
  mission_results s1 = mission_results s /\
  mission_records s1 = mission_records s /\
  proposed_team s1 = proposed_team s /\
  game_over s1 = game_over s /\ winner s1 = winner s /\
  end_reason s1 = end_reason s.
Proof.
  unfold next_leader. destruct (players s); [discriminate|].
  intros H. injection H as <-. repeat split.
Qed.

Lemma phases_left_step int_of_str i c :
  ~ stopped c -> phases_left (step int_of_str i c) < phases_left c.
Proof.
  intros Hrun. unfold step, phases_left.
  destruct (pc c) as [r| | | |approved| | | | | | |e] eqn:Hpc.
  - destruct (Nat.ltb_spec r 5); cbn [pc state with_state goto begin_round
                                      current_round consecutive_rejects]; lia.
  - destruct (execute_team_phase int_of_str i (state c)) as [[s1 team]|] eqn:E.
    + apply team_phase_state in E. subst s1.
      cbn [pc state set_proposed_team current_round consecutive_rejects]. lia.
    + cbn [pc goto]. lia.
  - destruct (execute_discussion i (state c) (heap c) (record c));
      cbn [pc state with_heap goto]; lia.
  - destruct (execute_vote i (state c) (heap c) (record c)) as [[h' a]|];
      cbn [pc state with_heap goto]; lia.
  - destruct approved.
    + cbn [pc state with_state append_record current_round consecutive_rejects].
      lia.
    + cbn [consecutive_rejects count_reject append_record].
      destruct (Nat.leb_spec MAX_TEAM_VOTES (consecutive_rejects (state c) + 1))
        as [H|H];
        cbn [pc state with_state end_game count_reject append_record
             current_round consecutive_rejects];
        unfold MAX_TEAM_VOTES in H; lia.
  - destruct (next_leader (state c)) as [s1|] eqn:E.
    + apply next_leader_keeps in E. destruct E as (E1 & E2 & _).
      cbn [pc state with_state]. rewrite E1, E2. lia.
    + cbn [pc goto]. lia.
  - destruct (execute_mission i (state c) (heap c) (record c))
      as [[[h' s1] ok]|] eqn:E.
    + apply mission_state in E. subst s1.
      cbn [pc state append_result current_round]. lia.
    + cbn [pc goto]. lia.
  - destruct (3 <=? good_wins_count (state c)); [cbn [pc state goto]; lia|].
    destruct (3 <=? evil_wins_count (state c));
      cbn [pc state goto with_state end_game current_round]; lia.
  - destruct (execute_assassin_phase int_of_str i (state c)) as [d|];
      cbn [pc goto]; lia.
  - destruct (next_leader (state c)) as [s1|] eqn:E.
    + apply next_leader_keeps in E. destruct E as (E1 & _).
      cbn [pc state with_state]. rewrite E1. lia.
    + cbn [pc goto]. lia.
  - exfalso. apply Hrun. left. exact Hpc.
  - exfalso. apply Hrun. right. exists e. exact Hpc.
Qed.

Lemma stopped_step int_of_str i c : stopped c -> step int_of_str i c = c.
Proof.
  intros [H|[e H]]; unfold step; rewrite H; reflexivity.
Qed.

Lemma stopped_run int_of_str script c :
  stopped c -> run int_of_str script c = c.
Proof.
  intros H. unfold run. induction script as [|i script IH]; simpl.
  - reflexivity.
  - rewrite (stopped_step int_of_str i c H). exact IH.
Qed.

Lemma stopped_dec c : stopped c \/ ~ stopped c.
Proof.
  unfold stopped. destruct (pc c); try (left; left; reflexivity);
    try (left; right; eexists; reflexivity);
    right; intros [H|[e H]]; discriminate.
Qed.

Lemma run_stops int_of_str : forall script c,
  phases_left c <= length script -> stopped (run int_of_str script c).
Proof.
  induction script as [|i script IH]; intros c Hlen.
  - destruct (stopped_dec c) as [H|H]; [exact H|].
    exfalso. simpl in Hlen.
    pose proof (phases_left_step int_of_str
                  Scenario.approving c H). lia.
  - destruct (stopped_dec c) as [H|H].
    + rewrite stopped_run by exact H. exact H.
    + change (run int_of_str (i :: script) c)
        with (run int_of_str script (step int_of_str i c)).
      apply IH. pose proof (phases_left_step int_of_str i c H).
      simpl in Hlen. lia.
Qed.

Section Outcome.

Variable int_of_str : pystr -> option Z.
Variables (role_ids : list RoleId) (leader : Z).
Hypothesis Hsetup : valid_setup role_ids leader.

(** How a game that [run] has finished stands: it is over, with one of the
    four endings of [run]. *)
Definition outcome (c : Config) : Prop :=
  game_over (state c) = true /\
  ((winner (state c) = Some (u "evil") /\
    end_reason (state c) = REASON_REJECTS /\
    consecutive_rejects (state c) = MAX_TEAM_VOTES /\
    no_winner (state c) /\ assassin_phase_data c = None) \/
   (winner (state c) = Some (u "evil") /\
    end_reason (state c) = REASON_MERLIN /\
    good_wins_count (state c) = 3 /\
    exists d, assassin_phase_data c = Some d /\ merlin_killed d = true) \/
   (winner (state c) = Some (u "good") /\
    end_reason (state c) = REASON_GOOD /\
    good_wins_count (state c) = 3 /\
    exists d, assassin_phase_data c = Some d /\ merlin_killed d = false) \/
   (winner (state c) = Some (u "evil") /\
    end_reason (state c) = REASON_FAILS /\
    evil_wins_count (state c) = 3 /\ good_wins_count (state c) < 3 /\
    assassin_phase_data c = None)).

(** The missions played keep pace with the rounds. *)
Definition paced (c : Config) : Prop :=
  one_more (state c) /\ current_round (state c) < 5 /\
  length (mission_results (state c)) <= S (current_round (state c)) /\
  match pc c with
  | RoundStart r => length (mission_results (state c)) = r
  | TeamProposal | Discussion | Vote | Tally _ | LeaderRotation | Mission =>
    length (mission_results (state c)) = current_round (state c)
  | WinCheck | NextRound =>
    length (mission_results (state c)) = S (current_round (state c))
  | Assassination =>
    good_wins_count (state c) = 3 /\ evil_wins_count (state c) < 3
  | Terminal => outcome c
  | Crashed _ => True
  end.

Ltac crunch :=
  unfold paced, outcome, one_more, no_winner, good_wins_count, evil_wins_count,
    MAX_TEAM_VOTES in *;
  cbn [pc state assassin_phase_data goto with_state with_heap begin_round
       append_record count_reject end_game set_proposed_team append_result
       mission_results current_round consecutive_rejects game_over winner
       end_reason] in *.

Lemma paced_step i c :
  Inv role_ids leader c -> (pc c <> Terminal -> undecided c) -> paced c ->
  paced (step int_of_str i c).
Proof.
  intros (_ & _ & _ & Hat) Hund (Hone & Hcr & Hle & Hpc).
  pose proof (count_split (mission_results (state c))) as Hsplit.
  unfold at_pc in Hat. revert Hat Hpc Hund. unfold step.
  destruct (pc c) as [r| | | |approved| | | | | | |e] eqn:Epc;
    intros Hat Hpc Hund.
  - destruct Hat as (_ & _ & Hnw).
    destruct (Nat.ltb_spec r 5); crunch; [lia|lia].
  - destruct (execute_team_phase int_of_str i (state c)) as [[s1 team]|] eqn:E.
    + apply team_phase_state in E. subst s1. crunch. lia.
    + crunch. lia.
  - destruct (execute_discussion i (state c) (heap c) (record c)); crunch; lia.
  - destruct (execute_vote i (state c) (heap c) (record c)) as [[h' a]|];
      crunch; lia.
  - destruct Hat as ((_ & Hrej & _ & _ & _ & Hnw) & _).
    destruct (Hund ltac:(discriminate)) as (_ & _ & Hd).
    destruct approved; [crunch; lia|].
    cbn [consecutive_rejects count_reject append_record].
    destruct (Nat.leb_spec MAX_TEAM_VOTES (consecutive_rejects (state c) + 1));
      crunch; [|lia].
    refine (conj Hone (conj Hcr (conj Hle (conj eq_refl _)))).
    left. refine (conj eq_refl (conj eq_refl (conj _ (conj Hnw Hd)))). lia.
  - destruct (next_leader (state c)) as [s1|] eqn:E.
    + apply next_leader_keeps in E. destruct E as (E1 & _ & E3 & _).
      crunch. rewrite E1, E3. lia.
    + crunch. lia.
  - destruct Hat as (_ & Hnw & _).
    destruct (execute_mission i (state c) (heap c) (record c))
      as [[[h' s1] ok]|] eqn:E.
    + apply mission_state in E. subst s1.
      pose proof (one_more_after (state c) ok Hnw) as Hone'.
      crunch. rewrite length_app. cbn [length]. lia.
    + crunch. lia.
  - destruct (Hund ltac:(discriminate)) as (_ & _ & Hd).
    destruct (Nat.leb_spec 3 (good_wins_count (state c))) as [Hg|Hg];
      [crunch; lia|].
    destruct (Nat.leb_spec 3 (evil_wins_count (state c))) as [He|He];
      crunch; [|lia].
    refine (conj Hone (conj Hcr (conj Hle (conj eq_refl _)))).
    right. right. right.
    refine (conj eq_refl (conj eq_refl (conj _ (conj Hg Hd)))). lia.
  - destruct (execute_assassin_phase int_of_str i (state c)) as [d|];
      [|crunch; lia].
    destruct Hpc as [Hg He].
    unfold paced, outcome. cbn [pc state assassin_phase_data].
    destruct (merlin_killed d) eqn:Hk.
    + unfold one_more, good_wins_count, evil_wins_count in *.
      cbn [end_game mission_results current_round game_over winner end_reason].
      split; [exact Hone|]. split; [exact Hcr|]. split; [exact Hle|].
      split; [reflexivity|]. right. left.
      split; [reflexivity|]. split; [reflexivity|]. split; [exact Hg|].
      exists d. split; [reflexivity|exact Hk].
    + unfold one_more, good_wins_count, evil_wins_count in *.
      cbn [end_game mission_results current_round game_over winner end_reason].
      split; [exact Hone|]. split; [exact Hcr|]. split; [exact Hle|].
      split; [reflexivity|]. right. right. left.
      split; [reflexivity|]. split; [reflexivity|]. split; [exact Hg|].
      exists d. split; [reflexivity|exact Hk].
  - destruct (next_leader (state c)) as [s1|] eqn:E.
    + apply next_leader_keeps in E. destruct E as (E1 & _ & E3 & _).
      crunch. rewrite E1, E3. lia.
    + crunch. lia.
  - unfold paced. rewrite Epc. exact (conj Hone (conj Hcr (conj Hle Hpc))).
  - unfold paced. rewrite Epc. exact (conj Hone (conj Hcr (conj Hle I))).
Qed.

Lemma paced_reachable c :
  reachable int_of_str role_ids leader c -> paced c.
Proof.
  induction 1 as [|c i Hreach IH].
  - unfold paced, one_more. cbn. lia.
  - apply paced_step.
    + apply (Inv_reachable int_of_str role_ids leader Hsetup c Hreach).
    + apply (undecided_reachable int_of_str role_ids leader c Hreach).
    + exact IH.
Qed.

End Outcome.

End RunSpec.

Module RunFacts.
Import Game GameSpec SetupSpec EngineSpec EngineClaims WinSpec RunSpec.

(** X1. [GameEngine.run] stops, whatever the oracle answers and whatever
    the random draws: every phase of a game that has not stopped lowers
    [phases_left], a bound on the phases to come, so after 141 phases from
    the start [run] has returned or an exception has left it, and nothing
    happens afterwards. *)
Theorem run_stops_within_bound (int_of_str : pystr -> option Z) :
  (forall i c,
      ~ stopped c -> phases_left (step int_of_str i c) < phases_left c) /\
  (forall role_ids leader script more,
      141 <= length script ->
      stopped (run int_of_str script (start role_ids leader)) /\
      run int_of_str (script ++ more) (start role_ids leader)
      = run int_of_str script (start role_ids leader)).
Proof.
  split; [intros i c; apply phases_left_step|].
  intros role_ids leader script more Hlen.
  assert (Hstop : stopped (run int_of_str script (start role_ids leader))).
  { apply run_stops. exact Hlen. }
  split; [exact Hstop|].
  unfold run. rewrite fold_left_app.
  apply (stopped_run int_of_str more _ Hstop).
Qed.

Lemma run_stops_within_bound_witness :
  141 <= length (repeat Scenario.sabotaging 141) /\
  stopped (Scenario.play (repeat Scenario.sabotaging 141) (Scenario.game 2)).
Proof.
  assert (H : 141 <= length (repeat Scenario.sabotaging 141))
    by (vm_compute; lia).
  split; [exact H|].
  exact (proj1 (proj2 (run_stops_within_bound Scenario.digits_value)
                  ROLES_CONFIG 2%Z (repeat Scenario.sabotaging 141) [] H)).
Defined.

(** X2. A game never ends without a winner: the [for] loop of [run] is
    never exhausted (the round counter stays below 5 at its head), and when
    [run] has returned the game is over with one of its four endings: five
    rejected proposals in a round (evil wins, no assassin phase, fewer than
    three wins on each side), Merlin killed after three successes (evil
    wins), Merlin alive after three successes (good wins), or three failures
    with fewer than three successes (evil wins, no assassin phase). *)
Theorem finished_game_has_winner int_of_str role_ids leader c :
  valid_setup role_ids leader ->
  reachable int_of_str role_ids leader c ->
  (forall r, pc c = RoundStart r -> r < 5) /\
  (pc c = Terminal ->
   game_over (state c) = true /\
   (winner (state c) = Some (u "good") \/ winner (state c) = Some (u "evil")) /\
   ((winner (state c) = Some (u "evil") /\
     end_reason (state c) = REASON_REJECTS /\
     consecutive_rejects (state c) = MAX_TEAM_VOTES /\
     no_winner (state c) /\ assassin_phase_data c = None) \/
    (winner (state c) = Some (u "evil") /\
     end_reason (state c) = REASON_MERLIN /\
     good_wins_count (state c) = 3 /\
     exists d, assassin_phase_data c = Some d /\ merlin_killed d = true) \/
    (winner (state c) = Some (u "good") /\
     end_reason (state c) = REASON_GOOD /\
     good_wins_count (state c) = 3 /\
     exists d, assassin_phase_data c = Some d /\ merlin_killed d = false) \/
    (winner (state c) = Some (u "evil") /\
     end_reason (state c) = REASON_FAILS /\
     evil_wins_count (state c) = 3 /\ good_wins_count (state c) < 3 /\
     assassin_phase_data c = None))).
Proof.
  intros Hsetup Hreach.
  destruct (paced_reachable int_of_str role_ids leader Hsetup c Hreach)
    as (Hone & Hcr & Hle & Hpc).
  destruct (Inv_reachable int_of_str role_ids leader Hsetup c Hreach)
    as (_ & _ & _ & Hat).
  unfold at_pc in Hat. split.
  - intros r E. rewrite E in Hat, Hpc. destruct Hat as (_ & _ & Hg & He).
    pose proof (count_split (mission_results (state c))) as Hsplit.
    unfold good_wins_count, evil_wins_count in *. lia.
  - intros E. rewrite E in Hpc. destruct Hpc as [Hover Hcases].
    split; [exact Hover|]. split; [|exact Hcases].
    destruct Hcases as [H|[H|[H|H]]]; destruct H as (Hw & _); auto.
Qed.

Lemma finished_game_has_winner_witness :
  let over := step Scenario.digits_value Scenario.stabbing Scenario.assassin_turn in
  (valid_setup ROLES_CONFIG 4 /\
   reachable Scenario.digits_value ROLES_CONFIG 4 over /\
   pc over = Terminal) /\
  game_over (state over) = true /\
  (winner (state over) = Some (u "good") \/ winner (state over) = Some (u "evil")).
Proof.
  intros over.
  assert (H1 : valid_setup ROLES_CONFIG 4) by (apply scenario_setup; lia).
  assert (H2 : reachable Scenario.digits_value ROLES_CONFIG 4 over).
  { unfold over. apply reach_step.
    change (reachable Scenario.digits_value ROLES_CONFIG 4
              (step Scenario.digits_value Scenario.approving
                    Scenario.third_success)).
    apply reach_step. apply scenario_reachable. }
  assert (H3 : pc over = Terminal) by (vm_compute; reflexivity).
  split; [exact (conj H1 (conj H2 H3))|].
  destruct (finished_game_has_winner Scenario.digits_value ROLES_CONFIG 4 over
              H1 H2) as [_ Hend].
  destruct (Hend H3) as (Hover & Hwin & _).
  exact (conj Hover Hwin).
Defined.

(** X3. In every configuration of a game no side has more than three
    wins and not both have three, at most five missions have been played,
    and the round index stays below 5; while a round's proposals are made and
    until its mission runs, exactly as many missions have been played as
    rounds came before. *)
Theorem scores_stay_within_three int_of_str role_ids leader c :
  valid_setup role_ids leader ->
  reachable int_of_str role_ids leader c ->
  good_wins_count (state c) <= 3 /\ evil_wins_count (state c) <= 3 /\
  ~ (good_wins_count (state c) = 3 /\ evil_wins_count (state c) = 3) /\
  length (mission_results (state c)) <= 5 /\
  current_round (state c) < 5 /\
  (pc c = TeamProposal \/ pc c = Discussion \/ pc c = Vote \/
   (exists b, pc c = Tally b) \/ pc c = LeaderRotation \/ pc c = Mission ->
   length (mission_results (state c)) = current_round (state c)).
Proof.
  intros Hsetup Hreach.
  destruct (paced_reachable int_of_str role_ids leader Hsetup c Hreach)
    as (Hone & Hcr & Hle & Hpc).
  pose proof (count_split (mission_results (state c))) as Hsplit.
  unfold one_more, good_wins_count, evil_wins_count in *.
  refine (conj _ (conj _ (conj _ (conj _ (conj Hcr _))))); try lia.
  intros [E|[E|[E|[[b E]|[E|E]]]]]; rewrite E in Hpc; exact Hpc.
Qed.

Lemma scores_stay_within_three_witness :
  (valid_setup ROLES_CONFIG 4 /\
   reachable Scenario.digits_value ROLES_CONFIG 4 Scenario.third_success) /\
  good_wins_count (state Scenario.third_success) <= 3 /\
  evil_wins_count (state Scenario.third_success) <= 3 /\
  length (mission_results (state Scenario.third_success)) <= 5.
Proof.
  assert (H1 : valid_setup ROLES_CONFIG 4) by (apply scenario_setup; lia).
  assert (H2 : reachable Scenario.digits_value ROLES_CONFIG 4
                 Scenario.third_success) by apply scenario_reachable.
  split; [exact (conj H1 H2)|].
  destruct (scores_stay_within_three Scenario.digits_value ROLES_CONFIG 4
              Scenario.third_success H1 H2) as (A & B & _ & D & _).
  exact (conj A (conj B D)).
Defined.

End RunFacts.

(** ** The leader *)

Module LeaderSpec.
Import Game GameSpec SetupSpec.

(** [k] calls of [next_leader] in a row. *)
Fixpoint rotate (k : nat) (s : GameState) : result GameState :=
  match k with
  | 0 => Ok s
  | S k' => s1 <- next_leader s ;; rotate k' s1
  end.

Lemma set_leader_flags_length ps idx :
  length (set_leader_flags ps idx) = length ps.
Proof. unfold set_leader_flags. apply length_map. Qed.

Lemma set_leader_flags_cast ps idx :
  map forget_leader (set_leader_flags ps idx) = map forget_leader ps.
Proof.
  unfold set_leader_flags. rewrite map_map. apply map_ext. intros p. reflexivity.
Qed.

Lemma set_leader_flags_flag ps idx p :
  In p (set_leader_flags ps idx) -> is_leader p = (player_id p =? idx)%Z.
Proof.
  unfold set_leader_flags. intros H. apply in_map_iff in H.
  destruct H as (q & <- & _). reflexivity.
Qed.

Lemma next_leader_some s :
  players s <> [] ->
  exists s1,
    next_leader s = Ok s1 /\
    current_leader_idx s1
    = ((current_leader_idx s + 1) mod Z.of_nat (length (players s)))%Z /\
    players s1 = set_leader_flags (players s) (current_leader_idx s1).
Proof.
  intros H. unfold next_leader. destruct (players s) as [|p ps] eqn:E;
    [congruence|].
  eexists. split; [reflexivity|]. split; reflexivity.
Qed.

Lemma rotate_index : forall k s,
  players s <> [] ->
  exists s',
    rotate k s = Ok s' /\
    length (players s') = length (players s) /\
    current_leader_idx s'
    = match k with
      | 0 => current_leader_idx s
      | _ => ((current_leader_idx s + Z.of_nat k)
                mod Z.of_nat (length (players s)))%Z
      end.
Proof.
  induction k as [|k IH]; intros s Hne.
  - exists s. repeat split.
  - destruct (next_leader_some s Hne) as (s1 & E & Hidx & Hps).
    assert (Hlen : length (players s1) = length (players s))
      by (rewrite Hps; apply set_leader_flags_length).
    assert (Hne1 : players s1 <> []).
    { intros E1. rewrite E1 in Hlen. destruct (players s); [congruence|].
      discriminate. }
    destruct (IH s1 Hne1) as (s' & Er & Hl & Hi).
    exists s'. cbn [rotate]. rewrite E. cbn [bind].
    split; [exact Er|]. split; [congruence|].
    rewrite Hi, Hlen, Hidx. destruct k as [|k]; [reflexivity|].
    rewrite Z.add_mod_idemp_l.
    + f_equal. lia.
    + destruct (players s); [congruence|]. cbn [length]. lia.
Qed.

End LeaderSpec.

Module LeaderFacts.
Import Game GameSpec SetupSpec LeaderSpec.

(** X4. [next_leader] raises [ZeroDivisionError] when there is no player.
    Otherwise it moves the leader index on by one, round the table, to an
    index that names a player, flags exactly the players with that id, and
    changes nothing else: the players keep their ids, roles and night
    knowledge, and the other fields of the state stay.  As many calls as
    there are players bring the leader index back to where it was. *)
Theorem next_leader_rotates (s : GameState) :
  (players s = [] -> next_leader s = Raise ZeroDivisionError) /\
  (players s <> [] ->
   exists s1,
     next_leader s = Ok s1 /\
     current_leader_idx s1
     = ((current_leader_idx s + 1) mod Z.of_nat (length (players s)))%Z /\
     (0 <= current_leader_idx s1 < Z.of_nat (length (players s)))%Z /\
     length (players s1) = length (players s) /\
     (forall p, In p (players s1) ->
                is_leader p = (player_id p =? current_leader_idx s1)%Z) /\
     map forget_leader (players s1) = map forget_leader (players s) /\
     current_round s1 = current_round s /\
     consecutive_rejects s1 = consecutive_rejects s /\
     mission_results s1 = mission_results s /\
     mission_records s1 = mission_records s /\
     proposed_team s1 = proposed_team s /\
     game_over s1 = game_over s /\ winner s1 = winner s /\
     end_reason s1 = end_reason s) /\
  (players s <> [] ->
   (0 <= current_leader_idx s < Z.of_nat (length (players s)))%Z ->
   exists s', rotate (length (players s)) s = Ok s' /\
              current_leader_idx s' = current_leader_idx s).
Proof.
  split; [|split].
  - intros E. unfold next_leader. rewrite E. reflexivity.
  - intros Hne. destruct (next_leader_some s Hne) as (s1 & E & Hidx & Hps).
    exists s1. split; [exact E|]. split; [exact Hidx|].
    assert (Hpos : (0 < Z.of_nat (length (players s)))%Z).
    { destruct (players s); [congruence|]. cbn [length]. lia. }
    split; [rewrite Hidx; apply Z.mod_pos_bound; exact Hpos|].
    split; [rewrite Hps; apply set_leader_flags_length|].
    split; [intros p Hp; rewrite Hps in Hp;
            apply (set_leader_flags_flag _ _ _ Hp)|].
    split; [rewrite Hps; apply set_leader_flags_cast|].
    unfold next_leader in E. destruct (players s); [congruence|].
    injection E as <-. repeat split.
  - intros Hne Hidx. destruct (rotate_index (length (players s)) s Hne)
      as (s' & E & _ & Hi).
    exists s'. split; [exact E|]. rewrite Hi.
    destruct (length (players s)) as [|n]; [lia|].
    rewrite <- (Z.mul_1_l (Z.of_nat (S n))) at 1.
    rewrite Z.mod_add by lia. apply Z.mod_small. exact Hidx.
Qed.

Lemma next_leader_rotates_witness :
  let s := state (Scenario.game 5) in
  (players s <> [] /\
   (0 <= current_leader_idx s < Z.of_nat (length (players s)))%Z) /\
  (exists s1, next_leader s = Ok s1 /\ current_leader_idx s1 = 0%Z) /\
  (exists s', rotate 6 s = Ok s' /\ current_leader_idx s' = 5%Z).
Proof.
  intros s.
  assert (H1 : players s <> []) by (vm_compute; discriminate).
  assert (H2 : (0 <= current_leader_idx s < Z.of_nat (length (players s)))%Z)
    by (vm_compute; split; [discriminate|reflexivity]).
  split; [exact (conj H1 H2)|].
  destruct (next_leader_rotates s) as (_ & Hnext & Hround).
  destruct (Hnext H1) as (s1 & E & Hidx & _).
  destruct (Hround H1 H2) as (s' & E' & Hidx').
  split; [exists s1; split; [exact E|exact Hidx]|].
  exists s'. split; [exact E'|exact Hidx'].
Defined.

End LeaderFacts.

(** ** What the night phase tells each player *)

Module NightSpec.
Import Game GameSpec TeamSpec SetupSpec CastSpec.

Lemma find_role_id_some ps r z :
  find_role_id ps r = Some z ->
  exists p, In p ps /\ player_id p = z /\ role_id (role p) = r.
Proof.
  unfold find_role_id.
  rewrite (fold_last_find (fun p => role_eqb (role_id (role p)) r) player_id).
  destruct (find _ (rev ps)) as [p|] eqn:E; [|discriminate].
  intros H. injection H as <-. apply find_some in E. destruct E as [Hin Hr].
  exists p. split; [apply in_rev; exact Hin|]. split; [reflexivity|].
  apply role_eqb_eq. exact Hr.
Qed.

Lemma find_role_id_none ps r :
  find_role_id ps r = None -> forall p, In p ps -> role_id (role p) <> r.
Proof.
  unfold find_role_id.
  rewrite (fold_last_find (fun p => role_eqb (role_id (role p)) r) player_id).
  destruct (find _ (rev ps)) as [q|] eqn:E; [discriminate|].
  intros _ p Hp Hr. apply in_rev in Hp.
  pose proof (find_none _ _ E p Hp) as H. cbv beta in H. rewrite Hr in H.
  destruct r; discriminate.
Qed.

(** The loop [for eid in evil_ids: players[eid].known_allies = ...], seen
    from one seat. *)
Lemma fold_update_nth (F : Z -> Player -> Player) : forall l acc k,
  (forall e, In e l -> (0 <= e)%Z) ->
  nth_error
    (fold_left (fun acc eid => update_at acc (Z.to_nat eid) (F eid)) l acc) k
  = option_map
      (fun p => fold_left
                  (fun p eid => if (eid =? Z.of_nat k)%Z then F eid p else p) l p)
      (nth_error acc k).
Proof.
  induction l as [|a l IH]; intros acc k Hpos; cbn [fold_left].
  - destruct (nth_error acc k); reflexivity.
  - rewrite IH by (intros e He; apply Hpos; right; exact He).
    rewrite update_at_nth.
    assert (Ha : (0 <= a)%Z) by (apply Hpos; left; reflexivity).
    destruct (Nat.eqb_spec k (Z.to_nat a)) as [E|E];
      destruct (Z.eqb_spec a (Z.of_nat k)) as [E'|E']; try lia;
      destruct (nth_error acc k); reflexivity.
Qed.

Lemma allies_fold (G : Z -> list Z) x : forall l p,
  fold_left
    (fun p eid => if (eid =? x)%Z then set_known_allies (G eid) p else p) l p
  = if mem x l then set_known_allies (G x) p else p.
Proof.
  induction l as [|a l IH]; intros p; cbn [fold_left]; [reflexivity|].
  rewrite IH. unfold mem. cbn [existsb]. fold (mem x l).
  rewrite (Z.eqb_sym x a).
  destruct (Z.eqb_spec a x) as [->|E]; cbn [orb]; [|reflexivity].
  destruct (mem x l); reflexivity.
Qed.

Lemma evil_ids_nonneg ps e :
  positions_ok ps -> In e (evil_ids ps) -> (0 <= e)%Z.
Proof.
  intros Hpos He. unfold evil_ids in He. apply in_map_iff in He.
  destruct He as (q & <- & Hq). apply filter_In in Hq. destruct Hq as [Hq _].
  destruct (In_nth_error _ _ Hq) as [k Hk]. rewrite (Hpos _ _ Hk). lia.
Qed.

Lemma evil_ids_mem ps k p :
  positions_ok ps -> nth_error ps k = Some p ->
  mem (Z.of_nat k) (evil_ids ps) = is_evil p.
Proof.
  intros Hpos Hk. destruct (is_evil p) eqn:E.
  - apply mem_In. unfold evil_ids. apply in_map_iff. exists p.
    split; [apply (Hpos _ _ Hk)|]. apply filter_In.
    split; [eapply nth_error_In; eauto|exact E].
  - apply not_true_is_false. intros H. apply mem_In in H.
    unfold evil_ids in H. apply in_map_iff in H.
    destruct H as (q & Hid & Hq). apply filter_In in Hq.
    destruct Hq as [Hq Hevil].
    destruct (In_nth_error _ _ Hq) as [j Hj].
    rewrite (Hpos _ _ Hj) in Hid. apply Nat2Z.inj in Hid. subst j.
    congruence.
Qed.

(** The player at seat [k] after the night phase. *)
Definition after_night (ps : list Player) (k : nat) (p : Player) : Player :=
  let evil := evil_ids ps in
  let p1 := match find_role_id ps merlin with
            | Some m => if (Z.of_nat k =? m)%Z then set_known_evil evil p else p
            | None => p
            end in
  let p2 := if is_evil p
            then set_known_allies
                   (filter (fun e => negb (e =? Z.of_nat k)%Z) evil) p1
            else p1 in
  match find_role_id ps percival, find_role_id ps merlin,
        find_role_id ps morgana with
  | Some pc, Some m, Some mg =>
    if (Z.of_nat k =? pc)%Z then set_known_mm [m; mg] p2 else p2
  | _, _, _ => p2
  end.

Lemma night_nth ps k p :
  positions_ok ps -> nth_error ps k = Some p ->
  nth_error (night_players ps) k = Some (after_night ps k p).
Proof.
  intros Hpos Hk. unfold night_players, after_night.
  assert (Hfind : forall r z, find_role_id ps r = Some z -> (0 <= z)%Z).
  { intros r z Hz. destruct (find_role_id_some _ _ _ Hz) as (q & Hq & <- & _).
    destruct (In_nth_error _ _ Hq) as [j Hj]. rewrite (Hpos _ _ Hj). lia. }
  set (evil := evil_ids ps).
  set (ps1 := match find_role_id ps merlin with
              | Some m => update_at ps (Z.to_nat m) (set_known_evil evil)
              | None => ps
              end).
  set (p1 := match find_role_id ps merlin with
             | Some m => if (Z.of_nat k =? m)%Z then set_known_evil evil p else p
             | None => p
             end).
  assert (H1 : nth_error ps1 k = Some p1).
  { unfold ps1, p1. destruct (find_role_id ps merlin) as [m|] eqn:Em;
      [|exact Hk].
    pose proof (Hfind _ _ Em). rewrite update_at_nth, Hk.
    destruct (Nat.eqb_spec k (Z.to_nat m)) as [E|E];
      destruct (Z.eqb_spec (Z.of_nat k) m) as [E'|E']; try lia; reflexivity. }
  set (ps2 := fold_left _ evil ps1).
  set (p2 := if is_evil p
             then set_known_allies
                    (filter (fun e => negb (e =? Z.of_nat k)%Z) evil) p1
             else p1).
  assert (H2 : nth_error ps2 k = Some p2).
  { unfold ps2.
    rewrite (fold_update_nth
               (fun eid => set_known_allies
                             (filter (fun e => negb (e =? eid)%Z) evil)))
      by (intros e He; apply (evil_ids_nonneg ps e Hpos He)).
    rewrite H1. cbn [option_map]. f_equal.
    rewrite (allies_fold (fun eid => filter (fun e => negb (e =? eid)%Z) evil)).
    unfold evil at 1. rewrite (evil_ids_mem ps k p Hpos Hk). reflexivity. }
  destruct (find_role_id ps percival) as [pc|] eqn:Ep; [|exact H2].
  destruct (find_role_id ps merlin) as [m|] eqn:Em; [|exact H2].
  destruct (find_role_id ps morgana) as [mg|] eqn:Eg; [|exact H2].
  pose proof (Hfind _ _ Ep). rewrite update_at_nth, H2.
  destruct (Nat.eqb_spec k (Z.to_nat pc)) as [E|E];
    destruct (Z.eqb_spec (Z.of_nat k) pc) as [E'|E']; try lia; reflexivity.
Qed.

Lemma night_length ps : length (night_players ps) = length ps.
Proof.
  pose proof (night_identity ps) as H.
  apply (f_equal (@length _)) in H. unfold identity_list in H.
  rewrite !length_map in H. exact H.
Qed.

(** Every player after the night phase is [after_night] of the player that
    sat there. *)
Lemma night_In ps q :
  positions_ok ps -> In q (night_players ps) ->
  exists k p, nth_error ps k = Some p /\ q = after_night ps k p.
Proof.
  intros Hpos Hq. destruct (In_nth_error _ _ Hq) as [k Hk].
  assert (Hlt : k < length ps).
  { rewrite <- night_length. apply nth_error_Some. congruence. }
  destruct (nth_error ps k) as [p|] eqn:Ep;
    [|apply nth_error_None in Ep; lia].
  exists k, p. split; [exact Ep|].
  rewrite (night_nth ps k p Hpos Ep) in Hk. congruence.
Qed.

End NightSpec.

(** ** The start of a game: [setup] and the night phase *)

Module StartSpec.
Import Game GameSpec TeamSpec SetupSpec EngineSpec CastSpec NightSpec.

Lemma filter_length_perm {A} (f : A -> bool) l l' :
  Permutation l l' -> length (filter f l) = length (filter f l').
Proof.
  induction 1 as [|x l l' _ IH|x y l|l l' l'' _ IH1 _ IH2]; simpl.
  - reflexivity.
  - destruct (f x); simpl; congruence.
  - destruct (f x), (f y); reflexivity.
  - congruence.
Qed.

(** The team of a role. *)
Definition evil_role_id (r : RoleId) : bool :=
  match team (ROLES r) with EVIL => true | GOOD => false end.

Lemma after_night_keeps ps k p :
  player_id (after_night ps k p) = player_id p /\
  role (after_night ps k p) = role p /\
  is_leader (after_night ps k p) = is_leader p.
Proof.
  unfold after_night.
  destruct (find_role_id ps merlin), (find_role_id ps percival),
    (find_role_id ps morgana), (is_evil p);
    repeat match goal with
           | |- context [if ?b then _ else _] => destruct b
           end; repeat split.
Qed.

Lemma evil_ids_identity ps ps' :
  identity_list ps = identity_list ps' -> evil_ids ps = evil_ids ps'.
Proof.
  unfold identity_list, evil_ids. revert ps'.
  induction ps as [|p ps IH]; intros [|p' ps'] E; try discriminate.
  - reflexivity.
  - cbn [map] in E. injection E as Eid Erole Erest.
    assert (Ee : is_evil p = is_evil p')
      by (unfold is_evil; rewrite Erole; reflexivity).
    cbn [filter]. rewrite Ee.
    destruct (is_evil p'); cbn [map]; rewrite ?Eid, (IH ps' Erest);
      reflexivity.
Qed.

Section Start.

Variables (role_ids : list RoleId) (leader : Z).
Hypothesis Hsetup : valid_setup role_ids leader.

Lemma leader_cases :
  leader = 0%Z \/ leader = 1%Z \/ leader = 2%Z \/ leader = 3%Z \/
  leader = 4%Z \/ leader = 5%Z.
Proof. destruct Hsetup as [_ H]. unfold PLAYER_COUNT in H. lia. Qed.

Lemma six_roles :
  exists r0 r1 r2 r3 r4 r5, role_ids = [r0; r1; r2; r3; r4; r5].
Proof.
  pose proof (role_ids_length role_ids leader Hsetup) as H.
  destruct role_ids as [|r0 [|r1 [|r2 [|r3 [|r4 [|r5 [|]]]]]]];
    try discriminate H.
  eauto 7.
Qed.

(** After [setup] nobody knows anything and only the drawn leader is
    flagged. *)
Lemma setup_player p :
  In p (players (setup role_ids leader)) ->
  known_evil p = [] /\ known_merlin_or_morgana p = [] /\ known_allies p = [] /\
  is_leader p = (player_id p =? leader)%Z /\
  role p = ROLES (role_id (role p)).
Proof.
  intros Hp.
  assert (Hrole : role p = ROLES (role_id (role p))).
  { destruct (In_nth_error _ _ Hp) as [k Hk].
    destruct (seat_role role_ids _ k p (setup_identity role_ids leader) Hk)
      as (r & _ & Hr & _).
    rewrite Hr, role_id_ROLES. reflexivity. }
  refine ((fun H => conj (proj1 H) (conj (proj1 (proj2 H))
            (conj (proj1 (proj2 (proj2 H)))
               (conj (proj2 (proj2 (proj2 H))) Hrole)))) _).
  clear Hrole. revert Hp.
  pose proof six_roles as Hr. pose proof leader_cases as Hl. clear Hsetup.
  destruct Hr as (r0 & r1 & r2 & r3 & r4 & r5 & ->).
  destruct Hl as [->|[->|[->|[->|[->| ->]]]]];
    cbn; intros [<-|[<-|[<-|[<-|[<-|[<-|[]]]]]]]; cbn; repeat split.
Qed.

Lemma setup_roles :
  map (fun p => role_id (role p)) (players (setup role_ids leader)) = role_ids.
Proof.
  transitivity (map (fun x => role_id (snd x))
                    (identity_list (players (setup role_ids leader)))).
  { unfold identity_list. rewrite map_map. reflexivity. }
  rewrite setup_identity, map_map.
  rewrite (map_ext _ (fun ir : nat * RoleId => snd ir))
    by (intros ir; apply role_id_ROLES).
  pose proof six_roles as Hr.
  destruct Hr as (r0 & r1 & r2 & r3 & r4 & r5 & ->). reflexivity.
Qed.

Lemma setup_ids :
  map player_id (players (setup role_ids leader)) = range PLAYER_COUNT.
Proof.
  pose proof six_roles as Hr. pose proof leader_cases as Hl. clear Hsetup.
  destruct Hr as (r0 & r1 & r2 & r3 & r4 & r5 & ->).
  destruct Hl as [->|[->|[->|[->|[->| ->]]]]]; reflexivity.
Qed.

Lemma count_by_role ps :
  (forall p, In p ps -> role p = ROLES (role_id (role p))) ->
  length (filter is_evil ps)
  = length (filter evil_role_id (map (fun p => role_id (role p)) ps)) /\
  length (filter is_good ps)
  = length (filter (fun r => negb (evil_role_id r))
                   (map (fun p => role_id (role p)) ps)).
Proof.
  induction ps as [|p ps IH]; intros H; [split; reflexivity|].
  destruct IH as [IH1 IH2]; [intros q Hq; apply H; right; exact Hq|].
  assert (Ee : evil_role_id (role_id (role p)) = is_evil p).
  { unfold evil_role_id, is_evil. rewrite <- (H p (or_introl eq_refl)).
    reflexivity. }
  assert (Eg : is_good p = negb (is_evil p)).
  { unfold is_good, is_evil. destruct (team (role p)); reflexivity. }
  cbn [map filter]. rewrite Ee, Eg.
  destruct (is_evil p); cbn [negb length]; rewrite IH1, IH2;
    split; reflexivity.
Qed.

Lemma setup_teams :
  length (filter is_good (players (setup role_ids leader))) = 4 /\
  length (filter is_evil (players (setup role_ids leader))) = 2.
Proof.
  destruct (count_by_role (players (setup role_ids leader))) as [He Hg].
  { intros p Hp. apply (setup_player p Hp). }
  rewrite He, Hg, setup_roles.
  rewrite (filter_length_perm _ _ _ (proj1 Hsetup)).
  rewrite (filter_length_perm evil_role_id _ _ (proj1 Hsetup)).
  split; reflexivity.
Qed.

(** The one player holding role [r] after [setup], and how the night phase
    finds it. *)
Lemma holder_find r :
  exists k p,
    nth_error (players (setup role_ids leader)) k = Some p /\
    role p = ROLES r /\ player_id p = Z.of_nat k /\
    find_role_id (players (setup role_ids leader)) r = Some (Z.of_nat k) /\
    forall k' p', nth_error (players (setup role_ids leader)) k' = Some p' ->
                  role_id (role p') = r -> k' = k.
Proof.
  destruct (role_holder role_ids leader Hsetup _ r
              (setup_identity role_ids leader))
    as (k & p & Hk & Hrole & Hid & Huniq).
  exists k, p. split; [exact Hk|]. split; [exact Hrole|]. split; [exact Hid|].
  split.
  - rewrite <- Hid. apply find_role_id_unique.
    + eapply nth_error_In; eauto.
    + rewrite Hrole. apply role_id_ROLES.
    + intros y Hy Hr. destruct (In_nth_error _ _ Hy) as [k' Hk'].
      apply (Huniq k' y Hk' Hr).
  - intros k' p' Hk' Hr. apply (Huniq k' p' Hk' Hr).
Qed.

(** What a player knows after the night phase. *)
Lemma night_player q :
  In q (night_players (players (setup role_ids leader))) ->
  let evil := evil_ids (players (setup role_ids leader)) in
  (role_id (role q) = merlin -> known_evil q = evil) /\
  (role_id (role q) <> merlin -> known_evil q = []) /\
  (is_evil q = true ->
   known_allies q = filter (fun e => negb (e =? player_id q)%Z) evil) /\
  (is_evil q = false -> known_allies q = []) /\
  (role_id (role q) <> percival -> known_merlin_or_morgana q = []) /\
  (role_id (role q) = percival ->
   exists km kg,
     find_role_id (players (setup role_ids leader)) merlin = Some km /\
     find_role_id (players (setup role_ids leader)) morgana = Some kg /\
     known_merlin_or_morgana q = [km; kg]).
Proof.
  intros Hq evil.
  set (ps0 := players (setup role_ids leader)) in *.
  pose proof (setup_positions role_ids leader) as Hpos. fold ps0 in Hpos.
  destruct (night_In ps0 q Hpos Hq) as (k & p0 & Hk & ->).
  destruct (after_night_keeps ps0 k p0) as (Eid & Erole & _).
  destruct (setup_player p0 (nth_error_In _ _ Hk)) as (B1 & B2 & B3 & _).
  pose proof (Hpos _ _ Hk) as Hidk.
  destruct (holder_find merlin) as (km & m & Hkm & Hrm & _ & Efm & Hum).
  destruct (holder_find percival) as (kp & pp & Hkp & Hrp & _ & Efp & Hup).
  destruct (holder_find morgana) as (kg & g & Hkg & Hrg & _ & Efg & _).
  fold ps0 in Hkm, Hkp, Hkg, Efm, Efp, Efg, Hum, Hup.
  assert (Hm : k = km -> role_id (role p0) = merlin).
  { intros ->. rewrite Hk in Hkm. injection Hkm as ->. rewrite Hrm.
    reflexivity. }
  assert (Hp : k = kp -> role_id (role p0) = percival).
  { intros ->. rewrite Hk in Hkp. injection Hkp as ->. rewrite Hrp.
    reflexivity. }
  assert (Eevil : is_evil (after_night ps0 k p0) = is_evil p0)
    by (unfold is_evil; rewrite Erole; reflexivity).
  rewrite Erole, Eid, Eevil, Hidk.
  unfold after_night. fold evil. rewrite Efm, Efp, Efg.
  destruct (Z.eqb_spec (Z.of_nat k) (Z.of_nat km)) as [E1|E1];
    destruct (Z.eqb_spec (Z.of_nat k) (Z.of_nat kp)) as [E2|E2];
    destruct (is_evil p0) eqn:Ev;
    cbn [known_evil known_allies known_merlin_or_morgana
         set_known_evil set_known_allies set_known_mm];
    rewrite ?B1, ?B2, ?B3;
    (split; [|split; [|split; [|split; [|split]]]]);
    intros H; try reflexivity; try discriminate;
    try (exfalso; apply H; first [apply Hm|apply Hp]; lia);
    try (exfalso; apply E1; f_equal; apply (Hum k p0 Hk H));
    try (exfalso; apply E2; f_equal; apply (Hup k p0 Hk H));
    try (exists (Z.of_nat km), (Z.of_nat kg); repeat split).
Qed.

End Start.

End StartSpec.

Module StartFacts.
Import Game GameSpec TeamSpec SetupSpec EngineSpec CastSpec NightSpec StartSpec.

(** X5. [setup], for a shuffled role list and a drawn leader, seats six
    players whose ids are their seats 0..5 and whose roles are the shuffled
    roles in order, each with the role record of its role id: four good and
    two evil players.  Only the drawn leader carries the leader flag, nobody
    knows anything yet, and the game state is the initial one, with the drawn
    leader as current leader. *)
Theorem setup_seats_players role_ids leader :
  valid_setup role_ids leader ->
  let s := setup role_ids leader in
  map player_id (players s) = range PLAYER_COUNT /\
  map (fun p => role_id (role p)) (players s) = role_ids /\
  length (filter is_good (players s)) = 4 /\
  length (filter is_evil (players s)) = 2 /\
  (forall p, In p (players s) ->
             role p = ROLES (role_id (role p)) /\
             is_leader p = (player_id p =? leader)%Z /\
             known_evil p = [] /\ known_merlin_or_morgana p = [] /\
             known_allies p = []) /\
  s = initial_state (players s) leader.
Proof.
  intros Hsetup s.
  split; [apply (setup_ids role_ids leader Hsetup)|].
  split; [apply (setup_roles role_ids leader Hsetup)|].
  split; [apply (setup_teams role_ids leader Hsetup)|].
  split; [apply (setup_teams role_ids leader Hsetup)|].
  split; [|reflexivity].
  intros p Hp.
  destruct (setup_player role_ids leader Hsetup p Hp)
    as (B1 & B2 & B3 & Hflag & Hrole).
  exact (conj Hrole (conj Hflag (conj B1 (conj B2 B3)))).
Qed.

Lemma setup_seats_players_witness :
  valid_setup ROLES_CONFIG 3 /\
  map player_id (players (setup ROLES_CONFIG 3)) = [0; 1; 2; 3; 4; 5]%Z /\
  length (filter is_evil (players (setup ROLES_CONFIG 3))) = 2.
Proof.
  assert (H : valid_setup ROLES_CONFIG 3)
    by (apply EngineClaims.scenario_setup; lia).
  split; [exact H|].
  destruct (setup_seats_players ROLES_CONFIG 3 H) as (A & _ & _ & B & _).
  exact (conj A B).
Defined.

(** X6. After the night phase that follows [setup], Merlin and nobody
    else knows the evil players, all of them, listed by seat; every evil
    player knows as allies the evil players other than itself, and a good
    player knows no ally; Percival and nobody else holds a list of two ids,
    Merlin's first and Morgana's second.  The phase changes neither ids,
    roles nor leader flags, and there are two evil ids. *)
Theorem night_phase_knowledge role_ids leader :
  valid_setup role_ids leader ->
  let before := setup role_ids leader in
  let after := execute_night_phase before in
  let evil := evil_ids (players after) in
  length evil = 2 /\
  evil = evil_ids (players before) /\
  map (fun p => (player_id p, role p, is_leader p)) (players after)
  = map (fun p => (player_id p, role p, is_leader p)) (players before) /\
  (forall p, In p (players after) ->
     (role_id (role p) = merlin -> known_evil p = evil) /\
     (role_id (role p) <> merlin -> known_evil p = []) /\
     (is_evil p = true ->
      known_allies p = filter (fun e => negb (e =? player_id p)%Z) evil) /\
     (is_evil p = false -> known_allies p = []) /\
     (role_id (role p) <> percival -> known_merlin_or_morgana p = []) /\
     (role_id (role p) = percival ->
      exists m g,
        In m (players after) /\ role_id (role m) = merlin /\
        In g (players after) /\ role_id (role g) = morgana /\
        known_merlin_or_morgana p = [player_id m; player_id g])).
Proof.
  intros Hsetup before after evil.
  set (ps0 := players before).
  assert (Hps : players after = night_players ps0) by reflexivity.
  pose proof (setup_positions role_ids leader) as Hpos. fold before ps0 in Hpos.
  assert (Eevil : evil = evil_ids ps0).
  { unfold evil. rewrite Hps. apply evil_ids_identity. apply night_identity. }
  assert (Hkeep : forall k p, nth_error ps0 k = Some p ->
                              In (after_night ps0 k p) (players after)).
  { intros k p Hk. rewrite Hps. eapply nth_error_In.
    apply (night_nth ps0 k p Hpos Hk). }
  split.
  { rewrite Eevil. unfold evil_ids. rewrite length_map.
    apply (setup_teams role_ids leader Hsetup). }
  split; [exact Eevil|]. split.
  { rewrite Hps. apply nth_error_ext. intros k. rewrite !nth_error_map.
    destruct (nth_error ps0 k) as [p|] eqn:Ek.
    - rewrite (night_nth ps0 k p Hpos Ek). cbn [option_map].
      destruct (after_night_keeps ps0 k p) as (-> & -> & ->). reflexivity.
    - assert (E : nth_error (night_players ps0) k = None).
      { apply nth_error_None. rewrite night_length.
        apply nth_error_None. exact Ek. }
      rewrite E. reflexivity. }
  intros p Hp. rewrite Hps in Hp.
  destruct (night_player role_ids leader Hsetup p Hp)
    as (K1 & K2 & K3 & K4 & K5 & K6).
  fold before ps0 in K1, K3, K6. rewrite <- Eevil in K1, K3.
  refine (conj K1 (conj K2 (conj K3 (conj K4 (conj K5 _))))).
  intros Hperc. destruct (K6 Hperc) as (km & kg & Em & Eg & Hmm).
  destruct (find_role_id_some _ _ _ Em) as (m & Hm & <- & Hrm).
  destruct (find_role_id_some _ _ _ Eg) as (g & Hg & <- & Hrg).
  destruct (In_nth_error _ _ Hm) as [jm Hjm].
  destruct (In_nth_error _ _ Hg) as [jg Hjg].
  destruct (after_night_keeps ps0 jm m) as (Im & Rm & _).
  destruct (after_night_keeps ps0 jg g) as (Ig & Rg & _).
  exists (after_night ps0 jm m), (after_night ps0 jg g).
  rewrite Im, Ig, Rm, Rg.
  exact (conj (Hkeep jm m Hjm) (conj Hrm (conj (Hkeep jg g Hjg)
           (conj Hrg Hmm)))).
Qed.

Lemma night_phase_knowledge_witness :
  valid_setup ROLES_CONFIG 3 /\
  evil_ids (players (execute_night_phase (setup ROLES_CONFIG 3))) = [4; 5]%Z /\
  map known_evil (players (execute_night_phase (setup ROLES_CONFIG 3)))
  = [[4; 5]; []; []; []; []; []]%Z.
Proof.
  assert (H : valid_setup ROLES_CONFIG 3)
    by (apply EngineClaims.scenario_setup; lia).
  split; [exact H|].
  destruct (night_phase_knowledge ROLES_CONFIG 3 H) as (_ & E & _).
  split; [rewrite E; reflexivity|reflexivity].
Defined.

End StartFacts.

(** ** The leader flag *)

Module FlagSpec.
Import Game GameSpec TeamSpec SetupSpec EngineSpec EngineClaims CastSpec.
Import NightSpec StartSpec LeaderSpec.

(** Exactly the players whose id is the leader index carry the flag. *)
Definition flags_ok (s : GameState) : Prop :=
  forall p, In p (players s) ->
            is_leader p = (player_id p =? current_leader_idx s)%Z.

Lemma next_leader_flags s s1 : next_leader s = Ok s1 -> flags_ok s1.
Proof.
  intros E.
  assert (Hne : players s <> []).
  { intros H. unfold next_leader in E. rewrite H in E. discriminate. }
  destruct (next_leader_some s Hne) as (s1' & E' & _ & Hps).
  rewrite E in E'. injection E' as <-.
  intros p Hp. rewrite Hps in Hp. apply (set_leader_flags_flag _ _ _ Hp).
Qed.

Lemma flags_step int_of_str i c :
  flags_ok (state c) -> flags_ok (state (step int_of_str i c)).
Proof.
  intros H. unfold step.
  destruct (pc c) as [r| | | |approved| | | | | | |e].
  - destruct (r <? 5); exact H.
  - destruct (execute_team_phase int_of_str i (state c)) as [[s1 team]|] eqn:E;
      [|exact H].
    apply team_phase_state in E. subst s1. exact H.
  - destruct (execute_discussion i (state c) (heap c) (record c)); exact H.
  - destruct (execute_vote i (state c) (heap c) (record c)) as [[h' a]|];
      exact H.
  - destruct approved; [exact H|].
    destruct (MAX_TEAM_VOTES <=? _); exact H.
  - destruct (next_leader (state c)) as [s1|] eqn:E; [|exact H].
    apply (next_leader_flags _ _ E).
  - destruct (execute_mission i (state c) (heap c) (record c))
      as [[[h' s1] ok]|] eqn:E; [|exact H].
    apply mission_state in E. subst s1. exact H.
  - destruct (3 <=? good_wins_count (state c)); [exact H|].
    destruct (3 <=? evil_wins_count (state c)); exact H.
  - destruct (execute_assassin_phase int_of_str i (state c)) as [d|];
      [|exact H].
    cbn [state]. destruct (merlin_killed d); exact H.
  - destruct (next_leader (state c)) as [s1|] eqn:E; [|exact H].
    apply (next_leader_flags _ _ E).
  - exact H.
  - exact H.
Qed.

Lemma flags_start role_ids leader :
  valid_setup role_ids leader -> flags_ok (state (start role_ids leader)).
Proof.
  intros Hsetup q Hq.
  change (In q (night_players (players (setup role_ids leader)))) in Hq.
  destruct (night_In _ q (setup_positions role_ids leader) Hq)
    as (k & p0 & Hk & ->).
  destruct (after_night_keeps (players (setup role_ids leader)) k p0)
    as (-> & _ & ->).
  apply (setup_player role_ids leader Hsetup p0 (nth_error_In _ _ Hk)).
Qed.

Lemma flags_reachable int_of_str role_ids leader c :
  valid_setup role_ids leader ->
  reachable int_of_str role_ids leader c -> flags_ok (state c).
Proof.
  intros Hsetup. induction 1 as [|c i _ IH].
  - apply flags_start. exact Hsetup.
  - apply flags_step. exact IH.
Qed.

Lemma one_flag ps idx :
  positions_ok ps -> length ps = PLAYER_COUNT ->
  (0 <= idx < Z.of_nat PLAYER_COUNT)%Z ->
  (forall p, In p ps -> is_leader p = (player_id p =? idx)%Z) ->
  length (filter is_leader ps) = 1.
Proof.
  intros Hpos Hlen Hidx Hflag.
  destruct ps as [|p0 [|p1 [|p2 [|p3 [|p4 [|p5 [|]]]]]]]; try discriminate Hlen.
  pose proof (Hpos 0 p0 eq_refl) as I0. pose proof (Hpos 1 p1 eq_refl) as I1.
  pose proof (Hpos 2 p2 eq_refl) as I2. pose proof (Hpos 3 p3 eq_refl) as I3.
  pose proof (Hpos 4 p4 eq_refl) as I4. pose proof (Hpos 5 p5 eq_refl) as I5.
  assert (F : forall p, In p [p0; p1; p2; p3; p4; p5] ->
                        is_leader p = (player_id p =? idx)%Z) by exact Hflag.
  cbn [filter].
  rewrite (F p0), (F p1), (F p2), (F p3), (F p4), (F p5) by (simpl; tauto).
  rewrite I0, I1, I2, I3, I4, I5.
  unfold PLAYER_COUNT in Hidx.
  assert (C : (idx = 0 \/ idx = 1 \/ idx = 2 \/ idx = 3 \/ idx = 4
               \/ idx = 5)%Z) by lia.
  destruct C as [->|[->|[->|[->|[->| ->]]]]]; reflexivity.
Qed.

End FlagSpec.

Module FlagFacts.
Import Game GameSpec TeamSpec SetupSpec EngineSpec EngineClaims CastSpec.
Import FlagSpec.

(** X7. In every configuration of a game the leader index names one of
    the six seats, a player carries the leader flag exactly when its id is
    the leader index, so exactly one player is flagged, and
    [state.current_leader] is that player. *)
Theorem one_leader_flag int_of_str role_ids leader c :
  valid_setup role_ids leader ->
  reachable int_of_str role_ids leader c ->
  (0 <= current_leader_idx (state c) < Z.of_nat PLAYER_COUNT)%Z /\
  (forall p, In p (players (state c)) ->
             is_leader p = (player_id p =? current_leader_idx (state c))%Z) /\
  length (filter is_leader (players (state c))) = 1 /\
  exists p, get_player (state c) (current_leader_idx (state c)) = Some p /\
            player_id p = current_leader_idx (state c) /\
            is_leader p = true.
Proof.
  intros Hsetup Hreach.
  destruct (Inv_reachable int_of_str role_ids leader Hsetup c Hreach)
    as (Hcast & _).
  destruct (cast_ok_seated role_ids leader Hsetup _ Hcast)
    as (Hpos & Hlen & Hidx).
  pose proof (flags_reachable int_of_str role_ids leader c Hsetup Hreach)
    as Hflag.
  split; [exact Hidx|]. split; [exact Hflag|].
  split; [apply (one_flag _ _ Hpos Hlen Hidx Hflag)|].
  destruct (lookup_valid (state c) (current_leader_idx (state c)) Hpos)
    as (p & Hnth & _ & _); [rewrite Hlen; exact Hidx|].
  exists p.
  assert (Hid : player_id p = current_leader_idx (state c)).
  { rewrite (Hpos _ _ Hnth). lia. }
  split; [rewrite get_player_nonneg by lia; exact Hnth|].
  split; [exact Hid|].
  rewrite (Hflag p (nth_error_In _ _ Hnth)), Hid. apply Z.eqb_refl.
Qed.

Lemma one_leader_flag_witness :
  (valid_setup ROLES_CONFIG 4 /\
   reachable Scenario.digits_value ROLES_CONFIG 4 Scenario.third_success) /\
  length (filter is_leader (players (state Scenario.third_success))) = 1 /\
  (0 <= current_leader_idx (state Scenario.third_success) < 6)%Z.
Proof.
  assert (H1 : valid_setup ROLES_CONFIG 4) by (apply scenario_setup; lia).
  assert (H2 : reachable Scenario.digits_value ROLES_CONFIG 4
                 Scenario.third_success) by apply scenario_reachable.
  split; [exact (conj H1 H2)|].
  destruct (one_leader_flag Scenario.digits_value ROLES_CONFIG 4
              Scenario.third_success H1 H2) as (A & _ & B & _).
  exact (conj B A).
Defined.

End FlagFacts.

(** ** The discussion *)

Module DiscussionSpec.
Import Game GameSpec PhaseSpec TeamSpec ParseSpec SetupSpec EngineSpec.

Lemma speeches_written_speeches v l : forall r,
  speeches (speeches_written v l r)
  = fold_left (fun d k => dict_set d k (v k)) l (speeches r).
Proof.
  unfold speeches_written.
  induction l as [|x l IH]; intros r; simpl; [reflexivity|].
  rewrite IH. reflexivity.
Qed.

Lemma discussion_total i s record : forall l h,
  positions_ok (players s) ->
  Forall (fun pid => (0 <= pid < Z.of_nat (length (players s)))%Z) l ->
  exists h',
    fold_left
      (fun acc pid =>
         h <- acc ;; _ <- player_at s pid ;; _ <- agent_of s pid ;;
         Ok (heap_update h record (set_speech pid (in_speech i pid))))
      l (Ok h) = Ok h'.
Proof.
  intros l h Hpos. revert h.
  induction l as [|x l IH]; intros h Hl; simpl; [eauto|].
  inversion Hl as [|? ? Hx Hl']; subst.
  destruct (lookup_valid s x Hpos Hx) as (p & _ & Hat & Hag).
  rewrite Hat, Hag. simpl. apply IH. exact Hl'.
Qed.

(** The speaking order at a table of six. *)
Lemma speaking_order_six s :
  length (players s) = PLAYER_COUNT ->
  (0 <= current_leader_idx s < Z.of_nat PLAYER_COUNT)%Z ->
  NoDup (speaking_order s) /\
  (forall pid, In pid (speaking_order s)
               <-> (0 <= pid < Z.of_nat PLAYER_COUNT)%Z) /\
  length (speaking_order s) = PLAYER_COUNT /\
  hd 0%Z (speaking_order s) = ((current_leader_idx s + 1) mod 6)%Z /\
  last (speaking_order s) 0%Z = current_leader_idx s.
Proof.
  intros Hlen Hidx. unfold speaking_order. rewrite Hlen.
  unfold PLAYER_COUNT in *.
  assert (C : (current_leader_idx s = 0 \/ current_leader_idx s = 1
               \/ current_leader_idx s = 2 \/ current_leader_idx s = 3
               \/ current_leader_idx s = 4 \/ current_leader_idx s = 5)%Z)
    by lia.
  destruct C as [E|[E|[E|[E|[E|E]]]]]; rewrite E; cbn;
    (split; [repeat constructor; simpl; lia|]);
    (split; [intros pid; lia|]); repeat split.
Qed.

End DiscussionSpec.

Module DiscussionFacts.
Import Game GameSpec PhaseSpec TeamSpec ParseSpec SetupSpec EngineSpec.
Import EngineClaims DiscussionSpec.

(** X8. At a table of six seated players [execute_discussion] never
    raises.  Every player speaks exactly once, the player after the leader
    first, then round the table, the leader last; on a record without
    speeches the transcript afterwards lists the speeches in that order, each
    under its speaker's id.  Nothing else changes: the other fields of the
    record and every other record stay as they were. *)
Theorem discussion_round_the_table i s h record :
  seated s -> record < length h -> speeches (deref h record) = [] ->
  NoDup (speaking_order s) /\
  (forall pid, In pid (speaking_order s)
               <-> (0 <= pid < Z.of_nat PLAYER_COUNT)%Z) /\
  hd 0%Z (speaking_order s) = ((current_leader_idx s + 1) mod 6)%Z /\
  last (speaking_order s) 0%Z = current_leader_idx s /\
  exists h',
    execute_discussion i s h record = Ok h' /\
    length h' = length h /\
    (forall a, a <> record -> deref h' a = deref h a) /\
    speeches (deref h' record)
    = map (fun pid => (pid, in_speech i pid)) (speaking_order s) /\
    round_num (deref h' record) = round_num (deref h record) /\
    team_leader_id (deref h' record) = team_leader_id (deref h record) /\
    team_members (deref h' record) = team_members (deref h record) /\
    team_votes (deref h' record) = team_votes (deref h record) /\
    mission_votes (deref h' record) = mission_votes (deref h record) /\
    success (deref h' record) = success (deref h record).
Proof.
  intros (Hpos & Hlen & Hidx) Hrec Hempty.
  destruct (speaking_order_six s Hlen Hidx) as (Hnd & Hin & _ & Hhd & Hlast).
  refine (conj Hnd (conj Hin (conj Hhd (conj Hlast _)))).
  destruct (discussion_total i s record (speaking_order s) h Hpos) as [h' E].
  { apply Forall_forall. intros pid Hpid. rewrite Hlen. apply Hin. exact Hpid. }
  exists h'. split; [exact E|].
  apply (discussion_effect i s h record h') in E. subst h'.
  split; [apply length_heap_update|].
  split; [intros a Ha; apply deref_update_other; congruence|].
  rewrite deref_update_same by exact Hrec.
  destruct (speeches_written_fields (in_speech i) (speaking_order s)
              (deref h record)) as (F1 & F2 & F3 & F4 & F5 & F6).
  refine (conj _ (conj F1 (conj F2 (conj F3 (conj F6 (conj F4 F5)))))).
  rewrite speeches_written_speeches, Hempty.
  apply (fold_dict_set_fresh (in_speech i) (speaking_order s) [] Hnd).
  intros k _ [].
Qed.

Lemma discussion_round_the_table_witness :
  let c := Scenario.play [Scenario.approving; Scenario.approving]
                         (Scenario.game 2) in
  (seated (state c) /\ record c < length (heap c) /\
   speeches (deref (heap c) (record c)) = []) /\
  speaking_order (state c) = [3; 4; 5; 0; 1; 2]%Z /\
  exists h', execute_discussion Scenario.approving (state c) (heap c) (record c)
             = Ok h' /\
             keys (speeches (deref h' (record c))) = [3; 4; 5; 0; 1; 2]%Z.
Proof.
  intros c.
  assert (H1 : seated (state c)).
  { apply (cast_ok_seated ROLES_CONFIG 2 (scenario_setup 2 ltac:(lia))).
    apply (Inv_reachable Scenario.digits_value ROLES_CONFIG 2
             (scenario_setup 2 ltac:(lia)) c).
    apply scenario_reachable. }
  assert (H2 : record c < length (heap c)) by (vm_compute; lia).
  assert (H3 : speeches (deref (heap c) (record c)) = []) by reflexivity.
  split; [exact (conj H1 (conj H2 H3))|].
  split; [reflexivity|].
  destruct (discussion_round_the_table Scenario.approving (state c) (heap c)
              (record c) H1 H2 H3) as (_ & _ & _ & _ & h' & E & _ & _ & Hsp & _).
  exists h'. split; [exact E|]. rewrite Hsp. reflexivity.
Defined.

End DiscussionFacts.

(** ** The team proposal *)

Module ProposalSpec.
Import Game GameSpec PhaseSpec TeamSpec ParseSpec SetupSpec.







End ProposalSpec.

Module ProposalFacts.
Import Game GameSpec PhaseSpec TeamSpec ParseSpec SetupSpec EngineSpec.
Import EngineClaims ProposalSpec.



End ProposalFacts.

(** ** The assassin's choice *)

Module TargetFacts.
Import Game GameSpec PhaseSpec TeamSpec ParseSpec SetupSpec CastSpec ProposalSpec.



End TargetFacts.

(** ** Stopping, and the pause event *)

Module ControlSpec.
Import Runner.

(** A runner whose state is [running] or [idle] has the pause event set, and
    a paused runner has it clear unless a stop was requested. *)
Definition event_tracks_state (c : Control) : Prop :=
  (state c = STATE_RUNNING \/ state c = STATE_IDLE -> _pause_event c = true) /\
  (state c = STATE_PAUSED -> _stop_requested c = false ->
   _pause_event c = false).

Lemma act_tracks c a : event_tracks_state c -> event_tracks_state (act c a).
Proof.
  destruct c as [st sm sr pe]. unfold event_tracks_state.
  cbn [state _pause_event _stop_requested]. intros [H1 H2].
  destruct a, st, sm, sr; cbn; split; intros; try reflexivity;
    try (apply H1; tauto); try (apply H2; reflexivity);
    try discriminate;
    try match goal with H : _ \/ _ |- _ => destruct H; discriminate end.
Qed.

Lemma acts_tracks l : forall c,
  event_tracks_state c -> event_tracks_state (acts l c).
Proof.
  unfold acts. induction l as [|a l IH]; intros c H; simpl; [exact H|].
  apply IH. apply act_tracks. exact H.
Qed.

(** An action that does not enter a game or a session. *)
Definition inside (a : Action) : Prop := a <> EnterGame /\ a <> EnterSession.

Lemma act_keeps_stop c a :
  inside a -> _stop_requested c = true -> _stop_requested (act c a) = true.
Proof.
  intros [H1 H2]. destruct c as [st sm sr pe]. cbn [_stop_requested].
  intros ->. destruct a, st, sm, pe; try reflexivity; congruence.
Qed.

Lemma acts_keep_stop l : forall c,
  Forall inside l -> _stop_requested c = true ->
  _stop_requested (acts l c) = true.
Proof.
  unfold acts. induction l as [|a l IH]; intros c Hl Hc; simpl; [exact Hc|].
  inversion Hl as [|? ? Ha Hl']; subst.
  apply IH; [exact Hl'|]. apply act_keeps_stop; assumption.
Qed.

Lemma after_wait_stopped n c :
  _stop_requested c = true ->
  after_wait n c
  = {| control := c; units := 0; emitted := []; status := Stopped |}.
Proof. intros H. destruct n; simpl; rewrite H; reflexivity. Qed.

End ControlSpec.

Module ControlFacts.
Import Runner ControlSpec.

(** X11. [stop] raises the stop request and sets the pause event of a
    paused runner, so that a suspended coroutine wakes up; it leaves the
    state and the step mode alone.  From then on, whatever commands arrive
    and checkpoints are reached, until a new game or session is entered, the
    request stays: every checkpoint raises [_StopGame], and a coroutine whose
    wait returns stops at once, without another unit of progress and without
    an event. *)
Theorem stop_is_final (c : Control) (l : list Action) :
  _stop_requested (stop c) = true /\
  state (stop c) = state c /\ step_mode (stop c) = step_mode c /\
  (state c = STATE_PAUSED -> _pause_event (stop c) = true) /\
  (state c <> STATE_PAUSED -> _pause_event (stop c) = _pause_event c) /\
  (Forall inside l ->
   _stop_requested (acts l (stop c)) = true /\
   checkpoint_enter (acts l (stop c)) = None /\
   forall n,
     after_wait n (acts l (stop c))
     = {| control := acts l (stop c); units := 0; emitted := [];
          status := Stopped |}).
Proof.
  split; [reflexivity|]. split; [reflexivity|]. split; [reflexivity|].
  split; [|split].
  - intros H. unfold stop, is_paused. cbn [_pause_event]. rewrite H.
    reflexivity.
  - intros H. unfold stop, is_paused. cbn [_pause_event].
    destruct (state c); try reflexivity. congruence.
  - intros Hl.
    assert (Hs : _stop_requested (acts l (stop c)) = true)
      by (apply acts_keep_stop; [exact Hl|reflexivity]).
    split; [exact Hs|]. split.
    + unfold checkpoint_enter. rewrite Hs. reflexivity.
    + intros n. apply after_wait_stopped. exact Hs.
Qed.

Lemma stop_is_final_witness :
  (state Scenario.paused = STATE_PAUSED /\
   Forall inside [DoResume; ReachCheckpoint; DoPause; DoStep]) /\
  _pause_event (stop Scenario.paused) = true /\
  checkpoint_enter
    (acts [DoResume; ReachCheckpoint; DoPause; DoStep] (stop Scenario.paused))
  = None.
Proof.
  assert (H1 : state Scenario.paused = STATE_PAUSED) by reflexivity.
  assert (H2 : Forall inside [DoResume; ReachCheckpoint; DoPause; DoStep])
    by (repeat constructor; discriminate).
  split; [exact (conj H1 H2)|].
  destruct (stop_is_final Scenario.paused
              [DoResume; ReachCheckpoint; DoPause; DoStep])
    as (_ & _ & _ & Hwake & _ & Hfinal).
  destruct (Hfinal H2) as (_ & Hcp & _).
  exact (conj (Hwake H1) Hcp).
Defined.

(** X12. Through any sequence of control commands, start commands, game
    and session entries, session ends and checkpoints, starting from a fresh
    runner: a runner whose state is [running] or [idle] has the pause event
    set, so its coroutine is not held at a checkpoint, and a paused runner
    has the event clear unless a stop was requested. *)
Theorem pause_event_tracks_state (l : list Action) :
  let c := acts l init in
  (state c = STATE_RUNNING \/ state c = STATE_IDLE -> _pause_event c = true) /\
  (state c = STATE_PAUSED -> _stop_requested c = false ->
   _pause_event c = false).
Proof.
  apply (acts_tracks l init). split; intros H; [reflexivity|discriminate H].
Qed.

End ControlFacts.

(** ** Think blocks in a reply, and the retry schedule *)

Module CleanSpec.
Import LLMClient.

(** The code point of [<]. *)
Definition LT : N := 60%N.

Lemma startswith_app (p r : pystr) : startswith (p ++ r) p = true.
Proof.
  induction p as [|x p IH]; [destruct r; reflexivity|].
  simpl. rewrite N.eqb_refl. exact IH.
Qed.

Lemma startswith_head (c : N) (s pat : pystr) :
  c <> LT -> (exists p, pat = LT :: p) -> startswith (c :: s) pat = false.
Proof.
  intros H [p ->]. cbn [startswith].
  destruct (N.eqb_spec LT c) as [E|_]; [congruence|reflexivity].
Qed.

Lemma think_open_head : exists p, THINK_OPEN = LT :: p.
Proof. eexists. reflexivity. Qed.

Lemma think_close_head : exists p, THINK_CLOSE = LT :: p.
Proof. eexists. reflexivity. Qed.

Lemma sub_think_skip (k : nat) (s : pystr) :
  sub_think k s = sub_think 0 (skipn k s).
Proof.
  revert k. induction s as [|c t IH]; intros [|k]; try reflexivity.
  cbn [sub_think skipn]. apply IH.
Qed.

Lemma think_match_pos s n : think_match s = Some n -> 0 < n.
Proof.
  unfold think_match. destruct (startswith s THINK_OPEN); [|discriminate].
  destruct (find THINK_CLOSE _); [|discriminate].
  cbn [option_map]. intros [= <-]. change (length THINK_OPEN) with 7. lia.
Qed.

Lemma sub_think_match s n :
  think_match s = Some n -> sub_think 0 s = sub_think 0 (skipn n s).
Proof.
  intros H. pose proof (think_match_pos _ _ H) as Hn.
  destruct s as [|c t].
  - destruct n; reflexivity.
  - cbn [sub_think]. rewrite H. rewrite sub_think_skip.
    destruct n as [|n]; [lia|]. cbn [skipn Nat.sub].
    rewrite ?Nat.sub_0_r. reflexivity.
Qed.

(** Without a match at any position the text is left as it is. *)
Lemma sub_think_none s :
  (forall k, think_match (skipn k s) = None) -> sub_think 0 s = s.
Proof.
  induction s as [|c t IH]; intros H; [reflexivity|].
  pose proof (H 0) as H0. cbn [skipn] in H0.
  cbn [sub_think]. rewrite H0. f_equal. apply IH.
  intros k. exact (H (S k)).
Qed.

Lemma find_none_skipn p s k : find p s = None -> find p (skipn k s) = None.
Proof.
  revert s. induction k as [|k IH]; intros s H; [exact H|].
  destruct s as [|c t]; [exact H|]. cbn [skipn]. apply IH.
  cbn [find] in H. destruct (startswith (c :: t) p); [discriminate|].
  destruct (find p t); [discriminate|reflexivity].
Qed.

Lemma find_none_startswith p s : find p s = None -> startswith s p = false.
Proof.
  destruct s; cbn [find]; destruct (startswith _ p); try discriminate;
    reflexivity.
Qed.

Lemma no_open_no_match s : find THINK_OPEN s = None -> think_match s = None.
Proof.
  intros H. unfold think_match. rewrite (find_none_startswith _ _ H).
  reflexivity.
Qed.

Lemma no_close_no_match s : find THINK_CLOSE s = None -> think_match s = None.
Proof.
  intros H. unfold think_match. destruct (startswith s THINK_OPEN); [|reflexivity].
  rewrite (find_none_skipn _ _ _ H). reflexivity.
Qed.

(** The first [</think>] after a text without [<]. *)
Lemma find_close (body rest : pystr) :
  ~ In LT body ->
  find THINK_CLOSE (body ++ THINK_CLOSE ++ rest) = Some (length body).
Proof.
  induction body as [|c body IH]; intros H.
  - cbn [app length].
    assert (E : startswith (THINK_CLOSE ++ rest) THINK_CLOSE = true)
      by apply startswith_app.
    destruct (THINK_CLOSE ++ rest); cbn [find]; rewrite E; reflexivity.
  - cbn [app length find].
    rewrite startswith_head;
      [|intros ->; apply H; left; reflexivity|exact think_close_head].
    rewrite IH by (intros Hin; apply H; right; exact Hin). reflexivity.
Qed.

Lemma think_match_block (body rest : pystr) :
  ~ In LT body ->
  think_match (THINK_OPEN ++ body ++ THINK_CLOSE ++ rest)
  = Some (length (THINK_OPEN ++ body ++ THINK_CLOSE)).
Proof.
  intros H. unfold think_match. rewrite startswith_app.
  rewrite skipn_app, skipn_all, Nat.sub_diag. cbn [app skipn].
  rewrite (find_close body rest H). cbn [option_map].
  rewrite !length_app. reflexivity.
Qed.

Lemma sub_think_block (body rest : pystr) :
  ~ In LT body ->
  sub_think 0 (THINK_OPEN ++ body ++ THINK_CLOSE ++ rest) = sub_think 0 rest.
Proof.
  intros H. rewrite (sub_think_match _ _ (think_match_block body rest H)).
  f_equal.
  replace (THINK_OPEN ++ body ++ THINK_CLOSE ++ rest)
    with ((THINK_OPEN ++ body ++ THINK_CLOSE) ++ rest)
    by (rewrite <- !app_assoc; reflexivity).
  rewrite skipn_app, skipn_all, Nat.sub_diag. reflexivity.
Qed.

Lemma think_match_head c s : c <> LT -> think_match (c :: s) = None.
Proof.
  intros H. unfold think_match.
  rewrite startswith_head; [reflexivity|exact H|exact think_open_head].
Qed.

Lemma sub_think_prefix (pre s : pystr) :
  ~ In LT pre -> sub_think 0 (pre ++ s) = pre ++ sub_think 0 s.
Proof.
  induction pre as [|c pre IH]; intros H; [reflexivity|].
  cbn [app sub_think].
  rewrite think_match_head by (intros ->; apply H; left; reflexivity).
  f_equal. apply IH. intros Hin. apply H. right. exact Hin.
Qed.

Lemma lstrip_head c s : isspace c = false -> lstrip (c :: s) = c :: s.
Proof. intros H. cbn [lstrip]. rewrite H. reflexivity. Qed.

(** A text that starts and ends with a character that is no white space is
    left alone by [strip]. *)
Lemma strip_solid (a b : N) (m : pystr) :
  isspace a = false -> isspace b = false ->
  strip (a :: m ++ [b]) = a :: m ++ [b].
Proof.
  intros Ha Hb. unfold strip. rewrite (lstrip_head a _ Ha).
  change (a :: m ++ [b]) with ((a :: m) ++ [b]). rewrite rev_app_distr.
  cbn [rev app]. rewrite (lstrip_head b _ Hb).
  change (b :: rev m ++ [a]) with (rev [b] ++ rev (a :: m)).
  rewrite <- rev_app_distr, rev_involutive. reflexivity.
Qed.

Lemma think_block_solid (body : pystr) :
  strip (THINK_OPEN ++ body ++ THINK_CLOSE) = THINK_OPEN ++ body ++ THINK_CLOSE.
Proof.
  change THINK_OPEN with (LT :: skipn 1 THINK_OPEN).
  change THINK_CLOSE with (firstn 7 THINK_CLOSE ++ [62%N]).
  cbn [app]. rewrite !app_assoc. rewrite <- app_assoc.
  rewrite app_assoc. apply strip_solid; reflexivity.
Qed.

End CleanSpec.

Module CleanFacts.
Import LLMClient LLMClientSpec CleanSpec.

(** X13. [_clean_response] on think blocks.  A reply with no [<think>], or
    with no [</think>], is only stripped.  A think block whose body has no
    [<], after a text with no [<], is cut out together with its tags, and
    the rest is cleaned in the same way.  The emptiness test of
    [_call_with_retry] runs before the cleaning: a reply that is nothing but
    such a think block is returned as the empty string, as a success of the
    first attempt, without a retry. *)
Theorem clean_response_contract :
  (forall s, find THINK_OPEN s = None \/ find THINK_CLOSE s = None ->
     _clean_response s = strip s) /\
  (forall pre body rest,
     ~ In LT pre -> ~ In LT body ->
     _clean_response (pre ++ THINK_OPEN ++ body ++ THINK_CLOSE ++ rest)
     = _clean_response (pre ++ rest)) /\
  (forall body api,
     ~ In LT body ->
     api 0 = ApiContent (THINK_OPEN ++ body ++ THINK_CLOSE) ->
     _call_with_retry api = {| returned := []; attempts := 1; sleeps := [] |}).
Proof.
  split; [|split].
  - intros s H. unfold _clean_response. f_equal. apply sub_think_none.
    intros k. destruct H as [H|H].
    + apply no_open_no_match. apply find_none_skipn. exact H.
    + apply no_close_no_match. apply find_none_skipn. exact H.
  - intros pre body rest Hp Hb. unfold _clean_response. f_equal.
    rewrite !(sub_think_prefix pre) by exact Hp. f_equal.
    apply sub_think_block. exact Hb.
  - intros body api Hb Hapi.
    unfold _call_with_retry, MAX_RETRIES. cbn [retry_loop]. rewrite Hapi.
    cbn [attempt_once]. rewrite think_block_solid.
    assert (Ht : truthy (THINK_OPEN ++ body ++ THINK_CLOSE) = true)
      by reflexivity.
    rewrite Ht. unfold _clean_response.
    replace (THINK_OPEN ++ body ++ THINK_CLOSE)
      with (THINK_OPEN ++ body ++ THINK_CLOSE ++ [])
      by (rewrite app_nil_r; reflexivity).
    rewrite (sub_think_block body [] Hb). reflexivity.
Qed.

Lemma clean_response_contract_witness :
  ((find THINK_OPEN (u " approve ") = None \/
    find THINK_CLOSE (u " approve ") = None) /\
   ~ In LT (u "ok ") /\ ~ In LT (u "plan")) /\
  _clean_response (u " approve ") = u "approve" /\
  _clean_response
    (u "ok " ++ THINK_OPEN ++ u "plan" ++ THINK_CLOSE ++ u "approve ")
  = u "ok approve" /\
  _call_with_retry (fun _ => ApiContent (THINK_OPEN ++ u "plan" ++ THINK_CLOSE))
  = {| returned := []; attempts := 1; sleeps := [] |}.
Proof.
  assert (H1 : find THINK_OPEN (u " approve ") = None \/
               find THINK_CLOSE (u " approve ") = None)
    by (left; reflexivity).
  assert (H2 : ~ In LT (u "ok "))
    by (intros H; vm_compute in H; intuition discriminate).
  assert (H3 : ~ In LT (u "plan"))
    by (intros H; vm_compute in H; intuition discriminate).
  split; [exact (conj H1 (conj H2 H3))|].
  destruct clean_response_contract as (Ha & Hb & Hc).
  split; [|split].
  - rewrite (Ha _ H1). reflexivity.
  - rewrite (Hb _ _ (u "approve ") H2 H3). reflexivity.
  - apply (Hc (u "plan")); [exact H3|reflexivity].
Defined.

(** X14. The schedule of [_call_with_retry], whatever the service does: at
    least one and at most 3 attempts are made, every attempt before the last
    one made has failed, and before the retry that follows failed attempt
    number [j] (from 0) the call sleeps [RETRY_DELAY * (j + 1)] seconds; it
    does not sleep after its last attempt.  With fewer than 3 attempts the
    last one succeeded and its text is returned. *)
Theorem retry_schedule (api : nat -> ApiOutcome) :
  let r := _call_with_retry api in
  1 <= attempts r <= MAX_RETRIES /\
  sleeps r = map (fun j => RETRY_DELAY * (j + 1)) (seq 0 (attempts r - 1)) /\
  (forall j, j < attempts r - 1 -> fails (api j)) /\
  (attempts r < MAX_RETRIES ->
   attempt_once (api (attempts r - 1)) = inl (returned r)) /\
  (attempts r = MAX_RETRIES ->
   attempt_once (api 2) = inl (returned r) \/
   exists e, attempt_once (api 2) = inr e /\
             returned r = failure_string (Some e)).
Proof.
  unfold _call_with_retry, MAX_RETRIES, fails. cbn [retry_loop].
  destruct (attempt_once (api 0)) as [t0|e0] eqn:E0.
  - cbn. repeat split; try lia. intros _. exact E0.
  - cbn [Nat.ltb Nat.leb Nat.sub app]. 
    destruct (attempt_once (api 1)) as [t1|e1] eqn:E1.
    + cbn. repeat split; try lia.
      * intros j Hj. assert (j = 0) as -> by lia. eexists; exact E0.
      * intros _. exact E1.
    + destruct (attempt_once (api 2)) as [t2|e2] eqn:E2.
      * cbn. repeat split; try lia.
        -- intros j Hj.
           assert (j = 0 \/ j = 1) as [-> | ->] by lia; eexists; eassumption.
        -- intros _. left. reflexivity.
      * cbn. repeat split; try lia.
        -- intros j Hj.
           assert (j = 0 \/ j = 1) as [-> | ->] by lia; eexists; eassumption.
        -- intros _. right. exists e2. split; reflexivity.
Qed.

End CleanFacts.

(** ** What the conversation memory holds *)

Module RecallSpec.
Import Memory MemorySpec.

(** The message an [add] stores. *)
Definition message_of (op : (pystr -> pystr) * pystr * pystr) : Message :=
  {| role := snd (fst op); content := snd op |}.

(** The summary was never taken from a failed call, and is empty as long as
    no compression pass has replaced it. *)
Definition sound_summary (m : MemoryManager) : Prop :=
  startswith (summary m) FAILURE_PREFIX = false /\
  (compress_count m = 0 -> summary m = []).

Lemma slice_from_neg_suffix {A} (K : nat) (l : list A) :
  exists d, l = d ++ slice_from_neg K l.
Proof.
  unfold slice_from_neg. destruct (K =? 0).
  - exists []. reflexivity.
  - exists (firstn (length l - K) l). symmetry. apply firstn_skipn.
Qed.

Lemma slice_from_neg_tail {A} (K : nat) (l tail : list A) :
  length tail <= K -> exists pre, slice_from_neg K (l ++ tail) = pre ++ tail.
Proof.
  intros H. unfold slice_from_neg. destruct (K =? 0).
  - exists l. reflexivity.
  - exists (skipn (length (l ++ tail) - K) l).
    rewrite skipn_app, length_app.
    replace (length l + length tail - K - length l) with 0 by lia.
    reflexivity.
Qed.

Lemma compress_name K llm m : player_name (_compress K llm m) = player_name m.
Proof.
  unfold _compress. destruct (negb _); [reflexivity|].
  destruct (startswith _ _); reflexivity.
Qed.

Lemma compress_sound K llm m :
  sound_summary m -> sound_summary (_compress K llm m).
Proof.
  intros [H1 H2]. unfold _compress, sound_summary.
  destruct (negb _); cbn [summary compress_count]; [split; assumption|].
  destruct (startswith (llm _) _) eqn:E; cbn [summary compress_count];
    [split; assumption|].
  split; [exact E|]. intros H. lia.
Qed.

Lemma compress_count_step K llm m :
  compress_count m <= compress_count (_compress K llm m) <= compress_count m + 1.
Proof.
  unfold _compress. destruct (negb _); [cbn; lia|].
  destruct (startswith _ _); cbn; lia.
Qed.

Lemma add_cases T K llm m r c :
  add T K llm m r c = appended m r c \/
  add T K llm m r c = _compress K llm (appended m r c).
Proof.
  unfold add. fold (appended m r c). destruct (T <=? _); [right|left]; reflexivity.
Qed.

Lemma add_name T K llm m r c : player_name (add T K llm m r c) = player_name m.
Proof.
  destruct (add_cases T K llm m r c) as [-> | ->]; [reflexivity|].
  rewrite compress_name. reflexivity.
Qed.

Lemma add_sound T K llm m r c :
  sound_summary m -> sound_summary (add T K llm m r c).
Proof.
  intros H. destruct (add_cases T K llm m r c) as [-> | ->]; [exact H|].
  apply compress_sound. exact H.
Qed.

Lemma add_count T K llm m r c :
  compress_count m <= compress_count (add T K llm m r c) <= compress_count m + 1.
Proof.
  destruct (add_cases T K llm m r c) as [-> | ->]; [cbn; lia|].
  apply (compress_count_step K llm (appended m r c)).
Qed.

(** [recent] after an [add] is a final segment of the old [recent] followed
    by the new message. *)
Lemma add_suffix T K llm m r c :
  exists d,
    recent m ++ [{| role := r; content := c |}]
    = d ++ recent (add T K llm m r c).
Proof.
  destruct (add_cases T K llm m r c) as [-> | ->].
  - exists []. reflexivity.
  - rewrite compress_recent. apply slice_from_neg_suffix.
Qed.

(** A tail of at most [K] messages survives the [add] of its last one. *)
Lemma add_tail T K llm m r c pre tail :
  length tail <= K ->
  recent m ++ [{| role := r; content := c |}] = pre ++ tail ->
  exists pre', recent (add T K llm m r c) = pre' ++ tail.
Proof.
  intros Hlen E. destruct (add_cases T K llm m r c) as [-> | ->].
  - exists pre. exact E.
  - rewrite compress_recent. cbn [appended recent]. rewrite E.
    apply slice_from_neg_tail. exact Hlen.
Qed.

Lemma add_all_snoc T K ops op m :
  add_all T K (ops ++ [op]) m
  = add T K (fst (fst op)) (add_all T K ops m) (snd (fst op)) (snd op).
Proof. unfold add_all. rewrite fold_left_app. reflexivity. Qed.

Lemma add_all_last T K ops m op :
  0 < K ->
  last (map Some ops) None = Some op ->
  last (map Some (recent (add_all T K ops m))) None = Some (message_of op).
Proof.
  intros HK Hop.
  assert (Hne : ops <> []) by (intros ->; discriminate Hop).
  destruct (exists_last Hne) as (ops0 & op0 & ->).
  rewrite map_app in Hop. cbn [map] in Hop. rewrite last_last in Hop.
  injection Hop as <-.
  rewrite add_all_snoc.
  destruct (add_tail T K (fst (fst op0)) (add_all T K ops0 m)
              (snd (fst op0)) (snd op0)
              (recent (add_all T K ops0 m)) [message_of op0])
    as [pre Hpre]; [cbn; lia|reflexivity|].
  rewrite Hpre, map_app. cbn [map]. apply last_last.
Qed.

Lemma history_length m :
  length (get_messages_for_llm m) <= length (recent m) + 2.
Proof.
  unfold get_messages_for_llm. destruct (truthy (summary m));
    rewrite length_app; cbn [length]; lia.
Qed.

Lemma event_is_kept name event :
  format_message name
    {| role := u "user"; content := u "[游戏事件] " ++ event |}
  = [u "[游戏事件] " ++ event].
Proof.
  unfold format_message. cbn [role content].
  assert (E1 : str_eqb (u "user") (u "user") = true) by reflexivity.
  rewrite E1.
  assert (E2 : startswith (u "[游戏事件] " ++ event) (u "[游戏事件]") = true).
  { change (u "[游戏事件] ") with (u "[游戏事件]" ++ [32%N]).
    rewrite <- app_assoc. clear E1.
    induction (u "[游戏事件]") as [|x p IH]; [reflexivity|].
    cbn [app startswith]. rewrite N.eqb_refl. exact IH. }
  rewrite E2. reflexivity.
Qed.

End RecallSpec.

Module RecallFacts.
Import Memory MemorySpec RecallSpec.

(** X15. With [0 < K < T], after any sequence of [add]s on a fresh store:
    the player name is the one given; the summary does not start with the
    failure marker and is empty as long as the counter is 0; the counter is
    at most the number of [add]s; [recent] is a final segment of the
    messages added, unchanged and in order, and ends with the last one; the
    history handed to the oracle ends with [recent] and has at most [T + 1]
    messages. *)
Theorem memory_holds_latest (T K : nat) (name : pystr)
        (ops : list ((pystr -> pystr) * pystr * pystr)) :
  0 < K < T ->
  let m := add_all T K ops (init name) in
  player_name m = name /\
  startswith (summary m) FAILURE_PREFIX = false /\
  (compress_count m = 0 -> summary m = []) /\
  compress_count m <= length ops /\
  (exists dropped, map message_of ops = dropped ++ recent m) /\
  (forall op, last (map Some ops) None = Some op ->
              last (map Some (recent m)) None = Some (message_of op)) /\
  (exists intro, get_messages_for_llm m = intro ++ recent m) /\
  length (get_messages_for_llm m) <= T + 1.
Proof.
  intros HK m.
  assert (Hinv : player_name m = name /\ sound_summary m /\
                 compress_count m <= length ops /\
                 exists dropped, map message_of ops = dropped ++ recent m).
  { unfold m. clear m. induction ops as [|op ops IH] using rev_ind.
    - split; [reflexivity|]. split; [split; reflexivity|].
      split; [cbn; lia|]. exists []. reflexivity.
    - destruct IH as (Hn & Hs & Hc & d & Hd). rewrite add_all_snoc.
      split; [rewrite add_name; exact Hn|].
      split; [apply add_sound; exact Hs|]. split.
      + rewrite length_app. cbn [length].
        pose proof (add_count T K (fst (fst op)) (add_all T K ops (init name))
                      (snd (fst op)) (snd op)). lia.
      + destruct (add_suffix T K (fst (fst op)) (add_all T K ops (init name))
                    (snd (fst op)) (snd op)) as [d' Hd'].
        exists (d ++ d'). rewrite map_app, Hd. cbn [map].
        rewrite <- !app_assoc. f_equal. exact Hd'. }
  destruct Hinv as (Hn & [Hs1 Hs2] & Hc & Hd).
  split; [exact Hn|]. split; [exact Hs1|]. split; [exact Hs2|].
  split; [exact Hc|]. split; [exact Hd|]. split; [|split].
  - intros op Hop. unfold m. apply add_all_last; [lia|exact Hop].
  - unfold get_messages_for_llm. eexists. reflexivity.
  - pose proof (history_length m) as Hh.
    assert (Hb : length (recent m) < T).
    { unfold m. apply add_all_bounded; [exact HK|]. cbn. lia. }
    lia.
Qed.

Lemma memory_holds_latest_witness :
  0 < 2 < 4 /\
  let m := add_all 4 2
             [(fun _ => u "s", u "user", u "a");
              (fun _ => u "s", u "assistant", u "b");
              (fun _ => u "s", u "user", u "c");
              (fun _ => u "s", u "assistant", u "d");
              (fun _ => u "s", u "user", u "e")]
             (init (u "p")) in
  startswith (summary m) FAILURE_PREFIX = false /\
  length (get_messages_for_llm m) <= 4 + 1.
Proof.
  split; [lia|]. intros m.
  destruct (memory_holds_latest 4 2 (u "p")
              [(fun _ => u "s", u "user", u "a");
               (fun _ => u "s", u "assistant", u "b");
               (fun _ => u "s", u "user", u "c");
               (fun _ => u "s", u "assistant", u "d");
               (fun _ => u "s", u "user", u "e")])
    as (_ & H2 & _ & _ & _ & _ & _ & H8); [lia|].
  exact (conj H2 H8).
Defined.

(** X16. [Agent._call_llm] with [2 <= K < T]: the oracle is asked with the
    history of the store as it was before the call, and what it answers is
    returned; afterwards [recent], and so the history of the next call, ends
    with the prompt as a user message followed by the answer as an assistant
    message, and [recent] is shorter than [T].  [Agent.observe] leaves the
    event, tagged as a game event, as the last recent message, and the text
    handed to the summarizer keeps a message with this tag as it is. *)
Theorem call_llm_records_exchange (T K : nat)
        (oracle : list Message -> pystr -> pystr) (llm1 llm2 : pystr -> pystr)
        (m : MemoryManager) (prompt event : pystr) :
  2 <= K < T -> length (recent m) < T ->
  let answer := oracle (get_messages_for_llm m) prompt in
  let m' := fst (_call_llm T K oracle llm1 llm2 m prompt) in
  let exchange := [{| role := u "user"; content := prompt |};
                   {| role := u "assistant"; content := answer |}] in
  let noted := {| role := u "user"; content := u "[游戏事件] " ++ event |} in
  snd (_call_llm T K oracle llm1 llm2 m prompt) = answer /\
  (exists before, recent m' = before ++ exchange) /\
  (exists before, get_messages_for_llm m' = before ++ exchange) /\
  length (recent m') < T /\
  player_name m' = player_name m /\
  (exists before, recent (observe T K llm1 m event) = before ++ [noted]) /\
  length (recent (observe T K llm1 m event)) < T /\
  format_message (player_name m) noted = [content noted].
Proof.
  intros HK Hm answer m' exchange noted.
  unfold _call_llm in m'. cbn [fst] in m'. fold answer in m'.
  set (m1 := add T K llm1 m (u "user") prompt) in *.
  assert (H1 : exists pre, recent m1 = pre ++ [{| role := u "user"; content := prompt |}]).
  { apply (add_tail T K llm1 m _ _ (recent m)); [cbn; lia|reflexivity]. }
  assert (H2 : exists before, recent m' = before ++ exchange).
  { destruct H1 as [pre Hpre].
    apply (add_tail T K llm2 m1 _ _ pre); [cbn; lia|].
    rewrite Hpre, <- app_assoc. reflexivity. }
  split; [reflexivity|]. split; [exact H2|]. split; [|split; [|split]].
  - destruct H2 as [before Hb]. unfold get_messages_for_llm. rewrite Hb.
    eexists. rewrite app_assoc. reflexivity.
  - unfold m'. apply add_bounded; [lia|]. apply add_bounded; [lia|exact Hm].
  - unfold m', m1. rewrite !add_name. reflexivity.
  - split; [|split].
    + apply (add_tail T K llm1 m _ _ (recent m)); [cbn; lia|reflexivity].
    + apply add_bounded; [lia|exact Hm].
    + apply event_is_kept.
Qed.

Lemma call_llm_records_exchange_witness :
  (2 <= 2 < 5 /\ length (recent Scenario.four_replies) < 5) /\
  snd (_call_llm 5 2 (fun _ _ => u "ok") (fun _ => u "s") (fun _ => u "s")
         Scenario.four_replies (u "vote?")) = u "ok" /\
  exists before,
    recent (fst (_call_llm 5 2 (fun _ _ => u "ok") (fun _ => u "s")
                   (fun _ => u "s") Scenario.four_replies (u "vote?")))
    = before ++ [{| role := u "user"; content := u "vote?" |};
                 {| role := u "assistant"; content := u "ok" |}].
Proof.
  assert (H1 : 2 <= 2 < 5) by lia.
  assert (H2 : length (recent Scenario.four_replies) < 5)
    by (vm_compute; lia).
  split; [exact (conj H1 H2)|].
  destruct (call_llm_records_exchange 5 2 (fun _ _ => u "ok")
              (fun _ => u "s") (fun _ => u "s") Scenario.four_replies
              (u "vote?") (u "e") H1 H2) as (Ha & Hb & _).
  exact (conj Ha Hb).
Defined.

End RecallFacts.

(** ** The community statistics *)

Module StatsSpec.
Import Statistics.

Lemma str_eqb_eq (a b : pystr) : str_eqb a b = true <-> a = b.
Proof.
  revert b. induction a as [|x a IH]; intros [|y b]; cbn [str_eqb];
    try (split; [discriminate|discriminate]); [tauto|].
  rewrite andb_true_iff, N.eqb_eq, IH. split.
  - intros [-> ->]. reflexivity.
  - intros [= -> ->]. split; reflexivity.
Qed.

Lemma str_eqb_refl (a : pystr) : str_eqb a a = true.
Proof. apply str_eqb_eq. reflexivity. Qed.

Lemma str_eqb_neq (a b : pystr) : a <> b -> str_eqb a b = false.
Proof.
  intros H. destruct (str_eqb a b) eqn:E; [|reflexivity].
  apply str_eqb_eq in E. contradiction.
Qed.

(** [str()] tells integers apart. *)
Lemma str_of_Z_inj (a b : Z) : str_of_Z a = str_of_Z b -> a = b.
Proof.
  unfold str_of_Z. intros H.
  assert (Hnil : forall z, Z.to_int z <> Decimal.Pos Decimal.Nil /\
                           Z.to_int z <> Decimal.Neg Decimal.Nil).
  { intros [|q|q]; cbn; split; try discriminate; intros [= E];
      exact (DecimalPos.Unsigned.to_uint_nonnil q E). }
  apply (f_equal (map ascii_of_N)) in H. rewrite !map_map in H.
  rewrite !(map_ext _ (fun a => a) ascii_N_embedding), !map_id in H.
  apply (f_equal string_of_list_ascii) in H.
  rewrite !string_of_list_ascii_of_string in H.
  apply (f_equal NilZero.int_of_string) in H.
  rewrite !NilZero.isi in H by apply Hnil.
  injection H as H. apply DecimalZ.to_int_inj. exact H.
Qed.

Lemma stats_key_inj p q : stats_key p = stats_key q -> of_player_id p = of_player_id q.
Proof.
  unfold stats_key. intros H. apply app_inv_head in H.
  apply str_of_Z_inj in H. lia.
Qed.

(** *** The dictionary *)

Lemma get_set_same d k v : stats_get (stats_set d k v) k = Some v.
Proof.
  induction d as [|[k' v'] d IH]; cbn [stats_set stats_get].
  - rewrite str_eqb_refl. reflexivity.
  - destruct (str_eqb k k') eqn:E; cbn [stats_get].
    + rewrite str_eqb_refl. reflexivity.
    + rewrite E. exact IH.
Qed.

Lemma get_set_other d k v q :
  q <> k -> stats_get (stats_set d k v) q = stats_get d q.
Proof.
  intros Hq. induction d as [|[k' v'] d IH]; cbn [stats_set stats_get].
  - rewrite str_eqb_neq by exact Hq. reflexivity.
  - destruct (str_eqb k k') eqn:E; cbn [stats_get].
    + apply str_eqb_eq in E. subst k'. rewrite !str_eqb_neq by exact Hq.
      reflexivity.
    + destruct (str_eqb q k'); [reflexivity|exact IH].
Qed.

(** The entry the loop body starts from. *)
Definition entry (d : list (pystr * PlayerStats)) (k : pystr) : PlayerStats :=
  match stats_get d k with
  | Some st => st
  | None => no_games
  end.

Definition is_good (p : PlayerResult) : bool := str_eqb (of_team p) (u "good").

Definition won (g : GameResult) (p : PlayerResult) : bool :=
  Bool.eqb (good_won g) (is_good p).

Lemma update_player_same g d p :
  stats_get (update_player g d p) (stats_key p)
  = Some (played (is_good p) (won g p) (entry d (stats_key p))).
Proof.
  unfold update_player, entry, won, is_good.
  destruct (stats_get d (stats_key p)) as [st|] eqn:E.
  - rewrite E, get_set_same. reflexivity.
  - rewrite !get_set_same. reflexivity.
Qed.

Lemma update_player_other g d p q :
  q <> stats_key p -> stats_get (update_player g d p) q = stats_get d q.
Proof.
  intros Hq. unfold update_player.
  rewrite get_set_other by exact Hq.
  destruct (stats_get d (stats_key p)); [reflexivity|].
  apply get_set_other. exact Hq.
Qed.

(** *** One entry *)

Definition balanced (st : PlayerStats) : Prop :=
  games st = as_good st + as_evil st /\
  wins st = wins_as_good st + wins_as_evil st /\
  wins_as_good st <= as_good st /\ wins_as_evil st <= as_evil st.

Lemma played_balanced good w st :
  balanced st -> balanced (played good w st) /\ 1 <= games (played good w st).
Proof.
  unfold balanced. intros (H1 & H2 & H3 & H4).
  destruct good, w; cbn; lia.
Qed.

Definition entries_ok (d : list (pystr * PlayerStats)) : Prop :=
  forall q st, stats_get d q = Some st -> balanced st /\ 1 <= games st.

Lemma entry_balanced d k : entries_ok d -> balanced (entry d k).
Proof.
  intros H. unfold entry. destruct (stats_get d k) as [st|] eqn:E.
  - apply (H k st E).
  - unfold balanced. cbn. lia.
Qed.

Lemma update_player_ok g d p : entries_ok d -> entries_ok (update_player g d p).
Proof.
  intros H q st. destruct (str_eqb q (stats_key p)) eqn:E.
  - apply str_eqb_eq in E. subst q. rewrite update_player_same.
    intros [= <-]. apply played_balanced. apply entry_balanced. exact H.
  - rewrite update_player_other.
    + apply H.
    + intros ->. rewrite str_eqb_refl in E. discriminate.
Qed.

Lemma players_ok g ps d :
  entries_ok d -> entries_ok (fold_left (update_player g) ps d).
Proof.
  revert d. induction ps as [|p ps IH]; intros d H; [exact H|].
  cbn [fold_left]. apply IH. apply update_player_ok. exact H.
Qed.

(** *** A game in which no player is listed twice *)

Lemma players_once g ps d q :
  NoDup (map of_player_id ps) ->
  stats_get (fold_left (update_player g) ps d) q
  = match find (fun p => str_eqb q (stats_key p)) ps with
    | Some p => Some (played (is_good p) (won g p) (entry d q))
    | None => stats_get d q
    end.
Proof.
  revert d. induction ps as [|p ps IH]; intros d Hnd; [reflexivity|].
  inversion Hnd as [|? ? Hp Hnd']; subst.
  cbn [fold_left find]. rewrite IH by exact Hnd'.
  destruct (str_eqb q (stats_key p)) eqn:E.
  - apply str_eqb_eq in E. subst q.
    assert (Hnone : find (fun p0 => str_eqb (stats_key p) (stats_key p0)) ps
                    = None).
    { destruct (find _ ps) as [p0|] eqn:F; [|reflexivity].
      apply find_some in F. destruct F as [Hin Heq].
      apply str_eqb_eq, stats_key_inj in Heq. exfalso. apply Hp.
      rewrite Heq. apply in_map. exact Hin. }
    rewrite Hnone. apply update_player_same.
  - assert (Hq : q <> stats_key p)
      by (intros ->; rewrite str_eqb_refl in E; discriminate).
    unfold entry. rewrite (update_player_other g d p q Hq). reflexivity.
Qed.

(** The totals bound every entry. *)
Definition within (s : CommunityStatistics) : Prop :=
  forall q st, stats_get (player_stats s) q = Some st ->
    games st <= total_games s /\
    wins_as_good st <= good_wins s /\ wins_as_evil st <= evil_wins s.

Lemma update_within s g :
  NoDup (map of_player_id (game_players g)) -> within s -> within (update s g).
Proof.
  intros Hnd H q st. unfold update.
  cbn [player_stats total_games good_wins evil_wins].
  rewrite players_once by exact Hnd.
  assert (He : games (entry (player_stats s) q) <= total_games s /\
               wins_as_good (entry (player_stats s) q) <= good_wins s /\
               wins_as_evil (entry (player_stats s) q) <= evil_wins s).
  { unfold entry. destruct (stats_get (player_stats s) q) as [st0|] eqn:E.
    - apply (H q st0 E).
    - cbn. lia. }
  destruct (find _ (game_players g)) as [p|].
  - intros [= <-]. unfold won.
    destruct (good_won g), (is_good p); cbn; lia.
  - intros E. specialize (H q st E). destruct (good_won g); lia.
Qed.

(** *** The last twenty games *)

Definition recent_of (g : GameResult) : RecentGame :=
  {| recent_id := game_id g; recent_winner := game_winner g;
     recent_end_reason := game_end_reason g |}.

Lemma slice_from_neg_snoc {A} (K : nat) (l : list A) (x : A) :
  0 < K ->
  slice_from_neg K (slice_from_neg K l ++ [x]) = slice_from_neg K (l ++ [x]).
Proof.
  intros HK. unfold slice_from_neg.
  destruct (K =? 0) eqn:E; [apply Nat.eqb_eq in E; lia|].
  rewrite !length_app, length_skipn. cbn [length].
  destruct (Nat.le_gt_cases (length l) K) as [Hle|Hgt].
  - replace (length l - K) with 0 by lia. cbn [skipn].
    rewrite Nat.sub_0_r. reflexivity.
  - rewrite !skipn_app, skipn_skipn, length_skipn.
    replace (length l - (length l - K) + 1 - K + (length l - K))
      with (length l + 1 - K) by lia.
    replace (length l - (length l - K) + 1 - K - (length l - (length l - K)))
      with (length l + 1 - K - length l) by lia.
    reflexivity.
Qed.

Lemma updates_snoc gs g s : updates (gs ++ [g]) s = update (updates gs s) g.
Proof. unfold updates. rewrite fold_left_app. reflexivity. Qed.

Lemma updates_ok gs : entries_ok (player_stats (updates gs empty)).
Proof.
  induction gs as [|g gs IH] using rev_ind.
  - intros q st E. discriminate E.
  - rewrite updates_snoc. unfold update. cbn [player_stats].
    apply players_ok. exact IH.
Qed.

End StatsSpec.

Module StatsFacts.
Import Statistics StatsSpec.

(** X17. After any sequence of [update]s on fresh statistics:
    [total_games] is the number of games, and the sum of [good_wins], the
    number of games whose winner is ["good"], and [evil_wins]; the
    assassinations that succeeded are at most those attempted, which are at
    most the games; [recent_games] holds the last 20 games in order; and in
    every entry of [player_stats] the games are those as good plus those as
    evil, at least one, the wins are those as good plus those as evil, and
    no more games are won in a team than were played in it. *)
Theorem statistics_add_up (gs : list GameResult) :
  let s := updates gs empty in
  total_games s = length gs /\
  good_wins s = length (filter good_won gs) /\
  good_wins s + evil_wins s = total_games s /\
  assassinations_successful s <= assassinations_attempted s <= total_games s /\
  recent_games s = slice_from_neg 20 (map recent_of gs) /\
  length (recent_games s) = Nat.min 20 (length gs) /\
  (forall q st, stats_get (player_stats s) q = Some st ->
     games st = as_good st + as_evil st /\ 1 <= games st /\
     wins st = wins_as_good st + wins_as_evil st /\
     wins_as_good st <= as_good st /\ wins_as_evil st <= as_evil st).
Proof.
  intros s.
  assert (H : total_games s = length gs /\
              good_wins s = length (filter good_won gs) /\
              good_wins s + evil_wins s = total_games s /\
              assassinations_successful s <= assassinations_attempted s
                <= total_games s /\
              recent_games s = slice_from_neg 20 (map recent_of gs)).
  { unfold s. clear s. induction gs as [|g gs IH] using rev_ind.
    - cbn. repeat split; lia.
    - rewrite updates_snoc. destruct IH as (H1 & H2 & H3 & H4 & H5).
      unfold update.
      cbn [total_games good_wins evil_wins assassinations_attempted
           assassinations_successful recent_games].
      rewrite filter_app, !length_app, map_app. cbn [filter map length].
      rewrite H5. fold (recent_of g).
      rewrite slice_from_neg_snoc by lia.
      split; [lia|]. split; [destruct (good_won g); cbn [length]; lia|].
      split; [destruct (good_won g); lia|]. split; [|reflexivity].
      destruct (assassin_phase g) as [[|]|]; lia. }
  destruct H as (H1 & H2 & H3 & H4 & H5).
  split; [exact H1|]. split; [exact H2|]. split; [exact H3|].
  split; [exact H4|]. split; [exact H5|]. split.
  - rewrite H5, MemorySpec.slice_from_neg_length by lia.
    rewrite length_map. reflexivity.
  - intros q st E.
    destruct (updates_ok gs q st E) as ((B1 & B2 & B3 & B4) & B5).
    repeat split; assumption.
Qed.

(** X18. When every game lists each player id at most once, no entry of
    [player_stats] counts more games than [total_games], more wins as good
    than [good_wins], more wins as evil than [evil_wins], or more wins than
    games. *)
Theorem statistics_within_totals (gs : list GameResult) :
  Forall (fun g => NoDup (map of_player_id (game_players g))) gs ->
  let s := updates gs empty in
  forall q st, stats_get (player_stats s) q = Some st ->
    games st <= total_games s /\
    wins_as_good st <= good_wins s /\ wins_as_evil st <= evil_wins s /\
    wins st <= games st.
Proof.
  intros Hgs s q st E.
  assert (Hw : within s).
  { unfold s. clear s E. induction gs as [|g gs IH] using rev_ind.
    - intros q0 st0 E0. discriminate E0.
    - apply Forall_app in Hgs. destruct Hgs as [Hgs Hg].
      rewrite updates_snoc. apply update_within.
      + inversion Hg; assumption.
      + apply IH. exact Hgs. }
  destruct (Hw q st E) as (W1 & W2 & W3).
  destruct (updates_ok gs q st E) as ((B1 & B2 & B3 & B4) & B5).
  repeat split; try assumption. lia.
Qed.

Lemma statistics_within_totals_witness :
  Forall (fun g => NoDup (map of_player_id (game_players g)))
         [Scenario.good_game; Scenario.evil_game] /\
  forall q st,
    stats_get (player_stats
                 (updates [Scenario.good_game; Scenario.evil_game] empty)) q
    = Some st ->
    games st <= 2 /\ wins_as_good st <= 1 /\ wins_as_evil st <= 1 /\
    wins st <= games st.
Proof.
  assert (H : Forall (fun g => NoDup (map of_player_id (game_players g)))
                     [Scenario.good_game; Scenario.evil_game]).
  { constructor; [|constructor; [|constructor]]; cbn [map].
    - apply NoDup_cons; [intros [E|[]]; discriminate E|].
      apply NoDup_cons; [intros []|apply NoDup_nil].
    - apply NoDup_cons; [intros [E|[]]; discriminate E|].
      apply NoDup_cons; [intros []|apply NoDup_nil]. }
  split; [exact H|].
  exact (statistics_within_totals [Scenario.good_game; Scenario.evil_game] H).
Defined.

End StatsFacts.

(** ** Votes and mission cards read from a reply *)

Module BallotSpec.
Import Game Ballot.





End BallotSpec.

Module BallotFacts.
Import Game Ballot BallotSpec.



End BallotFacts.
